(** * The AHRQ record matcher ([deduplication_module.py]), embedded in Rocq

    The development follows [AHRQDeduplicator]: the three normalisers, the
    title similarity score, and the tiered matcher [find_matches].

    Conventions of the embedding.
    - A Python [str] is a [string]; its characters are the code points
      0..255 (ASCII and Latin-1), classified as CPython classifies them.
    - A pandas cell is a [pyval]: a string, a missing cell (NaN) or an
      integer; other floats are left out.  A column that a table may lack
      is an [option].
    - Python exceptions are the [Raise] results of the [res] monad.
    - The Python floats that hold scores are exact rationals ([Q]).
    - [int(float(s))] follows CPython: its grammar, rounding to the nearest
      binary64, truncation.
    - [difflib.SequenceMatcher] (isjunk = None, autojunk = True) is embedded
      from the CPython standard library, which the module imports. *)

From Stdlib Require Import ZArith QArith Lqa Ascii String List Lia DecimalString DecimalPos Sorted.
From stdpp Require Import gmap strings list.

Open Scope Z_scope.

(** ** Exceptions *)

Inductive exn := ValueError | OverflowError | AttributeError | IndexError | KeyError.

Inductive res (A : Type) : Type :=
| Ok (a : A)
| Raise (e : exn).
Arguments Ok {A} a.
Arguments Raise {A} e.

Definition bind {A B} (m : res A) (k : A → res B) : res B :=
  match m with
  | Ok a => k a
  | Raise e => Raise e
  end.

Global Instance res_bind : MBind res := λ A B k m, bind m k.
Global Instance res_ret : MRet res := @Ok.

Definition is_Ok {A} (m : res A) : Prop :=
  match m with Ok _ => True | Raise _ => False end.

Global Instance is_Ok_dec {A} (m : res A) : Decision (is_Ok m) :=
  match m with Ok _ => left I | Raise _ => right (λ f : False, f) end.

(** ** Python strings *)

Module Str.

Definition chars : string → list ascii := String.list_ascii_of_string.
Definition text : list ascii → string := String.string_of_list_ascii.

Definition ord (c : ascii) : N := N_of_ascii c.

Definition in_range (lo hi : N) (c : ascii) : bool :=
  ((lo <=? ord c) && (ord c <=? hi))%N.

(** [str.isspace], also the class [\s] of [re] on [str] patterns. *)
Definition isspace (c : ascii) : bool :=
  in_range 9 13 c || in_range 28 32 c || (ord c =? 133)%N || (ord c =? 160)%N.

(** The class [\d]. *)
Definition isdigit (c : ascii) : bool := in_range 48 57 c.

(** The class [\w]: alphanumeric code points and the underscore. *)
Definition isword (c : ascii) : bool :=
  isdigit c || in_range 65 90 c || in_range 97 122 c || (ord c =? 95)%N
  || (ord c =? 170)%N || (ord c =? 178)%N || (ord c =? 179)%N
  || (ord c =? 181)%N || (ord c =? 185)%N || (ord c =? 186)%N
  || in_range 188 190 c || in_range 192 214 c || in_range 216 246 c
  || in_range 248 255 c.

Definition lower_char (c : ascii) : ascii :=
  if in_range 65 90 c || in_range 192 214 c || in_range 216 222 c
  then ascii_of_N (ord c + 32) else c.

Fixpoint drop_while (p : ascii → bool) (l : list ascii) : list ascii :=
  match l with
  | [] => []
  | c :: l' => if p c then drop_while p l' else l
  end.

Fixpoint take_while (p : ascii → bool) (l : list ascii) : list ascii :=
  match l with
  | [] => []
  | c :: l' => if p c then c :: take_while p l' else []
  end.

Definition strip_by (p : ascii → bool) (l : list ascii) : list ascii :=
  rev (drop_while p (rev (drop_while p l))).

(** [s.lower()] *)
Definition lower (s : string) : string := text (map lower_char (chars s)).

(** [s.strip()] *)
Definition strip (s : string) : string := text (strip_by isspace (chars s)).

(** [s.split()]: the maximal runs of non-whitespace characters.  [cur] holds
    the run being read, in reverse. *)
Fixpoint split_ws (cur : list ascii) (l : list ascii) : list string :=
  match l with
  | [] => match cur with [] => [] | _ => [text (rev cur)] end
  | c :: l' =>
      if isspace c
      then match cur with
           | [] => split_ws [] l'
           | _ => text (rev cur) :: split_ws [] l'
           end
      else split_ws (c :: cur) l'
  end.

Definition split (s : string) : list string := split_ws [] (chars s).

(** [s.split(sep)[0]]: everything before the first [sep]. *)
Definition before (sep : ascii) (s : string) : string :=
  text (take_while (λ c, negb (Ascii.eqb c sep)) (chars s)).

(** [sep in s] for a one-character [sep]. *)
Definition contains (sep : ascii) (s : string) : bool :=
  existsb (Ascii.eqb sep) (chars s).

(** [s.count(sep)] for a one-character [sep]. *)
Definition count (sep : ascii) (s : string) : nat :=
  length (filter (λ c, Ascii.eqb c sep = true) (chars s)).

(** [' '.join(ws)] *)
Fixpoint join (ws : list string) : string :=
  match ws with
  | [] => ""
  | [w] => w
  | w :: ws' => w +:+ " " +:+ join ws'
  end.

(** Truth value of a string: non-empty. *)
Definition nonempty (s : string) : bool :=
  match s with EmptyString => false | _ => true end.

(** [str(z)] for an integer. *)
Definition of_Z (z : Z) : string := NilZero.string_of_int (Z.to_int z).

End Str.

(** ** [int(float(s))] on a string

    [float] strips ASCII whitespace (and the Latin-1 spaces NEL and NBSP),
    accepts digit-group underscores between digits, an optional sign, then
    [inf], [infinity] or [nan] in any case, or a decimal number with an
    optional fraction and exponent; the value is rounded to the nearest
    binary64 (ties to even).  [int] truncates toward zero, raising
    [ValueError] on NaN and [OverflowError] on an infinity. *)

Module Float.
Import Str.

Definition isspace_c (c : ascii) : bool :=
  in_range 9 13 c || (ord c =? 32)%N || (ord c =? 133)%N || (ord c =? 160)%N.

(** Underscores are allowed only between two digits; they are removed. *)
Fixpoint strip_underscores (prev : option ascii) (l : list ascii)
  : option (list ascii) :=
  let prev_digit := match prev with Some p => isdigit p | None => false end in
  let prev_under := match prev with Some p => Ascii.eqb p "_" | None => false end in
  match l with
  | [] => if prev_under then None else Some []
  | c :: l' =>
      if Ascii.eqb c "_"
      then if prev_digit then strip_underscores (Some c) l' else None
      else if prev_under && negb (isdigit c) then None
           else cons c <$> strip_underscores (Some c) l'
  end.

Definition digit_val (c : ascii) : Z := Z.of_N (ord c) - 48.

(** Value of a digit string read after the accumulated value [acc]. *)
Definition digits_val (acc : Z) (ds : list ascii) : Z :=
  fold_left (λ v c, 10 * v + digit_val c) ds acc.

Inductive fval :=
| FNum (neg : bool) (m : Z) (e10 : Z)   (* (-1)^neg * m * 10^e10 *)
| FInf
| FNan.

(** The exponent part: empty, or [e] or [E], an optional sign, digits. *)
Definition parse_exponent (l : list ascii) : option Z :=
  match l with
  | [] => Some 0
  | c :: l1 =>
      if Ascii.eqb (lower_char c) "e" then
        let '(neg, l2) :=
          match l1 with
          | "+"%char :: r => (false, r)
          | "-"%char :: r => (true, r)
          | _ => (false, l1)
          end in
        let ds := take_while isdigit l2 in
        match ds, drop_while isdigit l2 with
        | _ :: _, [] => Some (if neg then - digits_val 0 ds else digits_val 0 ds)
        | _, _ => None
        end
      else None
  end.

Definition parse_number (neg : bool) (l : list ascii) : option fval :=
  let ip := take_while isdigit l in
  let l1 := drop_while isdigit l in
  let '(fp, l2) :=
    match l1 with
    | "."%char :: r => (take_while isdigit r, drop_while isdigit r)
    | _ => ([], l1)
    end in
  match ip ++ fp with
  | [] => None
  | ds =>
      e ← parse_exponent l2;
      Some (FNum neg (digits_val 0 ds) (e - Z.of_nat (length fp)))
  end.

Definition parse_unsigned (neg : bool) (l : list ascii) : option fval :=
  let low := text (map lower_char l) in
  if String.eqb low "inf" || String.eqb low "infinity" then Some FInf
  else if String.eqb low "nan" then Some FNan
  else parse_number neg l.

Definition parse (s : string) : option fval :=
  l ← (let l := strip_by isspace_c (chars s) in
       if existsb (Ascii.eqb "_") l then strip_underscores None l else Some l);
  match l with
  | "+"%char :: r => parse_unsigned false r
  | "-"%char :: r => parse_unsigned true r
  | _ => parse_unsigned false l
  end.

(** Round the quotient [n / d] to the nearest integer, ties to even. *)
Definition div_rne (n d : Z) : Z :=
  let q := n / d in
  let r := n mod d in
  if 2 * r <? d then q
  else if d <? 2 * r then q + 1
  else if Z.even q then q else q + 1.

(** [int(x)] for the binary64 nearest to [n / d], where [0 < n] and [0 < d];
    [None] when that float is an infinity. *)
Definition trunc_b64 (n d : Z) : option Z :=
  let e0 := Z.log2 n - Z.log2 d in
  let e := if (if 0 <=? e0 then d * 2 ^ e0 <=? n else d <=? n * 2 ^ (- e0))
           then e0 else e0 - 1 in
  if e <? -1 then Some 0
  else
    let s := 52 - e in
    let m := if 0 <=? s then div_rne (n * 2 ^ s) d else div_rne n (d * 2 ^ (- s)) in
    if 0 <=? s then Some (m / 2 ^ s)
    else if 2 ^ 1024 <=? m * 2 ^ (- s) then None else Some (m * 2 ^ (- s)).

Definition int_of_fval (v : fval) : res Z :=
  match v with
  | FNan => Raise ValueError
  | FInf => Raise OverflowError
  | FNum neg m e10 =>
      if m =? 0 then Ok 0
      else
        let '(n, d) := if 0 <=? e10 then (m * 10 ^ e10, 1) else (m, 10 ^ (- e10)) in
        match trunc_b64 n d with
        | None => Raise OverflowError
        | Some z => Ok (if neg then - z else z)
        end
  end.

(** [int(float(s))] *)
Definition int_float (s : string) : res Z :=
  match parse s with
  | None => Raise ValueError
  | Some v => int_of_fval v
  end.

End Float.

(** ** Values of table cells *)

Inductive pyval :=
| PyStr (s : string)
| PyNaN
| PyInt (z : Z).

(** [str(v)] *)
Definition py_str (v : pyval) : string :=
  match v with
  | PyStr s => s
  | PyNaN => "nan"
  | PyInt z => Str.of_Z z
  end.

(** [pd.isna(v)] *)
Definition isna (v : pyval) : bool :=
  match v with PyNaN => true | _ => false end.

(** Truth value of [v], as in [if v:]. *)
Definition truthy (v : pyval) : bool :=
  match v with
  | PyStr s => Str.nonempty s
  | PyNaN => true
  | PyInt z => negb (z =? 0)
  end.

(** [v.lower()]: only strings have the method. *)
Definition py_lower (v : pyval) : res string :=
  match v with
  | PyStr s => Ok (Str.lower s)
  | _ => Raise AttributeError
  end.

(** [row.get(key, '')] for a column the row may lack. *)
Definition get (cell : option pyval) : pyval := default (PyStr "") cell.

(** ** The regular expressions of [_normalize_doi] and [_normalize_title] *)

Module Re.
Import Str.

(** The class [[/\.\-\w]]. *)
Definition is_doi_char (c : ascii) : bool :=
  isword c || Ascii.eqb c "/" || Ascii.eqb c "." || Ascii.eqb c "-".

(** [[/\.\-\w]+] behind the [n] characters that [\d{4,}] holds: the
    longest run of class characters, which must not be empty; failing
    that, [\d{4,}] gives one digit back, as long as it keeps four. *)
Fixpoint backtrack (n : nat) (rest : list ascii) : option (list ascii) :=
  match take_while is_doi_char (drop n rest) with
  | c :: tail => Some (take n rest ++ c :: tail)
  | [] =>
      match n with
      | S n' => if (4 <=? n')%nat then backtrack n' rest else None
      | O => None
      end
  end.

(** A match of [10\.\d{4,}[/\.\-\w]+] at the head of [l]: [\d{4,}] first
    takes all the digits there are (both quantifiers are greedy). *)
Definition match_doi (l : list ascii) : option (list ascii) :=
  match l with
  | "1"%char :: "0"%char :: "."%char :: rest =>
      let digits := take_while isdigit rest in
      if (4 <=? length digits)%nat
      then (λ m, "1"%char :: "0"%char :: "."%char :: m) <$> backtrack (length digits) rest
      else None
  | _ => None
  end.

(** A match of [prefix(10\.\d{4,}[/\.\-\w]+)] at the head of [l]: its group 1. *)
Fixpoint match_prefixed (prefix l : list ascii) : option (list ascii) :=
  match prefix with
  | [] => match_doi l
  | p :: prefix' =>
      match l with
      | c :: l' => if Ascii.eqb p c then match_prefixed prefix' l' else None
      | [] => None
      end
  end.

(** [re.search]: the leftmost position where the pattern matches. *)
Fixpoint search (m : list ascii → option (list ascii)) (l : list ascii)
  : option (list ascii) :=
  match m l with
  | Some g => Some g
  | None => match l with
            | [] => None
            | _ :: l' => search m l'
            end
  end.

(** [re.sub(r'[^\w\s]', ' ', s)] *)
Definition sub_punct (l : list ascii) : list ascii :=
  map (λ c, if isword c || isspace c then c else " "%char) l.

(** [re.sub(r'\s+', ' ', s)]: each run of whitespace becomes one space;
    [in_run] tells that the previous character was whitespace. *)
Fixpoint sub_spaces (in_run : bool) (l : list ascii) : list ascii :=
  match l with
  | [] => []
  | c :: l' =>
      if isspace c
      then if in_run then sub_spaces true l' else " "%char :: sub_spaces true l'
      else c :: sub_spaces false l'
  end.

End Re.

(** ** The normalisers of [AHRQDeduplicator] *)

(** [doi_str = str(doi).lower().strip()] *)
Definition doi_str (doi : pyval) : string := Str.strip (Str.lower (py_str doi)).

(** [_normalize_doi]: the three patterns are tried in order; the first has
    no group and yields the whole match, the other two yield group 1.  When
    none matches, [doi_str] itself is returned. *)
Definition _normalize_doi (doi : pyval) : string :=
  if isna doi then ""
  else
    let s := Str.chars (doi_str doi) in
    match Re.search Re.match_doi s with
    | Some g => Str.text g
    | None =>
        match Re.search (Re.match_prefixed (Str.chars "doi.org/")) s with
        | Some g => Str.text g
        | None =>
            match Re.search (Re.match_prefixed (Str.chars "dx.doi.org/")) s with
            | Some g => Str.text g
            | None => doi_str doi
            end
        end
    end.

Definition stop_words : list string :=
  ["the"; "a"; "an"; "and"; "or"; "but"; "in"; "on"; "at"; "to"; "for"; "of";
   "with"; "by"].

(** [_normalize_title] *)
Definition _normalize_title (title : pyval) : string :=
  if isna title then ""
  else
    let title := Str.lower (py_str title) in
    let title := Str.text (Re.sub_punct (Str.chars title)) in
    let title := Str.text (Re.sub_spaces false (Str.chars title)) in
    let words := Str.split title in
    let title := Str.join (filter (λ w, w ∉ stop_words) words) in
    Str.strip title.

(** [parts[-1] if parts else ''] *)
Definition last_or_empty (parts : list string) : string := List.last parts "".

(** [_extract_first_author].  [authors_str.split()[0]] raises [IndexError]
    when the string has no word. *)
Definition _extract_first_author (authors : pyval) : res string :=
  if isna authors then Ok ""
  else
    let authors_str := py_str authors in
    first_author ←
      (if Str.contains ";" authors_str then Ok (Str.before ";" authors_str)
       else if Str.contains "," authors_str && (1 <? Str.count "," authors_str)%nat
            then Ok (Str.before "," authors_str)
            else if Str.nonempty authors_str
                 then match Str.split authors_str with
                      | w :: _ => Ok w
                      | [] => Raise IndexError
                      end
                 else Ok "");
    if Str.nonempty first_author
    then Ok (last_or_empty (Str.split (Str.strip first_author)))
    else Ok "".

(** ** [difflib.SequenceMatcher(None, a, b)]

    Indices are naturals.  The stack [queue] of [get_matching_blocks] is a
    list whose head is the top ([append] conses, [pop] takes the head). *)

Module Difflib.
Section SequenceMatcher.
Context {A : Type} `{Countable A}.
Variables a b : list A.

Open Scope nat_scope.

(** [__chain_b], first loop: [b2j[elt]] lists the positions of [elt] in [b]. *)
Fixpoint chain (i : nat) (l : list A) (b2j : gmap A (list nat)) : gmap A (list nat) :=
  match l with
  | [] => b2j
  | elt :: l' => chain (S i) l' (<[elt := default [] (b2j !! elt) ++ [i]]> b2j)
  end.

(** [isjunk] is [None]: no element is junk. *)
Definition bjunk : gset A := ∅.

Definition isbjunk (x : A) : bool := bool_decide (x ∈ bjunk).

(** [__chain_b], last loop ([autojunk]): in a sequence of 200 elements or
    more, the elements with more than [n // 100 + 1] positions are purged. *)
Definition b2j : gmap A (list nat) :=
  let all := chain 0 b ∅ in
  let n := length b in
  if 200 <=? n
  then filter (λ kv, ¬ (n / 100 + 1 < length kv.2)) all
  else all.

Record best := Best { besti : nat; bestj : nat; bestsize : nat }.

Section find_longest_match.
Variables alo ahi blo bhi : nat.

(** The inner loop over the positions [js] of [a[i]] in [b]:
    [j2len.get(j-1, 0)] is [0] at [j = 0], the dictionary holding no
    negative key; [i-k+1] is written [i+1-k]. *)
Fixpoint scan_row (i : nat) (j2len : gmap nat nat) (js : list nat)
    (st : best * gmap nat nat) : best * gmap nat nat :=
  match js with
  | [] => st
  | j :: js' =>
      if j <? blo then scan_row i j2len js' st
      else if bhi <=? j then st
      else
        let k := match j with O => 0 | S j' => default 0 (j2len !! j') end + 1 in
        let newj2len := <[j := k]> st.2 in
        let bst := if bestsize st.1 <? k then Best (i + 1 - k) (j + 1 - k) k else st.1 in
        scan_row i j2len js' (bst, newj2len)
  end.

(** One turn of [for i in range(alo, ahi)]. *)
Definition row_step (i : nat) (st : best * gmap nat nat) : best * gmap nat nat :=
  let js := match a !! i with
            | Some x => default [] (b2j !! x)
            | None => []
            end in
  scan_row i st.2 js (st.1, ∅).

Fixpoint rows (n i : nat) (st : best * gmap nat nat) : best * gmap nat nat :=
  match n with
  | O => st
  | S n' => rows n' (S i) (row_step i st)
  end.

(** [a[i] == b[j]], both in range. *)
Definition same_at (i j : nat) : bool :=
  match a !! i, b !! j with
  | Some x, Some y => bool_decide (x = y)
  | _, _ => false
  end.

Definition junk_at (j : nat) : bool :=
  match b !! j with Some y => isbjunk y | None => false end.

(** The loops that extend the block to the left; [junk] selects the third
    loop (junk elements) instead of the first. *)
Fixpoint extend_left (junk : bool) (i : nat) (bst : best) : best :=
  match i with
  | O => bst
  | S i' =>
      if (alo <? besti bst) && (blo <? bestj bst)
         && eqb (junk_at (bestj bst - 1)) junk
         && same_at (besti bst - 1) (bestj bst - 1)
      then extend_left junk i' (Best (besti bst - 1) (bestj bst - 1) (bestsize bst + 1))
      else bst
  end.

(** The loops that extend the block to the right, at most [n] times. *)
Fixpoint extend_right (junk : bool) (n : nat) (bst : best) : best :=
  match n with
  | O => bst
  | S n' =>
      if (besti bst + bestsize bst <? ahi) && (bestj bst + bestsize bst <? bhi)
         && eqb (junk_at (bestj bst + bestsize bst)) junk
         && same_at (besti bst + bestsize bst) (bestj bst + bestsize bst)
      then extend_right junk n' (Best (besti bst) (bestj bst) (bestsize bst + 1))
      else bst
  end.

Definition find_longest_match : best :=
  let bst := (rows (ahi - alo) alo (Best alo blo 0, ∅)).1 in
  let bst := extend_left false (besti bst) bst in
  let bst := extend_right false (ahi - (besti bst + bestsize bst)) bst in
  let bst := extend_left true (besti bst) bst in
  let bst := extend_right true (ahi - (besti bst + bestsize bst)) bst in
  bst.

End find_longest_match.

Definition range : Type := nat * nat * nat * nat.
Definition block : Type := nat * nat * nat.

(** The [while queue:] loop of [get_matching_blocks], run for at most
    [fuel] turns; it returns the stack that is left and the blocks found. *)
Fixpoint blocks_loop (fuel : nat) (queue : list range) (matching_blocks : list block)
  : list range * list block :=
  match fuel, queue with
  | O, _ => (queue, matching_blocks)
  | _, [] => ([], matching_blocks)
  | S fuel', (alo, ahi, blo, bhi) :: queue =>
      let x := find_longest_match alo ahi blo bhi in
      let '(i, j, k) := (besti x, bestj x, bestsize x) in
      if k =? 0 then blocks_loop fuel' queue matching_blocks
      else
        let queue := if (alo <? i) && (blo <? j) then (alo, i, blo, j) :: queue else queue in
        let queue := if (i + k <? ahi) && (j + k <? bhi)
                     then (i + k, ahi, j + k, bhi) :: queue else queue in
        blocks_loop fuel' queue (matching_blocks ++ [(i, j, k)])
  end.

(** Lexicographic order on triples, the order of [matching_blocks.sort()]. *)
Definition block_leb (x y : block) : bool :=
  let '(i1, j1, k1) := x in
  let '(i2, j2, k2) := y in
  (i1 <? i2) || ((i1 =? i2) && ((j1 <? j2) || ((j1 =? j2) && (k1 <=? k2)))).

Fixpoint insert_block (x : block) (l : list block) : list block :=
  match l with
  | [] => [x]
  | y :: l' => if block_leb x y then x :: l else y :: insert_block x l'
  end.

Definition sort_blocks (l : list block) : list block :=
  foldr insert_block [] l.

(** The loop that merges adjacent blocks; the state is [(i1, j1, k1)] and
    [non_adjacent]. *)
Fixpoint collapse (l : list block) (cur : block) (non_adjacent : list block)
  : block * list block :=
  match l with
  | [] => (cur, non_adjacent)
  | (i2, j2, k2) :: l' =>
      let '(i1, j1, k1) := cur in
      if (i1 + k1 =? i2) && (j1 + k1 =? j2)
      then collapse l' (i1, j1, k1 + k2) non_adjacent
      else collapse l' (i2, j2, k2)
             (if k1 =? 0 then non_adjacent else non_adjacent ++ [(i1, j1, k1)])
  end.

(** The number of turns allowed to the loop; [blocks_loop_done] shows that
    the stack is empty by then. *)
Definition turns : nat := 2 * length a + 2.

Definition get_matching_blocks : list block :=
  let la := length a in
  let lb := length b in
  let matching_blocks := (blocks_loop turns [(0, la, 0, lb)] []).2 in
  let matching_blocks := sort_blocks matching_blocks in
  let '((i1, j1, k1), non_adjacent) := collapse matching_blocks (0, 0, 0) [] in
  let non_adjacent := if k1 =? 0 then non_adjacent else non_adjacent ++ [(i1, j1, k1)] in
  non_adjacent ++ [(la, lb, 0)].

(** [sum(triple[-1] for triple in self.get_matching_blocks())] *)
Definition matches : nat := sum_list_with (λ t : block, t.2) get_matching_blocks.

(** [_calculate_ratio(matches, length)] *)
Definition _calculate_ratio (matches length : nat) : Q :=
  if length =? 0 then 1%Q
  else (2 * Z.of_nat matches # Pos.of_nat length)%Q.

Definition ratio : Q := _calculate_ratio matches (length a + length b).

(** *** Notions used to state the properties of the matcher *)

(** The block [x] lies in [a[alo:ahi]] and [b[blo:bhi]]. *)
Definition within (alo ahi blo bhi : nat) (x : best) : Prop :=
  alo ≤ besti x ∧ besti x + bestsize x ≤ ahi
  ∧ blo ≤ bestj x ∧ bestj x + bestsize x ≤ bhi.

(** The lengths held in a dictionary [j2len] are bounded by the distance
    of the row [i] to [alo] and of their column to [blo]. *)
Definition lengths_within (alo blo i : nat) (m : gmap nat nat) : Prop :=
  ∀ j k, m !! j = Some k → k ≤ i - alo ∧ k ≤ j + 1 - blo ∧ blo ≤ j.

(** The positions of [x] in [l], counted from [i]. *)
Fixpoint indices (x : A) (i : nat) (l : list A) : list nat :=
  match l with
  | [] => []
  | y :: l' => if decide (x = y) then i :: indices x (S i) l' else indices x (S i) l'
  end.

(** [x] is a key of [b2j]. *)
Definition is_key (x : A) : bool := bool_decide (is_Some (b2j !! x)).

(** The length of the run of keys of [b2j] that ends at [a[j]]. *)
Fixpoint run (j : nat) : nat :=
  match a !! j with
  | Some x =>
      if is_key x then S (match j with O => 0 | S j' => run j' end) else 0
  | None => 0
  end.

(** When a sequence is matched with itself, the state of the loop over the
    rows, before row [i]: the best block lies on the diagonal and is as long
    as every run of keys met so far, and the dictionary holds, for row
    [i - 1], lengths bounded by the runs, with the run itself on the
    diagonal. *)
Definition diag_inv (i : nat) (st : best * gmap nat nat) : Prop :=
  besti st.1 = bestj st.1
  ∧ (∀ j, j < i → run j ≤ bestsize st.1)
  ∧ (∀ j k, st.2 !! j = Some k → 0 < i ∧ k ≤ run j ∧ k ≤ run (i - 1))
  ∧ (0 < i → default 0 (st.2 !! (i - 1)) = run (i - 1)).

(** The room that the ranges of a stack take in [a] and in [b], and the
    number of turns they can still cause. *)
Definition room_a (queue : list range) : nat :=
  sum_list_with (λ r : range, r.1.1.2 - r.1.1.1) queue.
Definition room_b (queue : list range) : nat :=
  sum_list_with (λ r : range, r.2 - r.1.2) queue.
Definition work (queue : list range) : nat :=
  sum_list_with (λ r : range, 2 * (r.1.1.2 - r.1.1.1) + 1) queue.
Definition sizes (l : list block) : nat := sum_list_with (λ t : block, t.2) l.
Definition valid (r : range) : Prop := r.1.1.1 ≤ r.1.1.2 ∧ r.1.2 ≤ r.2.

End SequenceMatcher.
End Difflib.

(** [extract_first_author_surname] in the words of the specification: split
    on [;] if present, else on [,] when there is more than one comma, else
    on whitespace; take the first segment; return its last
    whitespace-delimited token; missing input yields the empty string. *)
Definition extract_first_author_surname (raw : pyval) : string :=
  if isna raw then ""
  else
    let s := py_str raw in
    let first_segment :=
      if Str.contains ";" s then Str.before ";" s
      else if (1 <? Str.count "," s)%nat then Str.before "," s
      else default "" (head (Str.split s)) in
    last_or_empty (Str.split first_segment).

(** ** [_calculate_title_similarity] *)

Open Scope Q_scope.

(** [set(title.split())] *)
Definition word_set (title : string) : gset string := list_to_set (Str.split title).

(** [get_ngrams(text, n)]: the set of the slices [text[i:i+n]] for
    [i in range(len(text)-n+1)], an empty range when the text is shorter
    than [n]. *)
Definition get_ngrams (text : string) (n : nat) : gset string :=
  let l := Str.chars text in
  list_to_set ((λ i, Str.text (take n (drop i l))) <$> seq 0 (length l + 1 - n)).

(** The overlap of two sets as the function computes it, once for the
    words and once for the n-grams: [0] when either set is empty, else
    [intersection / union if union > 0 else 0]. *)
Definition overlap (s1 s2 : gset string) : Q :=
  if bool_decide (s1 = ∅) || bool_decide (s2 = ∅) then 0
  else
    let intersection := size (s1 ∩ s2) in
    let union := size (s1 ∪ s2) in
    if (0 <? union)%nat then Z.of_nat intersection # Pos.of_nat union else 0.

Definition _calculate_title_similarity (title1 title2 : string) : Q :=
  let seq_ratio := Difflib.ratio (Str.chars title1) (Str.chars title2) in
  let word_overlap := overlap (word_set title1) (word_set title2) in
  let ngram_sim := overlap (get_ngrams title1 3) (get_ngrams title2 3) in
  let similarity := seq_ratio * 0.4 + word_overlap * 0.3 + ngram_sim * 0.3 in
  similarity * 100.

(** ** The reference table, the candidates and the results *)

(** A row of the reference CSV.  [DOI_URL], [Title] and
    [Authors_Standardized] are indexed directly by the constructor, so the
    table has them; the other two columns are read with [get]. *)
Record reference := {
  Title : pyval;
  DOI_URL : pyval;
  Authors_Standardized : pyval;
  Publication_Year : option pyval;
  Journal_Venue : option pyval;
}.

(** A row of [reference_df] after [_prepare_reference_data]. *)
Record ref_row := {
  source : reference;
  doi_normalized : string;
  title_normalized : string;
  first_author : string;
}.

(** A row of the table of search results. *)
Record candidate := {
  eid : option pyval;
  doi : option pyval;
  title : option pyval;
  authors : option pyval;
  year : option pyval;
  journal : option pyval;
}.

(** [config['deduplication']['match_thresholds']] *)
Record thresholds := {
  thr_doi : Q;
  thr_title_fuzzy : Q;
  thr_author_year : Q;
}.

(** The text of [match_details], by the f-string that builds it. *)
Inductive details :=
| NoDetails
| DoiMatch (doi_norm : string)
| ExactTitleYear
| TitleSimilarity (best_score : Q)
| AuthorYear (search_first_author year : string).

Record match_info := {
  search_idx : nat;
  search_eid : pyval;
  search_doi : pyval;
  search_title : pyval;
  search_authors : pyval;
  search_year : pyval;
  match_status : string;
  match_confidence : Q;
  match_type : string;
  reference_idx : option nat;
  reference_title : pyval;
  reference_doi : pyval;
  match_details : details;
}.

Record deduplicator := {
  reference_df : list ref_row;
  match_thresholds : thresholds;
  doi_lookup : gmap string nat;
  title_year_lookup : gmap (string * string) (list nat);
}.

(** ** [__init__] and [_prepare_reference_data] *)

Definition prepare_row (r : reference) : res ref_row :=
  fa ← _extract_first_author (Authors_Standardized r);
  Ok {| source := r;
        doi_normalized := _normalize_doi (DOI_URL r);
        title_normalized := _normalize_title (Title r);
        first_author := fa |}.

Fixpoint prepare_rows (rs : list reference) : res (list ref_row) :=
  match rs with
  | [] => Ok []
  | r :: rs' =>
      row ← prepare_row r;
      rows ← prepare_rows rs';
      Ok (row :: rows)
  end.

(** [str(row.get('Publication_Year', ''))] *)
Definition ref_year_of (r : ref_row) : string :=
  py_str (get (Publication_Year (source r))).

(** [dict(zip(doi_normalized, index))]: a later row replaces an earlier one
    with the same key. *)
Fixpoint build_doi_lookup (idx : nat) (rows : list ref_row) (m : gmap string nat)
  : gmap string nat :=
  match rows with
  | [] => m
  | r :: rows' => build_doi_lookup (S idx) rows' (<[doi_normalized r := idx]> m)
  end.

(** The loop that fills [title_year_lookup]. *)
Fixpoint build_title_year_lookup (idx : nat) (rows : list ref_row)
    (m : gmap (string * string) (list nat)) : gmap (string * string) (list nat) :=
  match rows with
  | [] => m
  | r :: rows' =>
      let key := (title_normalized r, ref_year_of r) in
      build_title_year_lookup (S idx) rows' (<[key := default [] (m !! key) ++ [idx]]> m)
  end.

Definition __init__ (reference_csv : list reference) (cfg : thresholds)
  : res deduplicator :=
  rows ← prepare_rows reference_csv;
  Ok {| reference_df := rows;
        match_thresholds := cfg;
        doi_lookup := build_doi_lookup 0 rows ∅;
        title_year_lookup := build_title_year_lookup 0 rows ∅ |}.

(** ** [find_matches] *)

Section find_matches.
Variable self : deduplicator.

(** [self.reference_df.loc[ref_idx]]: a label that the index lacks, [None]
    among them, is a [KeyError]. *)
Definition loc (ref_idx : option nat) : res (nat * ref_row) :=
  match ref_idx with
  | Some i => match reference_df self !! i with
              | Some r => Ok (i, r)
              | None => Raise KeyError
              end
  | None => Raise KeyError
  end.

(** The row of [match_info] as the loop creates it. *)
Definition new_match_info (idx : nat) (row : candidate) : match_info :=
  {| search_idx := idx;
     search_eid := get (eid row);
     search_doi := get (doi row);
     search_title := get (title row);
     search_authors := get (authors row);
     search_year := get (year row);
     match_status := "no_match";
     match_confidence := 0;
     match_type := "";
     reference_idx := None;
     reference_title := PyStr "";
     reference_doi := PyStr "";
     match_details := NoDetails |}.

(** [match_info.update({...})] with the seven keys every tier sets. *)
Definition update (mi : match_info) (status : string) (confidence : Q)
    (type : string) (ref_idx : nat) (r : ref_row) (d : details) : match_info :=
  {| search_idx := search_idx mi;
     search_eid := search_eid mi;
     search_doi := search_doi mi;
     search_title := search_title mi;
     search_authors := search_authors mi;
     search_year := search_year mi;
     match_status := status;
     match_confidence := confidence;
     match_type := type;
     reference_idx := Some ref_idx;
     reference_title := Title (source r);
     reference_doi := DOI_URL (source r);
     match_details := d |}.

(** The DOI tier; [Some] is a row to append before [continue]. *)
Definition doi_tier (row : candidate) (mi : match_info) : res (option match_info) :=
  match doi row with
  | Some d =>
      if truthy d then
        let doi_norm := _normalize_doi d in
        if Str.nonempty doi_norm then
          match doi_lookup self !! doi_norm with
          | Some ref_idx =>
              r ← loc (Some ref_idx);
              Ok (Some (update mi "definite_match" (thr_doi (match_thresholds self))
                          "doi" r.1 r.2 (DoiMatch doi_norm)))
          | None => Ok None
          end
        else Ok None
      else Ok None
  | None => Ok None
  end.

(** The test that opens the fuzzy loop: [true] for [continue].
    [except ValueError] also continues; any other exception escapes. *)
Definition year_filter (year ref_year : string) : res bool :=
  if Str.nonempty year && Str.nonempty ref_year then
    match Float.int_float year with
    | Raise ValueError => Ok true
    | Raise e => Raise e
    | Ok y =>
        match Float.int_float ref_year with
        | Raise ValueError => Ok true
        | Raise e => Raise e
        | Ok r => Ok (1 <? Z.abs (y - r))%Z
        end
    end
  else Ok false.

(** The fuzzy loop over [reference_df.iterrows()], with state
    [(best_match, best_score)]. *)
Fixpoint fuzzy_scan (title_norm year : string) (ref_idx : nat) (rows : list ref_row)
    (best : option nat * Q) : res (option nat * Q) :=
  match rows with
  | [] => Ok best
  | ref_row :: rows' =>
      skip ← year_filter year (ref_year_of ref_row);
      if skip : bool then fuzzy_scan title_norm year (S ref_idx) rows' best
      else
        let similarity := _calculate_title_similarity title_norm (title_normalized ref_row) in
        fuzzy_scan title_norm year (S ref_idx) rows'
          (if Qle_bool similarity best.2 then best else (Some ref_idx, similarity))
  end.

(** The title + year tier and the fuzzy title tier. *)
Definition title_tiers (title_norm year : string) (mi : match_info)
  : res (option match_info) :=
  if Str.nonempty title_norm then
    exact ←
      match title_year_lookup self !! (title_norm, year) with
      | Some (ref_idx :: _) =>
          r ← loc (Some ref_idx);
          Ok (Some (update mi "very_likely_match" 90 "title_year_exact" r.1 r.2
                      ExactTitleYear))
      | _ => Ok None
      end;
    match exact with
    | Some mi' => Ok (Some mi')
    | None =>
        best ← fuzzy_scan title_norm year 0 (reference_df self) (None, 0);
        let '(best_match, best_score) := best in
        if Qle_bool (thr_title_fuzzy (match_thresholds self)) best_score then
          ref_row ← loc best_match;
          let status :=
            if Qle_bool 90 best_score then "very_likely_match"
            else if Qle_bool 80 best_score then "probable_match"
            else "possible_match" in
          Ok (Some (update mi status best_score "title_fuzzy" ref_row.1 ref_row.2
                      (TitleSimilarity best_score)))
        else Ok None
    end
  else Ok None.

(** The author + year loop; on a hit the row is updated, appended to
    [results], and the loop breaks. *)
Fixpoint author_year_scan (row : candidate) (search_first_author year : string)
    (ref_idx : nat) (rows : list ref_row) (mi : match_info) (results : list match_info)
  : res (match_info * list match_info) :=
  match rows with
  | [] => Ok (mi, results)
  | ref_row :: rows' =>
      if String.eqb (Str.lower search_first_author) (Str.lower (first_author ref_row))
         && String.eqb year (ref_year_of ref_row)
      then
        j1 ← py_lower (get (journal row));
        j2 ← py_lower (get (Journal_Venue (source ref_row)));
        let confidence :=
          if String.eqb j1 j2
          then thr_author_year (match_thresholds self) + 10
          else thr_author_year (match_thresholds self) in
        let mi := update mi "possible_match" confidence "author_year" ref_idx ref_row
                    (AuthorYear search_first_author year) in
        Ok (mi, results ++ [mi])
      else author_year_scan row search_first_author year (S ref_idx) rows' mi results
  end.

(** The body of [for idx, row in search_results_df.iterrows()]. *)
Definition match_row (results : list match_info) (idx : nat) (row : candidate)
  : res (list match_info) :=
  let mi := new_match_info idx row in
  hit ← doi_tier row mi;
  match hit with
  | Some mi => Ok (results ++ [mi])
  | None =>
      let title_norm := _normalize_title (get (title row)) in
      let year := py_str (get (year row)) in
      hit ← title_tiers title_norm year mi;
      match hit with
      | Some mi => Ok (results ++ [mi])
      | None =>
          search_first_author ← _extract_first_author (get (authors row));
          st ← (if Str.nonempty search_first_author && Str.nonempty year
                then author_year_scan row search_first_author year 0
                       (reference_df self) mi results
                else Ok (mi, results));
          let '(mi, results) := st in
          if String.eqb (match_status mi) "no_match"
          then Ok (results ++ [mi])
          else Ok results
      end
  end.

(** [find_matches]: the table of candidates is the list of its rows with
    their index labels. *)
Definition find_matches (search_results_df : list (nat * candidate))
  : res (list match_info) :=
  foldl (λ acc ir, results ← acc; match_row results ir.1 ir.2) (Ok [])
    search_results_df.

End find_matches.

(** [decides self ir mi]: the turn of the loop for the labelled candidate
    [ir] completes and appends the row [mi]. *)
Definition decides (self : deduplicator) (ir : nat * candidate) (mi : match_info) : Prop :=
  match_row self [] ir.1 ir.2 = Ok [mi].

(** ** [generate_deduplication_report], up to the dump of [summary]

    The CSV files and the JSON summary are the values written; the time
    stamp in their names and the text report written after them are left
    out. *)

(** A row of [merged_df]: a row of the search results with its label, and
    the row of the match results joined to it, if any. *)
Definition merged_row : Type := nat * candidate * option match_info.

(** [pd.merge(search_results_df, match_results_df, left_index=True,
    right_on='search_idx', how='left')]: every left row, in order, with
    each right row whose [search_idx] is its label, or alone when there is
    none. *)
Definition merge (search_results_df : list (nat * candidate))
    (match_results_df : list match_info) : list merged_row :=
  concat
    (map (λ ir : nat * candidate,
            match filter (λ mi, search_idx mi = ir.1) match_results_df with
            | [] => [(ir, None)]
            | ms => map (λ mi, (ir, Some mi)) ms
            end)
         search_results_df).

(** [merged_df[merged_df['match_status'] == status]] *)
Definition with_status (status : string) (merged_df : list merged_row) : list merged_row :=
  filter (λ r : merged_row, match_status <$> r.2 = Some status) merged_df.

(** [match_results_df['match_type'].value_counts().to_dict()] *)
Definition value_counts (match_results_df : list match_info) : gmap string nat :=
  foldr (λ mi m, <[match_type mi := S (default O (m !! match_type mi))]> m) ∅
    match_results_df.

Record summary := {
  total_search_results : nat;
  reference_articles : nat;
  new_unique_articles : nat;
  definite_matches : nat;
  very_likely_matches : nat;
  probable_matches : nat;
  possible_matches : nat;
  match_type_distribution : gmap string nat;
}.

(** What the function has written when [summary] is dumped: each CSV file
    is written only when it has a row. *)
Record report := {
  new_unique_csv : option (list merged_row);
  manual_review_csv : option (list merged_row);
  confirmed_duplicates_csv : option (list merged_row);
  summary_json : summary;
}.

(** [to_csv] under [if len(df) > 0]. *)
Definition written (df : list merged_row) : option (list merged_row) :=
  match df with [] => None | _ => Some df end.

(** A table of match results without a row has no column, and the merge on
    [search_idx] raises [KeyError]. *)
Definition generate_deduplication_report (self : deduplicator)
    (search_results_df : list (nat * candidate)) (match_results_df : list match_info)
  : res report :=
  match match_results_df with
  | [] => Raise KeyError
  | _ =>
      let merged_df := merge search_results_df match_results_df in
      let new_unique := with_status "no_match" merged_df in
      let definite_matches := with_status "definite_match" merged_df in
      let very_likely_matches := with_status "very_likely_match" merged_df in
      let probable_matches := with_status "probable_match" merged_df in
      let possible_matches := with_status "possible_match" merged_df in
      let review_needed := probable_matches ++ possible_matches in
      let confirmed_dupes := definite_matches ++ very_likely_matches in
      Ok {| new_unique_csv := written new_unique;
            manual_review_csv := written review_needed;
            confirmed_duplicates_csv := written confirmed_dupes;
            summary_json :=
              {| total_search_results := length search_results_df;
                 reference_articles := length (reference_df self);
                 new_unique_articles := length new_unique;
                 definite_matches := length definite_matches;
                 very_likely_matches := length very_likely_matches;
                 probable_matches := length probable_matches;
                 possible_matches := length possible_matches;
                 match_type_distribution := value_counts match_results_df |} |}
  end.


(** ** Notions used to state further properties *)

(** A word: not empty, without whitespace. *)
Definition is_token (w : string) : Prop :=
  Str.chars w ≠ [] ∧ Forall (λ c, Str.isspace c = false) (Str.chars w).

(** The words that [_normalize_title] joins. *)
Definition title_words (title : pyval) : list string :=
  let title := Str.lower (py_str title) in
  let title := Str.text (Re.sub_punct (Str.chars title)) in
  let title := Str.text (Re.sub_spaces false (Str.chars title)) in
  filter (λ w, w ∉ stop_words) (Str.split title).


(** A cell whose text is not empty and holds only whitespace. *)
Definition blank (v : pyval) : Prop :=
  py_str v ≠ "" ∧ Forall (λ c, Str.isspace c = true) (Str.chars (py_str v)).

(** The key of a reference row in [title_year_lookup]. *)
Definition title_year_key (r : ref_row) : string * string :=
  (title_normalized r, ref_year_of r).

(** A cell that holds text, or is absent from the row. *)
Definition textual (cell : option pyval) : Prop := ∃ s, get cell = PyStr s.

(** A year that [int(float(...))] reads, or rejects with [ValueError]:
    not an infinity, nor a number beyond the range of [float]. *)
Definition year_reads (cell : option pyval) : Prop :=
  Float.int_float (py_str (get cell)) ≠ Raise OverflowError.


(** ** Sample data: the reference entry and the candidates of the examples *)

Module Sample.

Definition cfg : thresholds :=
  {| thr_doi := 100; thr_title_fuzzy := 70; thr_author_year := 60 |}.

Definition furukawa : reference :=
  {| Title := PyStr "Consolidation and Mergers among Health Systems in 2021";
     DOI_URL := PyStr "https://doi.org/10.1377/x";
     Authors_Standardized := PyStr "Furukawa M.";
     Publication_Year := Some (PyInt 2021);
     Journal_Venue := Some (PyStr "Health Affairs") |}.

(** A reference entry whose DOI cell is missing. *)
Definition no_doi : reference :=
  {| Title := PyStr "Hospital Networks";
     DOI_URL := PyNaN;
     Authors_Standardized := PyStr "Smith J.";
     Publication_Year := Some (PyInt 2019);
     Journal_Venue := Some (PyStr "Medical Care") |}.

(** A candidate of a table that has all six columns. *)
Definition row_of (d t a y j : pyval) : candidate :=
  {| eid := Some (PyStr "2-s2.0-85100000000"); doi := Some d; title := Some t;
     authors := Some a; year := Some y; journal := Some j |}.

(** Same DOI as [furukawa] under another spelling, unrelated title. *)
Definition by_doi : candidate :=
  row_of (PyStr "DOI: 10.1377/X") (PyStr "Diabetes care in rural clinics")
    (PyStr "Doe, A.") (PyStr "1999") (PyStr "Diabetes Care").

(** A DOI cell that holds one blank. *)
Definition blank_doi : candidate :=
  row_of (PyStr " ") (PyStr "Diabetes care in rural clinics")
    (PyStr "Doe, A.") (PyStr "1999") (PyStr "Diabetes Care").

(** The title of [furukawa], four years apart. *)
Definition four_years_apart : candidate :=
  row_of (PyStr "") (PyStr "Consolidation and Mergers among Health Systems in 2021")
    (PyStr "Doe, A.") (PyStr "2017") (PyStr "Health Affairs").

(** A near title, in a table that has no [year] column. *)
Definition no_year : candidate :=
  {| eid := None; doi := None;
     title := Some (PyStr "Consolidation and Mergers among the Health System in 2021");
     authors := Some (PyStr "Furukawa M."); year := None; journal := None |}.

(** Same first author and year as [furukawa]; the DOI, title and journal
    cells are missing. *)
Definition missing_journal : candidate :=
  row_of PyNaN PyNaN (PyStr "Furukawa M.") (PyInt 2021) PyNaN.

(** An author cell that holds one blank. *)
Definition blank_authors : candidate :=
  row_of PyNaN (PyStr "Hospital mergers") (PyStr " ") (PyStr "2021") (PyStr "JAMA").

(** A year that [float] reads as an infinity. *)
Definition infinite_year : candidate :=
  row_of PyNaN (PyStr "Hospital mergers") (PyStr "Doe, A.") (PyStr "inf") (PyStr "JAMA").

Definition unrelated : candidate :=
  row_of (PyStr "") (PyStr "A totally unrelated paper about diabetes")
    (PyStr "Smith, J.") (PyStr "2021") (PyStr "Diabetes Care").

(** The matcher over a corpus, with the thresholds [cfg]. *)
Definition matcher_of (refs : list reference) : deduplicator :=
  match __init__ refs cfg with
  | Ok self => self
  | Raise _ => Build_deduplicator [] cfg ∅ ∅
  end.

(** The matcher over the one-entry corpus of the examples. *)
Definition matcher : deduplicator := matcher_of [furukawa].

End Sample.
(** ** Sample data: a corpus of four entries

    Two entries share a DOI and two share a normalised title and a year. *)

Module Corpus.

Definition erratum : reference :=
  {| Title := PyStr "Erratum: Consolidation and Mergers among Health Systems in 2021";
     DOI_URL := PyStr "10.1377/X";
     Authors_Standardized := PyStr "Furukawa M.; Machta R.";
     Publication_Year := Some (PyInt 2022);
     Journal_Venue := Some (PyStr "Health Affairs") |}.

Definition reprint : reference :=
  {| Title := PyStr "The Hospital Networks.";
     DOI_URL := PyStr "10.1097/mlr.0001";
     Authors_Standardized := PyStr "Smith J.";
     Publication_Year := Some (PyInt 2019);
     Journal_Venue := Some (PyStr "Medical Care") |}.

Definition refs : list reference :=
  [Sample.furukawa; Sample.no_doi; erratum; reprint].

Definition matcher : deduplicator := Sample.matcher_of refs.

(** The title and year of [Sample.no_doi] and of [reprint]. *)
Definition networks : candidate :=
  Sample.row_of (PyStr "") (PyStr "Hospital networks") (PyStr "Jones, B.")
    (PyInt 2019) (PyStr "Medical Care").

(** A title close to that of [Sample.furukawa], one year apart. *)
Definition near_title : candidate :=
  Sample.row_of (PyStr "") (PyStr "Consolidation and Mergers among the Health System in 2021")
    (PyStr "Doe, A.") (PyInt 2022) (PyStr "JAMA").

(** The first author, year and journal of [Sample.furukawa]. *)
Definition same_author : candidate :=
  Sample.row_of (PyStr "") (PyStr "Rural diabetes clinics") (PyStr "Furukawa M.")
    (PyInt 2021) (PyStr "health affairs").

(** The title of [Sample.furukawa] under a year cell that is missing. *)
Definition nan_year : candidate :=
  Sample.row_of (PyStr "") (PyStr "Consolidation and Mergers among Health Systems in 2021")
    (PyStr "Doe, A.") PyNaN (PyStr "JAMA").

(** The title of [Sample.furukawa], one year later. *)
Definition next_year : candidate :=
  Sample.row_of (PyStr "") (PyStr "Consolidation and mergers among health systems in 2021.")
    (PyStr "Doe, A.") (PyInt 2022) (PyStr "JAMA").

(** A row of a table that has none of the columns. *)
Definition bare : candidate :=
  {| eid := None; doi := None; title := None; authors := None; year := None;
     journal := None |}.

Definition search_csv : list candidate :=
  [Sample.by_doi; networks; near_title; same_author; bare; Sample.unrelated].

(** The table that [read_csv] makes of [search_csv]. *)
Definition search_df : list (nat * candidate) := imap (λ i row, (i, row)) search_csv.

End Corpus.


(** * Properties *)

Ltac unbind := unfold mbind, res_bind, bind in *.

(** ** The loop of [find_matches] *)

Section matcher_facts.
Variable self : deduplicator.

Lemma loc_Some i r :
  loc self (Some i) = Ok r → r.1 = i ∧ reference_df self !! i = Some r.2.
Proof. unfold loc. destruct (reference_df self !! i); [|done]. by intros [= <-]. Qed.

Lemma doi_tier_Some row mi mi' :
  doi_tier self row mi = Ok (Some mi') →
  search_idx mi' = search_idx mi ∧ match_type mi' = "doi"
  ∧ match_status mi' = "definite_match".
Proof.
  unfold doi_tier. intros Hd.
  destruct (doi row) as [d|]; [|discriminate].
  destruct (truthy d); [|discriminate].
  destruct (Str.nonempty _); [|discriminate].
  destruct (doi_lookup self !! _) as [i|]; [|discriminate].
  unbind. destruct (loc self (Some i)); [|discriminate].
  injection Hd as <-. done.
Qed.

Lemma title_tiers_Some t y mi mi' :
  title_tiers self t y mi = Ok (Some mi') →
  search_idx mi' = search_idx mi
  ∧ (match_type mi' = "title_year_exact" ∨ match_type mi' = "title_fuzzy")
  ∧ match_status mi' ≠ "no_match".
Proof.
  unfold title_tiers. intros Ht.
  destruct (Str.nonempty t); [|discriminate].
  destruct (title_year_lookup self !! (t, y)) as [[|i ?]|]; unbind.
  2:{ destruct (loc self (Some i)); [|discriminate].
      injection Ht as <-. simpl. split_and!; [done|by left|done]. }
  all: destruct (fuzzy_scan _ _ _ _ _) as [[bm bs]|]; [|discriminate];
    destruct (Qle_bool _ bs); [|discriminate];
    destruct (loc self bm); [|discriminate];
    injection Ht as <-; simpl; split_and!; [done|by right|];
    by repeat destruct (Qle_bool _ bs).
Qed.

(** The author + year loop reads [results] only to append to it. *)
Lemma author_year_scan_results row a y rows : ∀ i mi results,
  author_year_scan self row a y i rows mi results =
  match author_year_scan self row a y i rows mi [] with
  | Ok (mi', rs) => Ok (mi', results ++ rs)
  | Raise e => Raise e
  end.
Proof.
  induction rows as [|r rows IH]; intros i mi results; simpl.
  - by rewrite app_nil_r.
  - destruct (_ && _); [|apply IH].
    unbind. destruct (py_lower _); [|done]. by destruct (py_lower _).
Qed.

Lemma author_year_scan_inv row a y rows : ∀ i mi mi' rs,
  author_year_scan self row a y i rows mi [] = Ok (mi', rs) →
  (mi' = mi ∧ rs = [])
  ∨ (rs = [mi'] ∧ search_idx mi' = search_idx mi
     ∧ match_type mi' = "author_year" ∧ match_status mi' = "possible_match").
Proof.
  induction rows as [|r rows IH]; intros i mi mi' rs; simpl.
  - intros [= <- <-]. by left.
  - destruct (_ && _); [|apply IH].
    unbind. destruct (py_lower _); [|done]. destruct (py_lower _); [|done].
    intros [= <- <-]. by right.
Qed.

(** What one turn of the loop appends depends on the candidate only. *)
Lemma match_row_results results idx row :
  match_row self results idx row =
  match match_row self [] idx row with
  | Ok rs => Ok (results ++ rs)
  | Raise e => Raise e
  end.
Proof.
  unfold match_row. unbind.
  destruct (doi_tier self row _) as [[mi|]|]; [done| |done].
  destruct (title_tiers self _ _ _) as [[mi|]|]; [done| |done].
  destruct (_extract_first_author _) as [fa|]; [|done].
  destruct (_ && _).
  - rewrite author_year_scan_results.
    destruct (author_year_scan _ _ _ _ _ _ _ []) as [[mi rs]|]; [|done].
    by destruct (String.eqb _ _); rewrite ?app_assoc.
  - simpl. done.
Qed.

(** A turn that completes appends exactly one row, which echoes the label
    of the candidate. *)
Lemma match_row_single idx row rs :
  match_row self [] idx row = Ok rs → ∃ mi, rs = [mi] ∧ search_idx mi = idx.
Proof.
  unfold match_row. unbind.
  destruct (doi_tier self row _) as [[mi|]|] eqn:Hd; [| |done].
  { intros [= <-]. exists mi. split; [done|]. by apply doi_tier_Some in Hd as [-> _]. }
  destruct (title_tiers self _ _ _) as [[mi|]|] eqn:Ht; [| |done].
  { intros [= <-]. exists mi. split; [done|]. by apply title_tiers_Some in Ht as [-> _]. }
  destruct (_extract_first_author _) as [fa|]; [|done].
  destruct (_ && _).
  - destruct (author_year_scan _ _ _ _ _ _ _ []) as [[mi rs']|] eqn:Ha; [|done].
    apply author_year_scan_inv in Ha as [[-> ->]|(-> & Hi & _ & Hs)].
    + simpl. intros [= <-]. by eexists.
    + rewrite Hs. simpl. intros [= <-]. by eexists.
  - simpl. intros [= <-]. by eexists.
Qed.

Lemma match_row_decides results idx row rs :
  match_row self results idx row = Ok rs ↔
  ∃ mi, decides self (idx, row) mi ∧ rs = results ++ [mi].
Proof.
  rewrite match_row_results. unfold decides. simpl. split.
  - destruct (match_row self [] idx row) as [rs'|] eqn:Hm; [|done].
    intros [= <-]. destruct (match_row_single _ _ _ Hm) as (mi & -> & _). by exists mi.
  - intros (mi & -> & ->). done.
Qed.

Lemma find_matches_from_raise e batch :
  foldl (λ acc ir, results ← acc; match_row self results ir.1 ir.2) (Raise e) batch
  = Raise e.
Proof. by induction batch. Qed.

Lemma find_matches_from batch : ∀ results rs,
  foldl (λ acc ir, results ← acc; match_row self results ir.1 ir.2) (Ok results) batch
  = Ok rs ↔ ∃ rs', Forall2 (decides self) batch rs' ∧ rs = results ++ rs'.
Proof.
  induction batch as [|[idx row] batch IH]; intros results rs; simpl.
  - split.
    + intros [= <-]. exists []. by rewrite app_nil_r.
    + intros (rs' & Hf & ->). apply Forall2_nil_inv_l in Hf as ->. by rewrite app_nil_r.
  - unbind. destruct (match_row self results idx row) as [rs1|e] eqn:Hm.
    + apply match_row_decides in Hm as (mi & Hmi & ->).
      rewrite IH. split.
      * intros (rs' & Hf & ->). exists (mi :: rs'). split; [by constructor|].
        by rewrite <-app_assoc.
      * intros (rs' & Hf & ->). apply Forall2_cons_inv_l in Hf as (mi' & rs'' & Hmi' & Hf & ->).
        unfold decides in *. rewrite Hmi in Hmi'. injection Hmi' as <-.
        exists rs''. split; [done|]. by rewrite <-app_assoc.
    + rewrite find_matches_from_raise. split; [done|].
      intros (rs' & Hf & ->). apply Forall2_cons_inv_l in Hf as (mi' & rs'' & Hmi' & Hf & ->).
      unfold decides in Hmi'. simpl in Hmi'.
      rewrite match_row_results, Hmi' in Hm. done.
Qed.

(** [find_matches] returns a table exactly when every turn completes, and
    the table then holds the rows of the turns, in the order of the batch. *)
Lemma find_matches_Ok batch rs :
  find_matches self batch = Ok rs ↔ Forall2 (decides self) batch rs.
Proof.
  unfold find_matches. rewrite find_matches_from. simpl. split.
  - by intros (rs' & Hf & ->).
  - intros Hf. by exists rs.
Qed.

Lemma decides_search_idx ir mi : decides self ir mi → search_idx mi = ir.1.
Proof.
  unfold decides. intros Hm. apply match_row_single in Hm as (mi' & [= <-] & Hi). done.
Qed.

End matcher_facts.

(** ** The lookups built by [__init__] *)

Lemma prepare_rows_inv refs : ∀ rows,
  prepare_rows refs = Ok rows →
  Forall2 (λ r row, source row = r ∧ doi_normalized row = _normalize_doi (DOI_URL r)) refs rows.
Proof.
  induction refs as [|r refs IH]; intros rows; simpl.
  - intros [= <-]. constructor.
  - unfold prepare_row. unbind.
    destruct (_extract_first_author _); [|done].
    destruct (prepare_rows refs) as [rows'|]; [|done].
    intros [= <-]. constructor; [done|]. by apply IH.
Qed.

Lemma build_doi_lookup_Some rows : ∀ idx m key i,
  build_doi_lookup idx rows m !! key = Some i →
  m !! key = Some i
  ∨ ∃ row, rows !! (i - idx)%nat = Some row ∧ (idx ≤ i)%nat ∧ doi_normalized row = key.
Proof.
  induction rows as [|r rows IH]; intros idx m key i; simpl; [by left|].
  intros Hl. apply IH in Hl as [Hl|(row & Hrow & Hle & Hkey)].
  - destruct (decide (doi_normalized r = key)) as [<-|Hne].
    + rewrite lookup_insert_eq in Hl. injection Hl as <-. right.
      exists r. by rewrite Nat.sub_diag.
    + rewrite lookup_insert_ne in Hl by done. by left.
  - right. exists row. split_and!; [|lia|done].
    by replace (i - idx)%nat with (S (i - S idx)) by lia.
Qed.

Lemma build_doi_lookup_is_Some rows : ∀ idx m key,
  is_Some (m !! key) ∨ (∃ row, row ∈ rows ∧ doi_normalized row = key) →
  is_Some (build_doi_lookup idx rows m !! key).
Proof.
  induction rows as [|r rows IH]; intros idx m key Hk; simpl.
  - destruct Hk as [?|(row & Hin & _)]; [done|]. by apply elem_of_nil in Hin.
  - apply IH. destruct (decide (doi_normalized r = key)) as [<-|Hne].
    + left. by rewrite lookup_insert_eq.
    + destruct Hk as [?|(row & Hin & Hrow)].
      * left. by rewrite lookup_insert_ne.
      * apply elem_of_cons in Hin as [->|Hin]; [done|]. right. eauto.
Qed.

(** ** The DOI tier *)

(** C1, as amended.  A candidate whose [doi] cell is non-empty, whose
    normalised DOI is itself non-empty and equals the normalised DOI of some
    reference record gets a row with [match_type = doi] and
    [match_status = definite_match], whatever its title and the other fields
    are: the DOI tier decides before the title and author tiers run.  The
    row points to a reference record with that normalised DOI. *)
Theorem doi_tier_decides_first (refs : list reference) (cfg : thresholds)
    (self : deduplicator) (idx : nat) (row : candidate) (d : pyval) (r : reference) :
  __init__ refs cfg = Ok self →
  doi row = Some d → truthy d = true →
  _normalize_doi d ≠ "" →
  r ∈ refs → _normalize_doi (DOI_URL r) = _normalize_doi d →
  ∃ mi, (∀ results, match_row self results idx row = Ok (results ++ [mi]))
        ∧ match_type mi = "doi" ∧ match_status mi = "definite_match"
        ∧ match_confidence mi = thr_doi cfg
        ∧ (∃ i r', reference_idx mi = Some i ∧ refs !! i = Some r'
                   ∧ _normalize_doi (DOI_URL r') = _normalize_doi d
                   ∧ reference_title mi = Title r' ∧ reference_doi mi = DOI_URL r')
        ∧ ∀ batch n rs, batch !! n = Some (idx, row) →
            find_matches self batch = Ok rs → rs !! n = Some mi.
Proof.
  intros Hinit Hdoi Htruthy Hnorm Hin Heq.
  unfold __init__ in Hinit. unbind.
  destruct (prepare_rows refs) as [rows|] eqn:Hrows; [|done].
  injection Hinit as <-.
  apply prepare_rows_inv in Hrows.
  assert (∃ i row', build_doi_lookup 0 rows ∅ !! _normalize_doi d = Some i
                    ∧ rows !! i = Some row'
                    ∧ doi_normalized row' = _normalize_doi d) as (i & row' & Hi & Hrow' & Hkey).
  { destruct (build_doi_lookup_is_Some rows 0 ∅ (_normalize_doi d)) as [i Hi].
    - right. apply list_elem_of_lookup in Hin as [k Hk].
      destruct (Forall2_lookup_l _ _ _ _ _ Hrows Hk) as (row' & Hrow' & _ & Hn).
      exists row'. split; [by eapply list_elem_of_lookup_2|congruence].
    - exists i. destruct (build_doi_lookup_Some _ _ _ _ _ Hi) as [He|(row' & Hrow' & _ & Hkey)].
      + by rewrite lookup_empty in He.
      + rewrite Nat.sub_0_r in Hrow'. eauto. }
  set (self := Build_deduplicator _ _ _ _).
  set (mi := update (new_match_info idx row) "definite_match" (thr_doi cfg) "doi" i row'
               (DoiMatch (_normalize_doi d))).
  assert (∀ results, match_row self results idx row = Ok (results ++ [mi])) as Hrow.
  { intros results. unfold match_row, doi_tier. rewrite Hdoi, Htruthy.
    destruct (_normalize_doi d) as [|c s] eqn:Hn; [done|]. simpl Str.nonempty. cbv iota.
    simpl doi_lookup. rewrite Hi. unfold loc. simpl reference_df. rewrite Hrow'.
    done. }
  exists mi. split_and!; [done..| |].
  { destruct (Forall2_lookup_r _ _ _ _ _ Hrows Hrow') as (r' & Hr' & Hsrc & Hn).
    exists i, r'. subst mi. simpl. rewrite Hsrc. split_and!; [done|done| |done|done].
    congruence. }
  intros batch n rs Hn Hf. apply find_matches_Ok in Hf.
  destruct (Forall2_lookup_l _ _ _ _ _ Hf Hn) as (mi' & Hmi' & Hd).
  unfold decides in Hd. simpl in Hd. rewrite (Hrow []) in Hd. by injection Hd as <-.
Qed.

(** The candidate [by_doi] against the corpus of [furukawa]. *)
Lemma doi_tier_decides_first_witness :
  ∃ mi, match_row Sample.matcher [] 0 Sample.by_doi = Ok [mi]
        ∧ match_type mi = "doi" ∧ match_status mi = "definite_match".
Proof.
  destruct (doi_tier_decides_first [Sample.furukawa] Sample.cfg Sample.matcher 0
              Sample.by_doi (PyStr "DOI: 10.1377/X") Sample.furukawa)
    as (mi & Hrow & Htype & Hstatus & _).
  - vm_compute. reflexivity.
  - reflexivity.
  - reflexivity.
  - vm_compute. discriminate.
  - apply list_elem_of_singleton. reflexivity.
  - vm_compute. reflexivity.
  - exists mi. split; [apply (Hrow [])|]. split; assumption.
Defined.

(** C1 as stated fails: a [doi] cell holding one blank is non-empty and
    normalises to the empty string, as the missing DOI of a reference does,
    and the DOI tier passes it on. *)
Lemma blank_doi_is_not_a_doi_match :
  ¬ (∀ refs cfg self idx row d r,
       __init__ refs cfg = Ok self →
       doi row = Some d → truthy d = true →
       r ∈ refs → _normalize_doi (DOI_URL r) = _normalize_doi d →
       ∃ mi, match_row self [] idx row = Ok [mi]
             ∧ match_type mi = "doi" ∧ match_status mi = "definite_match").
Proof.
  intros Hclaim.
  destruct (Hclaim [Sample.no_doi] Sample.cfg (Sample.matcher_of [Sample.no_doi]) 0%nat
              Sample.blank_doi (PyStr " ") Sample.no_doi)
    as (mi & Hrow & Htype & _).
  - vm_compute. reflexivity.
  - reflexivity.
  - reflexivity.
  - apply list_elem_of_singleton. reflexivity.
  - vm_compute. reflexivity.
  - vm_compute in Hrow. injection Hrow as <-. vm_compute in Htype. discriminate Htype.
Qed.

(** ** The tiers behind the DOI tier *)

Section tier_facts.
Variable self : deduplicator.

(** The row that a completed turn appends comes from one of the tiers, or
    is the untouched [no_match] row. *)
Lemma match_row_cases idx row mi :
  match_row self [] idx row = Ok [mi] →
  doi_tier self row (new_match_info idx row) = Ok (Some mi)
  ∨ title_tiers self (_normalize_title (get (title row))) (py_str (get (year row)))
      (new_match_info idx row) = Ok (Some mi)
  ∨ (match_type mi = "author_year" ∧ Str.nonempty (py_str (get (year row))) = true)
  ∨ mi = new_match_info idx row.
Proof.
  intros Hm. unfold match_row in Hm.
  set (mi0 := new_match_info idx row) in *.
  set (t := _normalize_title (get (title row))) in *.
  set (y := py_str (get (year row))) in *. unbind.
  destruct (doi_tier self row mi0) as [[mi1|]|] eqn:Hd; [| |done].
  { injection Hm as <-. by left. }
  destruct (title_tiers self t y mi0) as [[mi1|]|] eqn:Ht; [| |done].
  { injection Hm as <-. right. by left. }
  destruct (_extract_first_author _) as [fa|]; [|done].
  destruct (Str.nonempty fa && Str.nonempty y) eqn:Hne; simpl in Hm.
  - destruct (author_year_scan _ _ _ _ _ _ _ []) as [[mi1 rs']|] eqn:Ha; [|done].
    apply author_year_scan_inv in Ha as [[-> ->]|(-> & _ & Hty & Hs)].
    + simpl in Hm. injection Hm as <-. by right; right; right.
    + rewrite Hs in Hm. simpl in Hm. injection Hm as <-.
      right; right; left. split; [done|]. by apply andb_true_iff in Hne as [_ ?].
  - injection Hm as <-. by right; right; right.
Qed.

Lemma int_float_nonempty s z : Float.int_float s = Ok z → Str.nonempty s = true.
Proof. destruct s; [|done]. vm_compute. discriminate. Qed.

Lemma year_filter_distant year ref_year y r :
  Float.int_float year = Ok y → Float.int_float ref_year = Ok r →
  (1 < Z.abs (y - r))%Z → year_filter year ref_year = Ok true.
Proof.
  intros Hy Hr Hgap. unfold year_filter.
  rewrite (int_float_nonempty _ _ Hy), (int_float_nonempty _ _ Hr), Hy, Hr. simpl.
  f_equal. by apply Z.ltb_lt.
Qed.

Lemma fuzzy_scan_all_skipped t year rows : ∀ i best,
  Forall (λ ref, year_filter year (ref_year_of ref) = Ok true) rows →
  fuzzy_scan t year i rows best = Ok best.
Proof.
  induction rows as [|ref rows IH]; intros i best Hall; simpl; [done|].
  apply Forall_cons in Hall as [-> Hall]. simpl. by apply IH.
Qed.

Lemma title_tiers_all_skipped t year mi mi' :
  Forall (λ ref, year_filter year (ref_year_of ref) = Ok true) (reference_df self) →
  title_tiers self t year mi = Ok (Some mi') → match_type mi' = "title_year_exact".
Proof.
  intros Hall. unfold title_tiers.
  destruct (Str.nonempty t); [|done].
  rewrite (fuzzy_scan_all_skipped _ _ _ _ _ Hall).
  destruct (title_year_lookup self !! (t, year)) as [[|i ?]|]; unbind.
  2:{ destruct (loc self (Some i)); [|done]. by intros [= <-]. }
  all: by destruct (Qle_bool _ 0).
Qed.

End tier_facts.

(** C4.  In the fuzzy title tier, a reference whose year and the
    candidate's year both parse as integers and differ by more than 1 is
    skipped: the year test answers [continue] and the turn of the loop
    leaves the best match as it was, whatever the title of the reference.
    Consequently, when every reference is that far from the candidate (as
    the only entry of a corpus four years apart is), no completed turn gives
    the candidate a [title_fuzzy] row, a [very_likely_match] least of all. *)
Theorem fuzzy_tier_skips_distant_years (self : deduplicator) (idx : nat)
    (row : candidate) (y : Z) :
  Float.int_float (py_str (get (year row))) = Ok y →
  (∀ ref r, Float.int_float (ref_year_of ref) = Ok r → (1 < Z.abs (y - r))%Z →
     year_filter (py_str (get (year row))) (ref_year_of ref) = Ok true
     ∧ ∀ t i rows best,
         fuzzy_scan t (py_str (get (year row))) i (ref :: rows) best
         = fuzzy_scan t (py_str (get (year row))) (S i) rows best)
  ∧ ((∀ ref, ref ∈ reference_df self →
        ∃ r, Float.int_float (ref_year_of ref) = Ok r ∧ (1 < Z.abs (y - r))%Z) →
     ∀ results mi, match_row self results idx row = Ok (results ++ [mi]) →
       match_type mi ≠ "title_fuzzy").
Proof.
  intros Hy. split.
  - intros ref r Hr Hgap.
    pose proof (year_filter_distant _ _ _ _ Hy Hr Hgap) as Hskip.
    split; [done|]. intros t i rows best. simpl. by rewrite Hskip.
  - intros Hfar results mi Hm.
    assert (Forall (λ ref, year_filter (py_str (get (year row))) (ref_year_of ref) = Ok true)
              (reference_df self)) as Hall.
    { apply Forall_forall. intros ref Hin. destruct (Hfar ref Hin) as (r & Hr & Hgap).
      by eapply year_filter_distant. }
    apply match_row_decides in Hm as (mi' & Hd & Heq).
    apply app_inj_tail in Heq as [_ <-]. unfold decides in Hd. simpl in Hd.
    destruct (match_row_cases _ _ _ _ Hd) as [Hc|[Hc|[[Hc _]|Hc]]].
    + apply doi_tier_Some in Hc as (_ & -> & _). done.
    + apply (title_tiers_all_skipped _ _ _ _ _ Hall) in Hc as ->. done.
    + by rewrite Hc.
    + by rewrite Hc.
Qed.

(** The title of [furukawa] with the year 2017 against the entry of 2021:
    the entry is skipped and the candidate ends as [no_match]. *)
Lemma fuzzy_tier_skips_distant_years_witness :
  year_filter "2017" "2021" = Ok true
  ∧ match_row Sample.matcher [] 7 Sample.four_years_apart
    = Ok [new_match_info 7 Sample.four_years_apart]
  ∧ match_type (new_match_info 7 Sample.four_years_apart) ≠ "title_fuzzy".
Proof.
  destruct (fuzzy_tier_skips_distant_years Sample.matcher 7 Sample.four_years_apart 2017)
    as [Hskip Hnever].
  - vm_compute. reflexivity.
  - split.
    + destruct (Hskip (Build_ref_row Sample.furukawa "" "" "") 2021%Z) as [Hgate _].
      * vm_compute. reflexivity.
      * vm_compute. reflexivity.
      * exact Hgate.
    + split; [vm_compute; reflexivity|].
      apply (Hnever) with (results := []).
      * intros ref Hin. apply list_elem_of_singleton in Hin as ->.
        exists 2021%Z. split; [vm_compute; reflexivity|]. vm_compute. reflexivity.
      * vm_compute. reflexivity.
Defined.

(** C10.  For a candidate whose [year] is absent or the empty string, the
    fuzzy title tier applies no year filter (the year test never answers
    [continue], so each turn of the loop scores the title of its reference,
    whatever the year of that reference), and the author + year tier is
    skipped: no completed turn gives the candidate an [author_year] row. *)
Theorem empty_year_is_unfiltered (self : deduplicator) (idx : nat) (row : candidate) :
  year row = None ∨ year row = Some (PyStr "") →
  (∀ ref_year, year_filter (py_str (get (year row))) ref_year = Ok false)
  ∧ (∀ t i ref rows best,
       fuzzy_scan t (py_str (get (year row))) i (ref :: rows) best
       = let similarity := _calculate_title_similarity t (title_normalized ref) in
         fuzzy_scan t (py_str (get (year row))) (S i) rows
           (if Qle_bool similarity best.2 then best else (Some i, similarity)))
  ∧ (∀ results mi, match_row self results idx row = Ok (results ++ [mi]) →
       match_type mi ≠ "author_year").
Proof.
  intros Hyear.
  assert (py_str (get (year row)) = "") as Hy by (by destruct Hyear as [-> | ->]).
  rewrite Hy. split_and!.
  - done.
  - done.
  - intros results mi Hm.
    apply match_row_decides in Hm as (mi' & Hd & Heq).
    apply app_inj_tail in Heq as [_ <-]. unfold decides in Hd. simpl in Hd.
    destruct (match_row_cases _ _ _ _ Hd) as [Hc|[Hc|[[_ Hc]|Hc]]].
    + apply doi_tier_Some in Hc as (_ & -> & _). done.
    + apply title_tiers_Some in Hc as (_ & [-> | ->] & _); done.
    + by rewrite Hy in Hc.
    + by rewrite Hc.
Qed.

(** A candidate of a table without [year] column, decided by the fuzzy
    title tier against an entry of 2021. *)
Lemma empty_year_is_unfiltered_witness :
  ∃ mi, match_row Sample.matcher [] 3 Sample.no_year = Ok [mi]
        ∧ match_type mi = "title_fuzzy" ∧ match_type mi ≠ "author_year".
Proof.
  eexists. split; [vm_compute; reflexivity|]. split; [reflexivity|].
  destruct (empty_year_is_unfiltered Sample.matcher 3 Sample.no_year) as (_ & _ & Hnever).
  - left. reflexivity.
  - apply (Hnever []). vm_compute. reflexivity.
Defined.

(** ** The batch *)


(** C9.  Matching does not depend on the order of the batch: [find_matches]
    on [A, B] and on [B, A] either both raise or both return, and then the
    row for [A] and the row for [B] are the same in both runs, namely the
    rows that [A] and [B] get when matched alone. *)
Theorem find_matches_batch_order (self : deduplicator) (A B : nat * candidate) :
  match find_matches self [A; B], find_matches self [B; A] with
  | Ok rs, Ok rs' =>
      ∃ ra rb, rs = [ra; rb] ∧ rs' = [rb; ra]
               ∧ find_matches self [A] = Ok [ra] ∧ find_matches self [B] = Ok [rb]
  | Raise _, Raise _ => True
  | _, _ => False
  end.
Proof.
  destruct (find_matches self [A; B]) as [rs|e] eqn:Hab;
    destruct (find_matches self [B; A]) as [rs'|e'] eqn:Hba; [| | |done].
  - apply find_matches_Ok in Hab, Hba.
    apply Forall2_cons_inv_l in Hab as (ra & ? & Ha & Hab & ->).
    apply Forall2_cons_inv_l in Hab as (rb & ? & Hb & Hab & ->).
    apply Forall2_nil_inv_l in Hab as ->.
    apply Forall2_cons_inv_l in Hba as (rb' & ? & Hb' & Hba & ->).
    apply Forall2_cons_inv_l in Hba as (ra' & ? & Ha' & Hba & ->).
    apply Forall2_nil_inv_l in Hba as ->.
    unfold decides in *. rewrite Ha in Ha'. rewrite Hb in Hb'.
    injection Ha' as <-. injection Hb' as <-.
    exists ra, rb. split_and!; [done|done| |]; apply find_matches_Ok;
      by repeat constructor.
  - apply find_matches_Ok in Hab.
    apply Forall2_cons_inv_l in Hab as (ra & ? & Ha & Hab & ->).
    apply Forall2_cons_inv_l in Hab as (rb & ? & Hb & Hab & ->).
    apply Forall2_nil_inv_l in Hab as ->.
    assert (find_matches self [B; A] = Ok [rb; ra]) as Hc; [|congruence].
    apply find_matches_Ok. by repeat constructor.
  - apply find_matches_Ok in Hba.
    apply Forall2_cons_inv_l in Hba as (rb & ? & Hb & Hba & ->).
    apply Forall2_cons_inv_l in Hba as (ra & ? & Ha & Hba & ->).
    apply Forall2_nil_inv_l in Hba as ->.
    assert (find_matches self [A; B] = Ok [ra; rb]) as Hc; [|congruence].
    apply find_matches_Ok. by repeat constructor.
Qed.

(** ** The normalisers *)

Lemma chars_text l : Str.chars (Str.text l) = l.
Proof. apply list_ascii_of_string_of_list_ascii. Qed.

Lemma search_found m : ∀ l g,
  Re.search m l = Some g → ∃ l', l' `suffix_of` l ∧ m l' = Some g.
Proof.
  induction l as [|c l IH]; intros g; simpl.
  - destruct (m []) eqn:Hm; [|done]. intros [= <-]. by exists [].
  - destruct (m (c :: l)) eqn:Hm.
    + intros [= <-]. by exists (c :: l).
    + intros Hs. apply IH in Hs as (l' & Hsuf & Hl'). exists l'.
      split; [by apply suffix_cons_r|done].
Qed.

Lemma search_suffix m : ∀ l l' g,
  l' `suffix_of` l → m l' = Some g → is_Some (Re.search m l).
Proof.
  induction l as [|c l IH]; intros l' g Hsuf Hm.
  - apply suffix_nil_inv in Hsuf as ->. simpl. by rewrite Hm.
  - simpl. destruct (m (c :: l)) eqn:Hc; [done|].
    destruct l' as [|x l'].
    + eapply IH; [apply suffix_nil|done].
    + apply suffix_cons_inv in Hsuf as [Heq|Hsuf]; [congruence|]. by eapply IH.
Qed.

Lemma match_prefixed_found prefix : ∀ l g,
  Re.match_prefixed prefix l = Some g → ∃ l', l' `suffix_of` l ∧ Re.match_doi l' = Some g.
Proof.
  induction prefix as [|p prefix IH]; intros l g; simpl.
  - intros Hm. by exists l.
  - destruct l as [|c l]; [done|]. destruct (Ascii.eqb p c); [|done].
    intros Hm. apply IH in Hm as (l' & Hsuf & Hl'). exists l'.
    split; [by apply suffix_cons_r|done].
Qed.

(** A match of one of the two resolver patterns holds a match of the bare
    pattern: when the first search fails, the other two fail. *)
Lemma search_prefixed_None prefix l :
  Re.search Re.match_doi l = None → Re.search (Re.match_prefixed prefix) l = None.
Proof.
  intros Hnone. destruct (Re.search (Re.match_prefixed prefix) l) as [g|] eqn:Hs; [|done].
  apply search_found in Hs as (l1 & Hsuf1 & Hm).
  apply match_prefixed_found in Hm as (l2 & Hsuf2 & Hm).
  destruct (search_suffix Re.match_doi l l2 g) as [g' Hg']; [by etrans|done|congruence].
Qed.

(** C5, as amended.  When no DOI-like substring is found, [_normalize_doi]
    returns the lower-cased, stripped input itself, which is the empty
    string only when the input is blank; a missing input yields the empty
    string. *)
Theorem normalize_doi_without_match (d : pyval) :
  Re.search Re.match_doi (Str.chars (doi_str d)) = None →
  _normalize_doi d = (if isna d then "" else doi_str d)
  ∧ (_normalize_doi d = "" ↔ isna d = true ∨ doi_str d = "").
Proof.
  intros Hnone.
  assert (_normalize_doi d = if isna d then "" else doi_str d) as Heq.
  { unfold _normalize_doi. destruct (isna d); [done|].
    by rewrite Hnone, !search_prefixed_None. }
  split; [done|]. rewrite Heq. destruct (isna d); [naive_solver|].
  split; [by right|]. by intros [?|?].
Qed.

(** A PubMed identifier in the DOI cell. *)
Lemma normalize_doi_without_match_witness :
  _normalize_doi (PyStr " PMID 12345 ") = "pmid 12345".
Proof.
  apply (normalize_doi_without_match (PyStr " PMID 12345 ")).
  vm_compute. reflexivity.
Defined.

(** C5 as stated fails: [abc] holds no DOI-like substring and is returned
    as it is. *)
Lemma normalize_doi_keeps_other_text :
  ¬ (∀ s : string,
       Re.search Re.match_doi (Str.chars (doi_str (PyStr s))) = None →
       Re.search (Re.match_prefixed (Str.chars "doi.org/")) (Str.chars (doi_str (PyStr s)))
       = None →
       Re.search (Re.match_prefixed (Str.chars "dx.doi.org/")) (Str.chars (doi_str (PyStr s)))
       = None →
       _normalize_doi (PyStr s) = "").
Proof.
  intros Hclaim. by specialize (Hclaim "abc" eq_refl eq_refl eq_refl).
Qed.

(** *** [_extract_first_author] against the words of the specification *)

Lemma split_ws_drop_while l :
  Str.split_ws [] (Str.drop_while Str.isspace l) = Str.split_ws [] l.
Proof.
  induction l as [|c l IH]; simpl; [done|].
  destruct (Str.isspace c) eqn:Hc; simpl; by rewrite ?Hc.
Qed.

Lemma split_ws_spaces w : ∀ cur,
  Forall (λ c, Str.isspace c = true) w → Str.split_ws cur w = Str.split_ws cur [].
Proof.
  induction w as [|c w IH]; intros cur Hw; [done|].
  apply Forall_cons in Hw as [Hc Hw]. simpl. rewrite Hc.
  destruct cur; rewrite (IH [] Hw); done.
Qed.

Lemma split_ws_app_spaces l : ∀ cur w,
  Forall (λ c, Str.isspace c = true) w → Str.split_ws cur (l ++ w) = Str.split_ws cur l.
Proof.
  induction l as [|c l IH]; intros cur w Hw.
  - by apply split_ws_spaces.
  - simpl. destruct (Str.isspace c); [destruct cur|]; by rewrite IH.
Qed.

Lemma drop_while_decomp p l :
  ∃ pre, l = pre ++ Str.drop_while p l ∧ Forall (λ c, p c = true) pre.
Proof.
  induction l as [|c l (pre & Hl & Hpre)]; simpl; [by exists []|].
  destruct (p c) eqn:Hp; [|by exists []].
  exists (c :: pre). split; [by rewrite Hl at 1|by constructor].
Qed.

(** Stripping a string does not change its words. *)
Lemma split_strip s : Str.split (Str.strip s) = Str.split s.
Proof.
  unfold Str.split, Str.strip, Str.strip_by. rewrite chars_text.
  rewrite <-(split_ws_drop_while (Str.chars s)).
  destruct (drop_while_decomp Str.isspace (rev (Str.drop_while Str.isspace (Str.chars s))))
    as (pre & Hl & Hpre).
  apply (f_equal (@rev _)) in Hl. rewrite rev_involutive, rev_app_distr in Hl.
  rewrite Hl at 2. symmetry. apply split_ws_app_spaces.
  apply Forall_forall. intros c Hc. rewrite Forall_forall in Hpre. apply Hpre.
  by apply list_elem_of_In, in_rev, list_elem_of_In.
Qed.

Lemma count_contains c s : Str.contains c s = false → Str.count c s = O.
Proof.
  unfold Str.contains, Str.count. induction (Str.chars s) as [|c' l IH]; simpl; [done|].
  intros [Hc Hl]%orb_false_iff. rewrite filter_cons.
  rewrite Ascii.eqb_sym in Hc. rewrite decide_False by congruence. by apply IH.
Qed.

(** [_extract_first_author] returns what the specification describes
    whenever it returns; it raises [IndexError] on a string that is not
    empty and has no word. *)
Lemma extract_first_author_refines raw :
  match _extract_first_author raw with
  | Ok r => r = extract_first_author_surname raw
  | Raise e => e = IndexError ∧ Str.split (py_str raw) = [] ∧ py_str raw ≠ ""
  end.
Proof.
  unfold _extract_first_author, extract_first_author_surname.
  destruct (isna raw); [done|]. set (s := py_str raw).
  assert (∀ fa, (if Str.nonempty fa then last_or_empty (Str.split (Str.strip fa)) else "")
                = last_or_empty (Str.split fa)) as Hlast.
  { intros fa. rewrite split_strip. by destruct fa. }
  unbind. destruct (Str.contains ";" s).
  { rewrite <-(Hlast (Str.before ";" s)). by destruct (Str.nonempty _). }
  assert (Str.contains "," s && (1 <? Str.count "," s)%nat = (1 <? Str.count "," s)%nat)
    as ->.
  { destruct (Str.contains "," s) eqn:Hc; [done|]. by rewrite (count_contains _ _ Hc). }
  destruct (1 <? Str.count "," s)%nat.
  { rewrite <-(Hlast (Str.before "," s)). by destruct (Str.nonempty _). }
  destruct (Str.nonempty s) eqn:Hs.
  - destruct (Str.split s) as [|w ws] eqn:Hw.
    + split_and!; [done..|]. by destruct s.
    + simpl. rewrite <-(Hlast w). by destruct (Str.nonempty w).
  - destruct s; [done|discriminate].
Qed.

(** C8.  On the author string that holds one blank the function does not
    return the empty surname that the specification describes:
    [authors_str.split()[0]] raises [IndexError]. *)
Theorem extract_first_author_blank :
  _extract_first_author (PyStr " ") = Raise IndexError
  ∧ extract_first_author_surname (PyStr " ") = ""
  ∧ find_matches Sample.matcher [(0%nat, Sample.blank_authors)] = Raise IndexError.
Proof. split_and!; vm_compute; reflexivity. Qed.

(** C3.  Matching raises on malformed cells: a candidate that matches a
    reference by author and year and whose journal cell is missing stops
    the whole batch with [AttributeError]; a year that reads as an infinity
    stops it with [OverflowError]. *)
Theorem find_matches_raises :
  find_matches Sample.matcher
    [(0%nat, Sample.unrelated); (1%nat, Sample.missing_journal); (2%nat, Sample.by_doi)]
  = Raise AttributeError
  ∧ find_matches Sample.matcher [(0%nat, Sample.infinite_year)] = Raise OverflowError
  ∧ is_Ok (find_matches Sample.matcher [(0%nat, Sample.unrelated); (2%nat, Sample.by_doi)]).
Proof. split_and!; vm_compute; done. Qed.

(** ** [difflib.SequenceMatcher]: where the blocks lie *)

Import Difflib.

Section blocks.
Context {A : Type} `{Countable A}.
Variables a b : list A.

Local Open Scope nat_scope.

Lemma scan_row_within alo ahi blo bhi i j2len js : ∀ st,
  alo ≤ i < ahi →
  lengths_within alo blo i j2len →
  within alo ahi blo bhi st.1 →
  lengths_within alo blo (S i) st.2 →
  within alo ahi blo bhi (scan_row blo bhi i j2len js st).1
  ∧ lengths_within alo blo (S i) (scan_row blo bhi i j2len js st).2.
Proof.
  intros st Hi Hprev. revert st.
  induction js as [|j js IH]; intros st Hbst Hnew; simpl; [done|].
  destruct (j <? blo) eqn:Hlo; [by apply IH|].
  destruct (bhi <=? j) eqn:Hhi; [done|].
  apply Nat.ltb_ge in Hlo. apply Nat.leb_gt in Hhi.
  set (k := match j with O => 0 | S j' => default 0 (j2len !! j') end + 1).
  assert (k ≤ S i - alo ∧ k ≤ j + 1 - blo) as [Hk1 Hk2].
  { subst k. destruct j as [|j']; [lia|].
    destruct (j2len !! j') as [k'|] eqn:Hl; simpl; [|lia].
    destruct (Hprev _ _ Hl) as (? & ? & ?). lia. }
  apply IH; simpl.
  - destruct (bestsize st.1 <? k); [|done].
    unfold within. simpl. lia.
  - intros j0 k0. destruct (decide (j = j0)) as [<-|Hne].
    + rewrite lookup_insert_eq. intros [= <-]. lia.
    + rewrite lookup_insert_ne by done. apply Hnew.
Qed.

Lemma rows_within alo ahi blo bhi n : ∀ i st,
  alo ≤ i → i + n ≤ ahi →
  within alo ahi blo bhi st.1 →
  lengths_within alo blo i st.2 →
  within alo ahi blo bhi (rows a b blo bhi n i st).1.
Proof.
  induction n as [|n IH]; intros i st Hlo Hhi Hbst Hm; simpl; [done|].
  destruct (scan_row_within alo ahi blo bhi i st.2
              (match a !! i with Some x => default [] (b2j b !! x) | None => [] end)
              (st.1, ∅)) as [Hb' Hm']; [lia|done|done| |].
  { intros j k. simpl. by rewrite lookup_empty. }
  apply IH; [lia|lia|done|done].
Qed.

Lemma extend_left_within alo ahi blo bhi junk i : ∀ bst,
  within alo ahi blo bhi bst →
  within alo ahi blo bhi (extend_left a b alo blo junk i bst).
Proof.
  induction i as [|i IH]; intros bst Hb; simpl; [done|].
  destruct (_ && _) eqn:Hc; [|done].
  apply andb_true_iff in Hc as [Hc _]. apply andb_true_iff in Hc as [Hc _].
  apply andb_true_iff in Hc as [Hc1 Hc2].
  apply Nat.ltb_lt in Hc1, Hc2.
  apply IH. unfold within in *. simpl. lia.
Qed.

Lemma extend_right_within alo ahi blo bhi junk n : ∀ bst,
  within alo ahi blo bhi bst →
  within alo ahi blo bhi (extend_right a b ahi bhi junk n bst).
Proof.
  induction n as [|n IH]; intros bst Hb; simpl; [done|].
  destruct (_ && _) eqn:Hc; [|done].
  apply andb_true_iff in Hc as [Hc _]. apply andb_true_iff in Hc as [Hc _].
  apply andb_true_iff in Hc as [Hc1 Hc2].
  apply Nat.ltb_lt in Hc1, Hc2.
  apply IH. unfold within in *. simpl. lia.
Qed.

(** The block found lies in the range searched. *)
Lemma find_longest_match_within alo ahi blo bhi :
  alo ≤ ahi → blo ≤ bhi →
  within alo ahi blo bhi (find_longest_match a b alo ahi blo bhi).
Proof.
  intros Ha Hb. unfold find_longest_match.
  apply extend_right_within, extend_left_within, extend_right_within, extend_left_within.
  apply rows_within; simpl; [lia|lia| |].
  - unfold within. simpl. lia.
  - intros j k. by rewrite lookup_empty.
Qed.

End blocks.

(** ** [difflib.SequenceMatcher]: the loop of [get_matching_blocks] *)

Section matching_blocks.
Context {A : Type} `{Countable A}.
Variables a b : list A.

Local Open Scope nat_scope.

Lemma sizes_app (l1 l2 : list block) : sizes (l1 ++ l2) = sizes l1 + sizes l2.
Proof. apply sum_list_with_app. Qed.

Lemma work_nil queue : work queue ≤ 0 → queue = [].
Proof. destruct queue as [|r queue]; [done|]. unfold work. simpl. lia. Qed.

Lemma room_a_cons alo ahi blo bhi queue :
  room_a ((alo, ahi, blo, bhi) :: queue) = ahi - alo + room_a queue.
Proof. done. Qed.

Lemma room_b_cons alo ahi blo bhi queue :
  room_b ((alo, ahi, blo, bhi) :: queue) = bhi - blo + room_b queue.
Proof. done. Qed.

Lemma work_cons alo ahi blo bhi queue :
  work ((alo, ahi, blo, bhi) :: queue) = 2 * (ahi - alo) + 1 + work queue.
Proof. done. Qed.

Lemma sizes_snoc l i j k : sizes (l ++ [(i, j, k)]) = sizes l + k.
Proof. rewrite sizes_app. unfold sizes at 2. simpl. lia. Qed.

(** The loop keeps its ranges well formed, never finds more than the room
    that the ranges leave in [a] and in [b], and empties its stack when it
    is given as many turns as the ranges can cause. *)
Lemma blocks_loop_inv fuel : ∀ queue blocks,
  Forall valid queue →
  Forall valid (blocks_loop a b fuel queue blocks).1
  ∧ sizes (blocks_loop a b fuel queue blocks).2
      + room_a (blocks_loop a b fuel queue blocks).1 ≤ sizes blocks + room_a queue
  ∧ sizes (blocks_loop a b fuel queue blocks).2
      + room_b (blocks_loop a b fuel queue blocks).1 ≤ sizes blocks + room_b queue
  ∧ (work queue ≤ fuel → (blocks_loop a b fuel queue blocks).1 = []).
Proof.
  induction fuel as [|fuel IH]; intros queue blocks Hv.
  { simpl. split_and!; [done|lia|lia|apply work_nil]. }
  destruct queue as [|[[[alo ahi] blo] bhi] queue].
  { simpl. split_and!; [done|lia|lia|done]. }
  apply Forall_cons in Hv as [[Hva Hvb] Hv]. simpl in Hva, Hvb.
  pose proof (find_longest_match_within a b alo ahi blo bhi Hva Hvb) as (Hw1 & Hw2 & Hw3 & Hw4).
  rewrite room_a_cons, room_b_cons, work_cons.
  cbn [blocks_loop]. destruct (bestsize _ =? 0) eqn:Hk.
  { destruct (IH queue blocks Hv) as (IH1 & IH2 & IH3 & IH4).
    split_and!; [done|lia|lia|intros; apply IH4; lia]. }
  apply Nat.eqb_neq in Hk.
  set (x := find_longest_match a b alo ahi blo bhi) in *.
  set (q1 := if (alo <? besti x) && (blo <? bestj x)
             then (alo, besti x, blo, bestj x) :: queue else queue).
  set (q2 := if (besti x + bestsize x <? ahi) && (bestj x + bestsize x <? bhi)
             then (besti x + bestsize x, ahi, bestj x + bestsize x, bhi) :: q1 else q1).
  assert (Forall valid q2 ∧ room_a q2 + bestsize x ≤ room_a queue + (ahi - alo)
          ∧ room_b q2 + bestsize x ≤ room_b queue + (bhi - blo)
          ∧ work q2 < work queue + (2 * (ahi - alo) + 1)) as (Hv2 & Ha2 & Hb2 & Hw).
  { subst q1 q2.
    destruct (_ && _) eqn:Hc1; destruct ((alo <? _) && _) eqn:Hc2;
      rewrite ?room_a_cons, ?room_b_cons, ?work_cons;
      repeat match goal with
             | Hc : _ && _ = true |- _ =>
                 apply andb_true_iff in Hc as [?%Nat.ltb_lt ?%Nat.ltb_lt]
             | Hc : _ && _ = false |- _ => clear Hc
             end;
      (split; [repeat (apply Forall_cons; split; [split; simpl; lia|]); done|lia]). }
  destruct (IH q2 (blocks ++ [(besti x, bestj x, bestsize x)]) Hv2) as (IH1 & IH2 & IH3 & IH4).
  rewrite sizes_snoc in IH2, IH3.
  split_and!; [done|lia|lia|intros; apply IH4; lia].
Qed.

Lemma sizes_insert_block x l : sizes (insert_block x l) = x.2 + sizes l.
Proof.
  induction l as [|y l IH]; simpl; [done|].
  destruct (block_leb x y); [done|]. unfold sizes in *. simpl. rewrite IH. lia.
Qed.

Lemma sizes_sort_blocks l : sizes (sort_blocks l) = sizes l.
Proof.
  induction l as [|x l IH]; simpl; [done|].
  rewrite sizes_insert_block, IH. done.
Qed.

Lemma sizes_collapse l : ∀ cur non_adjacent,
  (collapse l cur non_adjacent).1.2 + sizes (collapse l cur non_adjacent).2
  = cur.2 + sizes non_adjacent + sizes l.
Proof.
  induction l as [|[[i2 j2] k2] l IH]; intros [[i1 j1] k1] na; simpl.
  { unfold sizes. simpl. lia. }
  destruct (_ && _); rewrite IH; simpl.
  - unfold sizes. simpl. lia.
  - destruct (k1 =? 0) eqn:Hk.
    + apply Nat.eqb_eq in Hk as ->. unfold sizes. simpl. lia.
    + rewrite sizes_app. unfold sizes. simpl. lia.
Qed.

(** Sorting and merging the blocks does not change the number of matches. *)
Lemma matches_blocks_loop :
  matches a b = sizes (blocks_loop a b (turns a) [(0, length a, 0, length b)] []).2.
Proof.
  unfold matches, get_matching_blocks.
  set (bl := (blocks_loop a b (turns a) _ []).2).
  pose proof (sizes_collapse (sort_blocks bl) (0, 0, 0) []) as Hc.
  destruct (collapse (sort_blocks bl) (0, 0, 0) []) as [[[i1 j1] k1] na].
  simpl in Hc. rewrite sizes_sort_blocks in Hc.
  fold (sizes ((if k1 =? 0 then na else na ++ [(i1, j1, k1)]) ++ [(length a, length b, 0)])).
  rewrite sizes_app.
  destruct (k1 =? 0) eqn:Hk.
  - apply Nat.eqb_eq in Hk as ->. unfold sizes in *. simpl in *. lia.
  - rewrite sizes_app. unfold sizes in *. simpl in *. lia.
Qed.

(** The turns allowed to the loop are enough: it stops on an empty stack. *)
Lemma blocks_loop_done :
  (blocks_loop a b (turns a) [(0, length a, 0, length b)] []).1 = [].
Proof.
  apply blocks_loop_inv.
  - apply Forall_singleton. split; simpl; lia.
  - rewrite work_cons. change (work []) with 0. unfold turns. lia.
Qed.

(** No more matches than elements on either side. *)
Lemma matches_le : matches a b ≤ length a ∧ matches a b ≤ length b.
Proof.
  rewrite matches_blocks_loop.
  destruct (blocks_loop_inv (turns a) [(0, length a, 0, length b)] []) as (_ & Ha & Hb & _).
  { apply Forall_singleton. split; simpl; lia. }
  rewrite room_a_cons in Ha. rewrite room_b_cons in Hb.
  change (sizes []) with 0 in *. change (room_a []) with 0 in *.
  change (room_b []) with 0 in *. lia.
Qed.

Lemma Zpos_of_nat n : n ≠ 0 → Z.pos (Pos.of_nat n) = Z.of_nat n.
Proof. intros Hn. destruct n as [|n]; [done|]. lia. Qed.

Lemma ratio_bounds : (0 <= ratio a b <= 1)%Q.
Proof.
  unfold ratio, _calculate_ratio.
  destruct (length a + length b =? 0) eqn:Hl; [split; discriminate|].
  apply Nat.eqb_neq in Hl. pose proof matches_le as [Ha Hb].
  unfold Qle. cbn [Qnum Qden]. rewrite (Zpos_of_nat _ Hl). lia.
Qed.

End matching_blocks.

(** ** [difflib.SequenceMatcher]: a sequence matched with itself *)

Section keys.
Context {A : Type} `{Countable A}.

Local Open Scope nat_scope.

Lemma chain_lookup (l : list A) : ∀ i m x,
  chain i l m !! x
  = match indices x i l with
    | [] => m !! x
    | pos => Some (default [] (m !! x) ++ pos)
    end.
Proof.
  induction l as [|elt l IH]; intros i m x; simpl; [done|].
  rewrite IH. destruct (decide (x = elt)) as [->|Hne].
  - rewrite lookup_insert_eq. simpl.
    destruct (indices elt (S i) l); [done|]. by rewrite <-app_assoc.
  - by rewrite lookup_insert_ne.
Qed.

Lemma b2j_lookup (b : list A) x js : b2j b !! x = Some js → js = indices x 0 b.
Proof.
  unfold b2j. intros Hl.
  assert (chain 0 b ∅ !! x = Some js) as Hc.
  { destruct (200 <=? length b); [|done].
    by apply map_lookup_filter_Some in Hl as [? _]. }
  rewrite chain_lookup, lookup_empty in Hc. simpl in Hc.
  destruct (indices x 0 b); congruence.
Qed.

Lemma indices_spec x (l : list A) : ∀ i j,
  j ∈ indices x i l → i ≤ j ∧ l !! (j - i) = Some x.
Proof.
  induction l as [|y l IH]; intros i j; simpl; [by intros ?%elem_of_nil|].
  destruct (decide (x = y)) as [->|Hne].
  - intros [->|Hin]%elem_of_cons.
    + by rewrite Nat.sub_diag.
    + apply IH in Hin as [? Hl]. split; [lia|].
      by replace (j - i) with (S (j - S i)) by lia.
  - intros Hin. apply IH in Hin as [? Hl]. split; [lia|].
    by replace (j - i) with (S (j - S i)) by lia.
Qed.

Lemma indices_elem x (l : list A) : ∀ i j,
  l !! j = Some x → i + j ∈ indices x i l.
Proof.
  induction l as [|y l IH]; intros i j; simpl; [done|].
  destruct j as [|j]; simpl.
  - intros [= ->]. rewrite decide_True by done. rewrite Nat.add_0_r. by left.
  - intros Hl. replace (i + S j) with (S i + j) by lia.
    destruct (decide (x = y)); [right|]; by apply IH.
Qed.

Lemma indices_sorted x (l : list A) : ∀ i, StronglySorted lt (indices x i l).
Proof.
  induction l as [|y l IH]; intros i; simpl; [constructor|].
  destruct (decide (x = y)); [|apply IH].
  constructor; [apply IH|].
  apply Forall_forall. intros j Hj. apply indices_spec in Hj as [? _]. lia.
Qed.

End keys.

Section self_match.
Context {A : Type} `{Countable A}.
Variable a : list A.

Local Open Scope nat_scope.

Lemma run_key j x :
  a !! j = Some x → is_key a x = true →
  run a a j = S (match j with O => 0 | S j' => run a a j' end).
Proof. intros Hj Hk. destruct j; simpl; by rewrite Hj, Hk. Qed.

Lemma run_not_key j x : a !! j = Some x → is_key a x = false → run a a j = 0.
Proof. intros Hj Hk. destruct j; simpl; by rewrite Hj, Hk. Qed.

(** The row of a key [x = a[i]]: the columns before the diagonal change
    nothing, the diagonal records the run that ends at [i], and the columns
    behind it change nothing either. *)
Lemma scan_row_diag i x m (js : list nat) : ∀ st,
  a !! i = Some x → is_key a x = true →
  (∀ j k, m !! j = Some k → 0 < i ∧ k ≤ run a a j ∧ k ≤ run a a (i - 1)) →
  (0 < i → default 0 (m !! (i - 1)) = run a a (i - 1)) →
  StronglySorted lt js →
  (∀ j, j ∈ js → a !! j = Some x ∧ j < length a) →
  besti st.1 = bestj st.1 →
  (∀ j, j < i → run a a j ≤ bestsize st.1) →
  (∀ j k, st.2 !! j = Some k → k ≤ run a a j ∧ k ≤ run a a i) →
  (i ∈ js ∨ ((∀ j, j ∈ js → i < j) ∧ run a a i ≤ bestsize st.1
             ∧ st.2 !! i = Some (run a a i))) →
  diag_inv a a (S i) (scan_row 0 (length a) i m js st).
Proof.
  intros st Hi Hkey Hm Hdiag.
  set (p := λ j, match j with O => 0 | S j' => default 0 (m !! j') end).
  assert (∀ j, a !! j = Some x → p j + 1 ≤ run a a j) as F1.
  { intros j Hj. rewrite (run_key _ _ Hj Hkey). destruct j as [|j']; simpl; [lia|].
    destruct (m !! j') as [k|] eqn:Hl; simpl; [|lia].
    destruct (Hm _ _ Hl) as (_ & ? & _). lia. }
  assert (∀ j, p j + 1 ≤ run a a i) as F2.
  { intros j. rewrite (run_key _ _ Hi Hkey). destruct j as [|j']; simpl; [lia|].
    destruct (m !! j') as [k|] eqn:Hl; simpl; [|lia].
    destruct (Hm _ _ Hl) as (Hpos & _ & Hle).
    destruct i as [|i']; [lia|]. simpl in Hle. rewrite Nat.sub_0_r in Hle. lia. }
  assert (p i + 1 = run a a i) as F3.
  { rewrite (run_key _ _ Hi Hkey). destruct i as [|i']; simpl; [done|].
    specialize (Hdiag ltac:(lia)). simpl in Hdiag. rewrite Nat.sub_0_r in Hdiag. lia. }
  clear Hm Hdiag.
  revert st. induction js as [|j js IH]; intros st Hsorted Hjs Hd Hbest Hnew Hcase.
  - destruct Hcase as [Hin|(_ & Hrun & Hlook)]; [by apply elem_of_nil in Hin|].
    simpl. split_and!; simpl.
    + done.
    + intros j Hj. destruct (decide (j = i)) as [->|]; [done|]. apply Hbest. lia.
    + intros j k Hl. rewrite Nat.sub_0_r. destruct (Hnew _ _ Hl). split_and!; [lia|done..].
    + intros _. rewrite Nat.sub_0_r. by rewrite Hlook.
  - apply StronglySorted_inv in Hsorted as [Hsorted Hall].
    rewrite Forall_forall in Hall.
    destruct (Hjs j) as [Haj Hlt]; [by left|].
    cbn [scan_row]. replace (j <? 0) with false by done.
    replace (length a <=? j) with false by (symmetry; apply Nat.leb_gt; lia).
    change (match j with O => 0 | S j' => default 0 (m !! j') end) with (p j).
    assert (∀ j0 k0, <[j:=p j + 1]> st.2 !! j0 = Some k0
                     → k0 ≤ run a a j0 ∧ k0 ≤ run a a i) as Hnew'.
    { intros j0 k0. destruct (decide (j = j0)) as [<-|Hne].
      - rewrite lookup_insert_eq. intros [= <-]. split; [by apply F1|apply F2].
      - rewrite lookup_insert_ne by done. apply Hnew. }
    assert (∀ j0, j0 ∈ js → a !! j0 = Some x ∧ j0 < length a) as Hjs'.
    { intros j0 Hj0. apply Hjs. by right. }
    destruct (decide (j = i)) as [->|Hne].
    + (* the diagonal *)
      apply IH; simpl; [done|done| | |done|].
      * by destruct (bestsize st.1 <? p i + 1).
      * intros j0 Hj0. destruct (bestsize st.1 <? p i + 1) eqn:Hb; simpl.
        -- apply Nat.ltb_lt in Hb. specialize (Hbest _ Hj0). lia.
        -- by apply Hbest.
      * right. split_and!.
        -- intros j0 Hj0. by apply Hall.
        -- destruct (bestsize st.1 <? p i + 1) eqn:Hb; simpl; [lia|].
           apply Nat.ltb_ge in Hb. lia.
        -- rewrite lookup_insert_eq. by rewrite F3.
    + destruct Hcase as [Hin|(Hafter & Hrun & Hlook)].
      * (* before the diagonal *)
        apply elem_of_cons in Hin as [->|Hin]; [done|].
        assert (j < i) as Hji by (by apply Hall).
        assert ((bestsize st.1 <? p j + 1) = false) as ->.
        { apply Nat.ltb_ge. specialize (F1 _ Haj). specialize (Hbest _ Hji). lia. }
        apply IH; simpl; [done|done|done|done|done|by left].
      * (* behind the diagonal *)
        assert ((bestsize st.1 <? p j + 1) = false) as ->.
        { apply Nat.ltb_ge. specialize (F2 j). lia. }
        apply IH; simpl; [done|done|done|done|done|].
        right. split_and!; [|done|].
        -- intros j0 Hj0. apply Hafter. by right.
        -- by rewrite lookup_insert_ne.
Qed.

Lemma row_step_diag i st :
  i < length a → diag_inv a a i st → diag_inv a a (S i) (row_step a a 0 (length a) i st).
Proof.
  intros Hi Hinv. unfold row_step.
  destruct (lookup_lt_is_Some_2 a i Hi) as [x Hx]. rewrite Hx.
  destruct Hinv as (Hd & Hbest & Hm & Hdiag).
  destruct (is_key a x) eqn:Hkey.
  - unfold is_key in Hkey. apply bool_decide_eq_true in Hkey as Hsome.
    destruct Hsome as [js Hjs]. rewrite Hjs. simpl.
    apply b2j_lookup in Hjs as ->.
    apply (scan_row_diag i x); simpl; try done.
    + apply indices_sorted.
    + intros j Hj. apply indices_spec in Hj as [_ Hj]. rewrite Nat.sub_0_r in Hj.
      split; [done|]. by eapply lookup_lt_Some.
    + left. by apply (indices_elem x a 0 i).
  - assert (b2j a !! x = None) as ->.
    { unfold is_key in Hkey. apply bool_decide_eq_false in Hkey.
      by apply eq_None_not_Some. }
    simpl. pose proof (run_not_key _ _ Hx Hkey) as Hrun.
    split_and!; simpl.
    + done.
    + intros j Hj. destruct (decide (j = i)) as [->|]; [lia|]. apply Hbest. lia.
    + intros j k. by rewrite lookup_empty.
    + intros _. by rewrite Nat.sub_0_r, lookup_empty, Hrun.
Qed.

Lemma rows_diag n : ∀ i st,
  i + n ≤ length a → diag_inv a a i st →
  besti (rows a a 0 (length a) n i st).1 = bestj (rows a a 0 (length a) n i st).1.
Proof.
  induction n as [|n IH]; intros i st Hn Hinv; simpl.
  - by destruct Hinv.
  - apply IH; [lia|]. apply row_step_diag; [lia|done].
Qed.

Lemma junk_at_false j : junk_at a j = false.
Proof.
  unfold junk_at, isbjunk, bjunk. destruct (a !! j); [|done].
  apply bool_decide_eq_false, not_elem_of_empty.
Qed.

Lemma same_at_diag j : j < length a → same_at a a j j = true.
Proof.
  intros Hj. unfold same_at. destruct (lookup_lt_is_Some_2 a j Hj) as [x ->].
  by apply bool_decide_eq_true.
Qed.

Lemma extend_left_diag p : ∀ s,
  p + s ≤ length a → extend_left a a 0 0 false p (Best p p s) = Best 0 0 (s + p).
Proof.
  induction p as [|p IH]; intros s Hs; simpl.
  - by rewrite Nat.add_0_r.
  - rewrite Nat.sub_0_r, junk_at_false, same_at_diag by lia. simpl.
    rewrite IH by lia. f_equal. lia.
Qed.

Lemma extend_right_diag m : ∀ s,
  s + m = length a →
  extend_right a a (length a) (length a) false m (Best 0 0 s) = Best 0 0 (length a).
Proof.
  induction m as [|m IH]; intros s Hs; simpl.
  - f_equal. lia.
  - rewrite junk_at_false, same_at_diag by lia.
    replace (s <? length a) with true by (symmetry; apply Nat.ltb_lt; lia). simpl.
    apply IH. lia.
Qed.

(** The longest block of a sequence with itself is the whole sequence. *)
Lemma find_longest_match_self :
  find_longest_match a a 0 (length a) 0 (length a) = Best 0 0 (length a).
Proof.
  unfold find_longest_match. rewrite Nat.sub_0_r.
  set (st := rows a a 0 (length a) (length a) 0 (Best 0 0 0, ∅)).
  assert (besti st.1 = bestj st.1) as Hd.
  { apply rows_diag; [lia|]. split_and!; simpl; try done; lia. }
  assert (within 0 (length a) 0 (length a) st.1) as (_ & Hw & _ & _).
  { apply rows_within; simpl; [lia|lia| |].
    - unfold within. simpl. lia.
    - intros j k. by rewrite lookup_empty. }
  destruct st.1 as [p q s]. simpl in Hd, Hw. subst q. simpl.
  rewrite extend_left_diag by done. simpl.
  rewrite extend_right_diag by lia. simpl.
  by rewrite Nat.sub_diag.
Qed.

Lemma blocks_loop_nil fuel (blocks : list block) :
  blocks_loop a a fuel [] blocks = ([], blocks).
Proof. by destruct fuel. Qed.

Lemma matches_self : matches a a = length a.
Proof.
  rewrite matches_blocks_loop. unfold turns.
  replace (2 * length a + 2) with (S (2 * length a + 1)) by lia.
  cbn [blocks_loop]. rewrite find_longest_match_self. cbn [besti bestj bestsize].
  destruct (length a =? 0) eqn:Hn.
  - apply Nat.eqb_eq in Hn. by rewrite blocks_loop_nil, Hn.
  - rewrite Nat.add_0_l, !Nat.ltb_irrefl. cbn [andb].
    rewrite blocks_loop_nil. unfold sizes. simpl. lia.
Qed.

(** [SequenceMatcher(None, a, a).ratio()] is [1.0]. *)
Lemma ratio_self : (ratio a a == 1)%Q.
Proof.
  unfold ratio, _calculate_ratio. rewrite matches_self.
  destruct (length a + length a =? 0) eqn:Hl; [done|].
  apply Nat.eqb_neq in Hl.
  unfold Qeq. cbn [Qnum Qden]. rewrite (Zpos_of_nat _ Hl). lia.
Qed.

End self_match.

(** ** The title similarity score *)


Lemma overlap_sym s1 s2 : overlap s1 s2 = overlap s2 s1.
Proof.
  unfold overlap. rewrite orb_comm.
  assert (s1 ∩ s2 = s2 ∩ s1) as -> by apply (comm_L _).
  by assert (s1 ∪ s2 = s2 ∪ s1) as -> by apply (comm_L _).
Qed.

Lemma overlap_bounds s1 s2 : 0 <= overlap s1 s2 <= 1.
Proof.
  unfold overlap. destruct (_ || _); [split; discriminate|].
  destruct (0 <? size (s1 ∪ s2))%nat eqn:Hu; [|split; discriminate].
  apply Nat.ltb_lt in Hu.
  assert (size (s1 ∩ s2) ≤ size (s1 ∪ s2))%nat as Hle
    by (apply subseteq_size; etrans;
        [apply intersection_subseteq_l|apply union_subseteq_l]).
  unfold Qle. cbn [Qnum Qden]. rewrite Zpos_of_nat by lia. lia.
Qed.

Lemma overlap_self s : s ≠ ∅ → overlap s s == 1.
Proof.
  intros Hs. unfold overlap.
  rewrite bool_decide_eq_false_2 by done. simpl.
  assert (s ∩ s = s) as -> by apply (idemp_L _).
  assert (s ∪ s = s) as -> by apply (idemp_L _).
  assert (size s ≠ 0)%nat as Hn by (by intros ?%size_empty_inv%leibniz_equiv).
  replace (0 <? size s)%nat with true by (symmetry; apply Nat.ltb_lt; lia).
  unfold Qeq. cbn [Qnum Qden]. rewrite Zpos_of_nat by done. lia.
Qed.

Lemma similarity_bounds title1 title2 :
  0 <= _calculate_title_similarity title1 title2 <= 100.
Proof.
  unfold _calculate_title_similarity.
  pose proof (ratio_bounds (Str.chars title1) (Str.chars title2)) as Hr.
  pose proof (overlap_bounds (word_set title1) (word_set title2)) as Hw.
  pose proof (overlap_bounds (get_ngrams title1 3) (get_ngrams title2 3)) as Hg.
  lra.
Qed.


Lemma length_chars s : length (Str.chars s) = String.length s.
Proof. induction s as [|c s IH]; simpl; [done|]. by rewrite IH. Qed.

Lemma drop_while_head p l c r : Str.drop_while p l = c :: r → p c = false.
Proof.
  induction l as [|c' l IH]; simpl; [done|].
  destruct (p c') eqn:Hp; [done|]. by intros [= <- _].
Qed.

Lemma strip_by_has_word p l :
  Str.strip_by p l ≠ [] → ∃ c, c ∈ Str.strip_by p l ∧ p c = false.
Proof.
  unfold Str.strip_by.
  destruct (Str.drop_while p (rev (Str.drop_while p l))) as [|c r] eqn:Hd; [done|].
  intros _. exists c. split; [|by eapply drop_while_head].
  apply list_elem_of_In, in_rev. rewrite rev_involutive. by left.
Qed.

Lemma split_ws_nonempty l : ∀ cur,
  cur ≠ [] ∨ (∃ c, c ∈ l ∧ Str.isspace c = false) → Str.split_ws cur l ≠ [].
Proof.
  induction l as [|c l IH]; intros cur Hc; simpl.
  - destruct Hc as [Hc|(c & Hin & _)]; [by destruct cur|by apply elem_of_nil in Hin].
  - destruct (Str.isspace c) eqn:Hs.
    + destruct cur; [|done]. apply IH. right.
      destruct Hc as [Hc|(c' & Hin & Hc')]; [done|].
      apply elem_of_cons in Hin as [->|Hin]; [congruence|eauto].
    + apply IH. by left.
Qed.

(** A stripped string that is not empty has a word. *)
Lemma split_strip_nonempty s : Str.strip s ≠ "" → Str.split (Str.strip s) ≠ [].
Proof.
  unfold Str.strip, Str.split. intros Hne. rewrite chars_text.
  apply split_ws_nonempty. right. apply strip_by_has_word.
  intros Hnil. by rewrite Hnil in Hne.
Qed.

Lemma normalize_title_split t :
  _normalize_title t ≠ "" → Str.split (_normalize_title t) ≠ [].
Proof.
  unfold _normalize_title. destruct (isna t); [done|]. apply split_strip_nonempty.
Qed.

Lemma word_set_nonempty s : Str.split s ≠ [] → word_set s ≠ ∅.
Proof.
  unfold word_set. destruct (Str.split s) as [|w ws]; [done|]. intros _ Hempty.
  assert (w ∈ (list_to_set (w :: ws) : gset string)) as Hin
    by (apply elem_of_list_to_set; by left).
  rewrite Hempty in Hin. by apply not_elem_of_empty in Hin.
Qed.

Lemma get_ngrams_nonempty s : (3 ≤ String.length s)%nat → get_ngrams s 3 ≠ ∅.
Proof.
  unfold get_ngrams. rewrite length_chars. intros Hlen Hempty.
  set (f := λ i, Str.text (take 3 (drop i (Str.chars s)))) in *.
  assert (f O ∈ (list_to_set (f <$> seq 0 (String.length s + 1 - 3)) : gset string))
    as Hin.
  { apply elem_of_list_to_set, list_elem_of_fmap. exists O. split; [done|].
    apply elem_of_seq. lia. }
  rewrite Hempty in Hin. by apply not_elem_of_empty in Hin.
Qed.

(** C6, as amended.  The score lies between 0 and 100 for every pair of
    titles; its token and trigram parts are symmetric; and the score is
    symmetric whenever the sequence ratio of [difflib] is, which [difflib]
    does not promise. *)
Theorem title_similarity_bounded (title1 title2 : string) :
  0 <= _calculate_title_similarity title1 title2 <= 100
  ∧ overlap (word_set title1) (word_set title2)
    = overlap (word_set title2) (word_set title1)
  ∧ overlap (get_ngrams title1 3) (get_ngrams title2 3)
    = overlap (get_ngrams title2 3) (get_ngrams title1 3)
  ∧ (Difflib.ratio (Str.chars title1) (Str.chars title2)
     == Difflib.ratio (Str.chars title2) (Str.chars title1) →
     _calculate_title_similarity title1 title2
     == _calculate_title_similarity title2 title1).
Proof.
  split; [apply similarity_bounds|].
  split; [apply overlap_sym|]. split; [apply overlap_sym|].
  intros Hr. unfold _calculate_title_similarity.
  rewrite Hr, (overlap_sym (word_set title1)), (overlap_sym (get_ngrams title1 3)).
  reflexivity.
Qed.

(** A pair on which [difflib] finds the same blocks in both orders. *)
Lemma title_similarity_bounded_witness :
  _calculate_title_similarity "health systems" "health system"
  == _calculate_title_similarity "health system" "health systems".
Proof.
  apply (title_similarity_bounded "health systems" "health system").
  vm_compute. reflexivity.
Defined.

(** C6 as stated fails: [SequenceMatcher] finds one matching character
    from [tide] to [diet] and two from [diet] to [tide], so the scores are
    10 and 20. *)
Lemma title_similarity_not_symmetric :
  ¬ (∀ title1 title2,
       _calculate_title_similarity title1 title2
       == _calculate_title_similarity title2 title1
       ∧ 0 <= _calculate_title_similarity title1 title2 <= 100).
Proof.
  intros Hclaim. destruct (Hclaim "tide" "diet") as [Hsym _].
  vm_compute in Hsym. discriminate Hsym.
Qed.

(** C7, as amended.  The score of a normalised title with itself is 100
    when the title has three characters or more (so that it has a
    trigram). *)
Theorem title_similarity_self (t : pyval) :
  (3 ≤ String.length (_normalize_title t))%nat →
  _calculate_title_similarity (_normalize_title t) (_normalize_title t) == 100.
Proof.
  intros Hlen. set (a := _normalize_title t) in *.
  assert (a ≠ "") as Hne by (intros Ha; rewrite Ha in Hlen; simpl in Hlen; lia).
  unfold _calculate_title_similarity.
  rewrite ratio_self.
  rewrite (overlap_self (word_set a))
    by (apply word_set_nonempty, normalize_title_split; done).
  rewrite (overlap_self (get_ngrams a 3)) by (by apply get_ngrams_nonempty).
  reflexivity.
Qed.

(** The normalised form of [The Health Systems]. *)
Lemma title_similarity_self_witness :
  _calculate_title_similarity "health systems" "health systems" == 100.
Proof.
  apply (title_similarity_self (PyStr "The Health Systems")).
  vm_compute. lia.
Defined.

(** C7 as stated fails: the normalised title [hi] is not empty and has no
    trigram, and its score with itself is 70. *)
Lemma short_title_scores_70 :
  ¬ (∀ t, _normalize_title t ≠ "" →
       _calculate_title_similarity (_normalize_title t) (_normalize_title t) == 100).
Proof.
  intros Hclaim. specialize (Hclaim (PyStr "Hi") ltac:(vm_compute; discriminate)).
  vm_compute in Hclaim. discriminate Hclaim.
Qed.


(** * Further properties of the module *)

(** ** Characters and strings *)

Lemma lower_char_idemp c : Str.lower_char (Str.lower_char c) = Str.lower_char c.
Proof. by destruct c as [[] [] [] [] [] [] [] []]. Qed.

Lemma isspace_lower_char c : Str.isspace (Str.lower_char c) = Str.isspace c.
Proof. by destruct c as [[] [] [] [] [] [] [] []]. Qed.

Lemma isword_lower_char c : Str.isword (Str.lower_char c) = Str.isword c.
Proof. by destruct c as [[] [] [] [] [] [] [] []]. Qed.

Lemma isword_not_space c : Str.isword c = true → Str.isspace c = false.
Proof. by destruct c as [[] [] [] [] [] [] [] []]. Qed.

Lemma isdigit_doi_char c : Str.isdigit c = true → Re.is_doi_char c = true.
Proof. by destruct c as [[] [] [] [] [] [] [] []]. Qed.

Lemma doi_char_not_space c : Re.is_doi_char c = true → Str.isspace c = false.
Proof. by destruct c as [[] [] [] [] [] [] [] []]. Qed.

Lemma text_chars s : Str.text (Str.chars s) = s.
Proof. apply string_of_list_ascii_of_string. Qed.

Lemma text_inj l1 l2 : Str.text l1 = Str.text l2 → l1 = l2.
Proof. intros Heq. by rewrite <-(chars_text l1), <-(chars_text l2), Heq. Qed.

Lemma chars_lower s : Str.chars (Str.lower s) = map Str.lower_char (Str.chars s).
Proof. apply chars_text. Qed.

Lemma chars_strip s : Str.chars (Str.strip s) = Str.strip_by Str.isspace (Str.chars s).
Proof. apply chars_text. Qed.

Lemma drop_while_id p l :
  (∀ c r, l = c :: r → p c = false) → Str.drop_while p l = l.
Proof. destruct l as [|c r]; [done|]. intros Hh. simpl. by rewrite (Hh c r). Qed.

Lemma take_while_all p l : Forall (λ c, p c = true) l → Str.take_while p l = l.
Proof. induction 1 as [|c l Hc _ IH]; simpl; [done|]. by rewrite Hc, IH. Qed.

Lemma take_while_Forall p l : Forall (λ c, p c = true) (Str.take_while p l).
Proof.
  induction l as [|c l IH]; simpl; [constructor|].
  destruct (p c) eqn:Hc; by constructor.
Qed.

Lemma take_drop_while p l : Str.take_while p l ++ Str.drop_while p l = l.
Proof. induction l as [|c l IH]; simpl; [done|]. destruct (p c); simpl; by rewrite ?IH. Qed.

Lemma take_while_app_all p l1 l2 :
  Forall (λ c, p c = true) l1 → Str.take_while p (l1 ++ l2) = l1 ++ Str.take_while p l2.
Proof. induction 1 as [|c l Hc _ IH]; simpl; [done|]. by rewrite Hc, IH. Qed.

Lemma take_while_app_stop p l1 c l2 :
  Forall (λ c, p c = true) l1 → p c = false → Str.take_while p (l1 ++ c :: l2) = l1.
Proof. intros H1 Hc. rewrite take_while_app_all by done. simpl. by rewrite Hc, app_nil_r. Qed.

(** A list is trimmed when neither end satisfies [p]. *)
Lemma strip_by_trimmed p l :
  (∀ c r, l = c :: r → p c = false) → (∀ c r, rev l = c :: r → p c = false) →
  Str.strip_by p l = l.
Proof.
  intros Hh Hl. unfold Str.strip_by.
  rewrite (drop_while_id p l Hh), (drop_while_id p (rev l) Hl). apply rev_involutive.
Qed.

Lemma strip_by_ends p l :
  (∀ c r, Str.strip_by p l = c :: r → p c = false)
  ∧ (∀ c r, rev (Str.strip_by p l) = c :: r → p c = false).
Proof.
  unfold Str.strip_by. set (Y := Str.drop_while p l).
  destruct (drop_while_decomp p (rev Y)) as (pre & Hdec & Hpre).
  set (Z := Str.drop_while p (rev Y)) in *.
  split.
  - intros c r Hx.
    assert (Y = rev Z ++ rev pre) as HY.
    { rewrite <-rev_app_distr, <-Hdec. by rewrite rev_involutive. }
    rewrite Hx in HY. simpl in HY. subst Y. by eapply drop_while_head.
  - intros c r. rewrite rev_involutive. subst Z. apply drop_while_head.
Qed.

Lemma strip_by_idemp p l : Str.strip_by p (Str.strip_by p l) = Str.strip_by p l.
Proof. destruct (strip_by_ends p l). by apply strip_by_trimmed. Qed.

Lemma strip_idemp s : Str.strip (Str.strip s) = Str.strip s.
Proof. unfold Str.strip at 1 3. by rewrite chars_strip, strip_by_idemp. Qed.

Lemma lower_idemp s : Str.lower (Str.lower s) = Str.lower s.
Proof.
  unfold Str.lower at 1 3. rewrite chars_lower, map_map. f_equal.
  apply map_ext. intros c. apply lower_char_idemp.
Qed.

Lemma drop_while_map_lower l :
  Str.drop_while Str.isspace (map Str.lower_char l)
  = map Str.lower_char (Str.drop_while Str.isspace l).
Proof.
  induction l as [|c l IH]; simpl; [done|].
  rewrite isspace_lower_char. by destruct (Str.isspace c).
Qed.

Lemma lower_strip s : Str.lower (Str.strip s) = Str.strip (Str.lower s).
Proof.
  unfold Str.lower at 1, Str.strip at 2. rewrite chars_strip, chars_lower. f_equal.
  unfold Str.strip_by.
  by rewrite drop_while_map_lower, <-map_rev, drop_while_map_lower, map_rev.
Qed.

(** [doi_str] is lower-case and stripped. *)
Lemma doi_str_fixed d : Str.strip (Str.lower (doi_str d)) = doi_str d.
Proof. unfold doi_str. by rewrite lower_strip, lower_idemp, !strip_idemp. Qed.

(** ** [_normalize_doi] *)

Lemma drop_length_take_while p l :
  drop (length (Str.take_while p l)) l = Str.drop_while p l.
Proof. induction l as [|c l IH]; simpl; [done|]. by destruct (p c). Qed.

Lemma take_length_take_while p l :
  take (length (Str.take_while p l)) l = Str.take_while p l.
Proof. induction l as [|c l IH]; simpl; [done|]. destruct (p c); simpl; by rewrite ?IH. Qed.

Lemma take_while_sub (p q : ascii → bool) l :
  (∀ c, q c = true → p c = true) →
  Str.take_while p l = Str.take_while q l ++ Str.take_while p (Str.drop_while q l).
Proof.
  intros Hsub. rewrite <-(take_drop_while q l) at 1.
  apply take_while_app_all. eapply Forall_impl; [apply take_while_Forall|]. apply Hsub.
Qed.

Lemma take_while_take_while (p q : ascii → bool) l :
  (∀ c, q c = true → p c = true) →
  Str.take_while q (Str.take_while p l) = Str.take_while q l.
Proof.
  intros Hsub. induction l as [|c l IH]; simpl; [done|].
  destruct (p c) eqn:Hp; simpl.
  - destruct (q c); by rewrite ?IH.
  - destruct (q c) eqn:Hq; [|done]. apply Hsub in Hq. congruence.
Qed.

(** What the backtracking yields: the whole run of class characters behind
    [10.], when it has a fifth character. *)
Lemma backtrack_run rest :
  (4 ≤ length (Str.take_while Str.isdigit rest))%nat →
  Re.backtrack (length (Str.take_while Str.isdigit rest)) rest
  = if (5 <=? length (Str.take_while Re.is_doi_char rest))%nat
    then Some (Str.take_while Re.is_doi_char rest) else None.
Proof.
  intros Hd.
  rewrite (take_while_sub Re.is_doi_char Str.isdigit rest isdigit_doi_char).
  pose proof (drop_length_take_while Str.isdigit rest) as Hdrop.
  pose proof (take_length_take_while Str.isdigit rest) as Htake.
  pose proof (take_drop_while Str.isdigit rest) as Hsplit.
  pose proof (take_while_Forall Str.isdigit rest) as Hall.
  set (digits := Str.take_while Str.isdigit rest) in *.
  set (behind := Str.drop_while Str.isdigit rest) in *.
  destruct (length digits) as [|n'] eqn:Hn; [lia|].
  cbn [Re.backtrack]. rewrite Hdrop, Htake.
  destruct (Str.take_while Re.is_doi_char behind) as [|c tail] eqn:Htail.
  - rewrite app_nil_r, Hn.
    destruct (4 <=? n')%nat eqn:H4.
    + apply Nat.leb_le in H4.
      replace (5 <=? S n')%nat with true by (symmetry; apply Nat.leb_le; lia).
      assert (n' < length rest)%nat as Hlt.
      { rewrite <-Hsplit, length_app. lia. }
      destruct (lookup_lt_is_Some_2 rest n' Hlt) as [x Hx].
      assert (drop n' rest = x :: behind) as Hx2.
      { rewrite (drop_S _ _ _ Hx). by rewrite Hdrop. }
      assert (digits = take n' rest ++ [x]) as Hx1.
      { rewrite <-Htake. by erewrite take_S_r. }
      assert (Re.is_doi_char x = true) as Hxc.
      { apply isdigit_doi_char. rewrite Hx1 in Hall.
        by apply Forall_app in Hall as [_ [? _]%Forall_cons]. }
      destruct n' as [|n'']; [lia|]. cbn [Re.backtrack]. rewrite Hx2.
      simpl Str.take_while. rewrite Hxc, Htail. by rewrite Hx1.
    + apply Nat.leb_gt in H4.
      by replace (5 <=? S n')%nat with false by (symmetry; apply Nat.leb_gt; lia).
  - replace (5 <=? length (digits ++ c :: tail))%nat with true; [done|].
    symmetry. apply Nat.leb_le. rewrite length_app. simpl. lia.
Qed.

Lemma match_doi_run l :
  Re.match_doi l
  = match l with
    | "1"%char :: "0"%char :: "."%char :: rest =>
        if (4 <=? length (Str.take_while Str.isdigit rest))%nat
           && (5 <=? length (Str.take_while Re.is_doi_char rest))%nat
        then Some ("1"%char :: "0"%char :: "."%char :: Str.take_while Re.is_doi_char rest)
        else None
    | _ => None
    end.
Proof.
  destruct l as [|c1 l]; [done|]. destruct c1 as [[] [] [] [] [] [] [] []]; try done.
  destruct l as [|c2 l]; [done|]. destruct c2 as [[] [] [] [] [] [] [] []]; try done.
  destruct l as [|c3 rest]; [done|]. destruct c3 as [[] [] [] [] [] [] [] []]; try done.
  unfold Re.match_doi.
  destruct (4 <=? length (Str.take_while Str.isdigit rest))%nat eqn:H4; [|done].
  apply Nat.leb_le in H4. rewrite (backtrack_run rest H4), andb_true_l.
  generalize (5 <=? length (Str.take_while Re.is_doi_char rest))%nat. by intros [].
Qed.

Lemma search_head m l g : m l = Some g → Re.search m l = Some g.
Proof. intros Hm. destruct l; simpl; by rewrite Hm. Qed.

(** A match is a match of itself. *)
Lemma match_doi_self l g : Re.match_doi l = Some g → Re.match_doi g = Some g.
Proof.
  rewrite !match_doi_run.
  destruct l as [|c1 l]; [done|]. destruct c1 as [[] [] [] [] [] [] [] []]; try done.
  destruct l as [|c2 l]; [done|]. destruct c2 as [[] [] [] [] [] [] [] []]; try done.
  destruct l as [|c3 rest]; [done|]. destruct c3 as [[] [] [] [] [] [] [] []]; try done.
  destruct (_ && _) eqn:Hc; [|done]. intros [= <-].
  rewrite (take_while_take_while _ _ _ isdigit_doi_char).
  rewrite (take_while_all Re.is_doi_char (Str.take_while Re.is_doi_char rest))
    by apply take_while_Forall.
  by rewrite Hc.
Qed.

Lemma match_doi_chars l g :
  Re.match_doi l = Some g →
  ∃ run, g = "1"%char :: "0"%char :: "."%char :: run
         ∧ g `prefix_of` l
         ∧ Forall (λ c, Re.is_doi_char c = true) run
         ∧ (5 ≤ length run)%nat
         ∧ Forall (λ c, Str.isdigit c = true) (take 4 run).
Proof.
  rewrite match_doi_run.
  destruct l as [|c1 l]; [done|]. destruct c1 as [[] [] [] [] [] [] [] []]; try done.
  destruct l as [|c2 l]; [done|]. destruct c2 as [[] [] [] [] [] [] [] []]; try done.
  destruct l as [|c3 rest]; [done|]. destruct c3 as [[] [] [] [] [] [] [] []]; try done.
  destruct (_ && _) eqn:Hc; [|done]. intros [= <-].
  apply andb_true_iff in Hc as [H4%Nat.leb_le H5%Nat.leb_le].
  exists (Str.take_while Re.is_doi_char rest). split_and!; [done| |apply take_while_Forall|done|].
  - do 3 apply prefix_cons. exists (Str.drop_while Re.is_doi_char rest).
    by rewrite take_drop_while.
  - rewrite (take_while_sub Re.is_doi_char Str.isdigit rest isdigit_doi_char).
    rewrite take_app_le by done. apply Forall_take, take_while_Forall.
Qed.

(** The two resolver patterns never decide: the result is the first match
    of the bare pattern, or [doi_str]. *)
Lemma normalize_doi_first_pattern d :
  _normalize_doi d
  = if isna d then ""
    else match Re.search Re.match_doi (Str.chars (doi_str d)) with
         | Some g => Str.text g
         | None => doi_str d
         end.
Proof.
  unfold _normalize_doi. destruct (isna d); [done|].
  destruct (Re.search Re.match_doi _) eqn:Hs; [done|].
  by rewrite !search_prefixed_None.
Qed.

Lemma elem_of_drop_while p c l : c ∈ Str.drop_while p l → c ∈ l.
Proof.
  destruct (drop_while_decomp p l) as (pre & Hdec & _). intros Hc.
  rewrite Hdec. apply elem_of_app. by right.
Qed.

Lemma elem_of_strip_by p c l : c ∈ Str.strip_by p l → c ∈ l.
Proof.
  unfold Str.strip_by. intros Hc.
  apply list_elem_of_In, in_rev, list_elem_of_In, elem_of_drop_while in Hc.
  by apply list_elem_of_In, in_rev, list_elem_of_In, elem_of_drop_while in Hc.
Qed.

Lemma doi_str_lower_fixed d : Forall (λ c, Str.lower_char c = c) (Str.chars (doi_str d)).
Proof.
  unfold doi_str. rewrite chars_strip, chars_lower.
  apply Forall_forall. intros c Hc%elem_of_strip_by.
  apply list_elem_of_fmap in Hc as (c' & -> & _). apply lower_char_idemp.
Qed.

Lemma map_fixed (f : ascii → ascii) l : Forall (λ c, f c = c) l → map f l = l.
Proof. induction 1 as [|c l Hc _ IH]; simpl; [done|]. by rewrite Hc, IH. Qed.

(** A match found in [doi_str] is lower-case and has no whitespace. *)
Lemma match_in_doi_str d g :
  Re.search Re.match_doi (Str.chars (doi_str d)) = Some g →
  Re.match_doi g = Some g ∧ Str.strip (Str.lower (Str.text g)) = Str.text g.
Proof.
  intros Hs. apply search_found in Hs as (l' & Hsuf & Hm).
  split; [by eapply match_doi_self|].
  destruct (match_doi_chars _ _ Hm) as (run & Hg & Hpre & Hrun & Hlen & _).
  assert (Forall (λ c, Str.lower_char c = c) g) as Hlow.
  { apply Forall_forall. intros c Hc.
    pose proof (doi_str_lower_fixed d) as Hall. rewrite Forall_forall in Hall. apply Hall.
    destruct Hsuf as [k ->]. apply elem_of_app. right.
    destruct Hpre as [k' ->]. apply elem_of_app. by left. }
  unfold Str.lower, Str.strip. rewrite !chars_text, (map_fixed _ _ Hlow). f_equal.
  apply strip_by_trimmed.
  - intros c r Hcr. rewrite Hg in Hcr. by injection Hcr as <- _.
  - intros c r Hcr. rewrite Hg in Hcr.
    assert (c ∈ run) as Hin.
    { destruct run as [|x run0 _] using rev_ind; [simpl in Hlen; lia|].
      change ("1"%char :: "0"%char :: "."%char :: run0 ++ [x])
        with (["1"%char; "0"%char; "."%char] ++ run0 ++ [x]) in Hcr.
      rewrite !rev_app_distr in Hcr. simpl in Hcr. injection Hcr as <- _.
      apply elem_of_app. right. by left. }
    rewrite Forall_forall in Hrun. by apply doi_char_not_space, Hrun.
Qed.

(** X1.  [_normalize_doi] is idempotent: normalising a normalised DOI
    changes nothing, whatever the input cell was. *)
Theorem normalize_doi_idempotent (d : pyval) :
  _normalize_doi (PyStr (_normalize_doi d)) = _normalize_doi d.
Proof.
  rewrite (normalize_doi_first_pattern d).
  destruct (isna d); [done|].
  destruct (Re.search Re.match_doi (Str.chars (doi_str d))) as [g|] eqn:Hs.
  - destruct (match_in_doi_str _ _ Hs) as [Hself Hfix].
    rewrite normalize_doi_first_pattern. simpl isna. cbv iota.
    unfold doi_str. simpl py_str. rewrite Hfix, chars_text.
    by rewrite (search_head _ _ _ Hself).
  - rewrite normalize_doi_first_pattern. simpl isna. cbv iota.
    unfold doi_str at 1 3. simpl py_str. rewrite !doi_str_fixed. by rewrite Hs.
Qed.

(** X2.  A normalised DOI is always lower-case and stripped; when a
    DOI-like substring was found, it is [10.], four digits, and at least
    one more character, all of them digits, letters, [_], [/], [.] or [-]
    (so it holds no whitespace). *)
Theorem normalize_doi_shape (d : pyval) :
  Str.strip (Str.lower (_normalize_doi d)) = _normalize_doi d
  ∧ (isna d = false →
     Re.search Re.match_doi (Str.chars (doi_str d)) ≠ None →
     ∃ run, Str.chars (_normalize_doi d) = "1"%char :: "0"%char :: "."%char :: run
            ∧ (5 ≤ length run)%nat
            ∧ Forall (λ c, Str.isdigit c = true) (take 4 run)
            ∧ Forall (λ c, Re.is_doi_char c = true ∧ Str.isspace c = false) run).
Proof.
  rewrite normalize_doi_first_pattern. split.
  - destruct (isna d); [done|].
    destruct (Re.search Re.match_doi (Str.chars (doi_str d))) as [g|] eqn:Hs.
    + by apply match_in_doi_str in Hs as [_ ?].
    + apply doi_str_fixed.
  - intros -> Hsome.
    destruct (Re.search Re.match_doi (Str.chars (doi_str d))) as [g|] eqn:Hs; [|done].
    apply search_found in Hs as (l' & _ & Hm).
    destruct (match_doi_chars _ _ Hm) as (run & -> & _ & Hrun & Hlen & Hdig).
    exists run. rewrite chars_text. split_and!; [done..|].
    eapply Forall_impl; [exact Hrun|]. intros c Hc. split; [done|].
    by apply doi_char_not_space.
Qed.

(** A DOI behind a resolver address. *)
Lemma normalize_doi_shape_witness :
  ∃ run, Str.chars (_normalize_doi (PyStr "https://dx.doi.org/10.1377/HLTHAFF.2020"))
         = "1"%char :: "0"%char :: "."%char :: run
         ∧ (5 ≤ length run)%nat.
Proof.
  destruct (normalize_doi_shape (PyStr "https://dx.doi.org/10.1377/HLTHAFF.2020"))
    as [_ Hshape].
  destruct Hshape as (run & Hrun & Hlen & _).
  - reflexivity.
  - vm_compute. discriminate.
  - exists run. split; assumption.
Defined.

Lemma chars_app s1 s2 : Str.chars (s1 +:+ s2) = Str.chars s1 ++ Str.chars s2.
Proof. induction s1 as [|c s1 IH]; simpl; [done|]. by rewrite <-IH. Qed.

Lemma lower_char_one c : Str.lower_char c = "1"%char → c = "1"%char.
Proof. by destruct c as [[] [] [] [] [] [] [] []]. Qed.

Lemma match_doi_head c l g : Re.match_doi (c :: l) = Some g → c = "1"%char.
Proof. destruct c as [[] [] [] [] [] [] [] []]; done. Qed.

Lemma search_skip q g :
  Forall (λ c, c ≠ "1"%char) q → Re.match_doi g = Some g →
  Re.search Re.match_doi (q ++ g) = Some g.
Proof.
  intros Hq Hg. induction Hq as [|c q Hc _ IH]; simpl app.
  - by apply search_head.
  - change (Re.search Re.match_doi (c :: q ++ g))
      with (match Re.match_doi (c :: q ++ g) with
            | Some g0 => Some g0
            | None => Re.search Re.match_doi (q ++ g)
            end).
    destruct (Re.match_doi (c :: q ++ g)) as [g0|] eqn:Hm; [|exact IH].
    by apply match_doi_head in Hm.
Qed.

Lemma drop_while_app_stop p l1 c l2 :
  p c = false → ∃ q, Str.drop_while p (l1 ++ c :: l2) = q ++ c :: l2 ∧ q `suffix_of` l1.
Proof.
  intros Hc. induction l1 as [|x l1 (q & Hq & Hsuf)]; simpl.
  - rewrite Hc. by exists [].
  - destruct (p x).
    + exists q. split; [done|]. by apply suffix_cons_r.
    + by exists (x :: l1).
Qed.

(** X3.  A complete DOI is found behind any text that holds no [1]: with
    [g] a string that the pattern matches whole once lower-cased, and [p]
    a prefix such as [https://doi.org/] or [DOI: ], the value for [p + g]
    is the lower-cased [g], the value for [g] alone. *)
Theorem normalize_doi_behind_prefix (p g : string) :
  Forall (λ c, c ≠ "1"%char) (Str.chars p) →
  Re.match_doi (Str.chars (Str.lower g)) = Some (Str.chars (Str.lower g)) →
  _normalize_doi (PyStr (p +:+ g)) = Str.lower g
  ∧ _normalize_doi (PyStr g) = Str.lower g.
Proof.
  intros Hp Hg.
  assert (∀ p, Forall (λ c, c ≠ "1"%char) (Str.chars p) →
               _normalize_doi (PyStr (p +:+ g)) = Str.lower g) as Hall.
  { clear p Hp. intros p Hp.
    rewrite normalize_doi_first_pattern. simpl isna. cbv iota.
    destruct (match_doi_chars _ _ Hg) as (run & Hrun & _ & Hclass & Hlen & _).
    set (G := Str.chars (Str.lower g)) in *.
    assert (∃ q, Str.chars (doi_str (PyStr (p +:+ g))) = q ++ G
                 ∧ Forall (λ c, c ≠ "1"%char) q) as (q & Hq & Hq1).
    { unfold doi_str. simpl py_str. rewrite chars_strip, chars_lower, chars_app, map_app.
      rewrite <-(chars_lower g). fold G. unfold Str.strip_by.
      destruct (drop_while_app_stop Str.isspace (map Str.lower_char (Str.chars p))
                  "1"%char ("0"%char :: "."%char :: run)) as (q & Hq & Hsuf); [done|].
      rewrite <-Hrun in Hq. rewrite Hq. exists q. split.
      - rewrite drop_while_id; [apply rev_involutive|].
        intros c r Hcr. rewrite rev_app_distr, Hrun in Hcr.
        destruct run as [|x run0 _] using rev_ind; [simpl in Hlen; lia|].
        change ("1"%char :: "0"%char :: "."%char :: run0 ++ [x])
          with (["1"%char; "0"%char; "."%char] ++ run0 ++ [x]) in Hcr.
        rewrite !rev_app_distr in Hcr. simpl in Hcr. injection Hcr as <- _.
        apply doi_char_not_space.
        by apply Forall_app in Hclass as [_ [? _]%Forall_cons].
      - apply Forall_forall. intros c Hc Hone. subst c.
        destruct Hsuf as [k Hk].
        assert ("1"%char ∈ map Str.lower_char (Str.chars p)) as Hin.
        { rewrite Hk. apply elem_of_app. by right. }
        apply list_elem_of_fmap in Hin as (c' & Hc' & Hin).
        symmetry in Hc'. apply lower_char_one in Hc'. subst c'.
        rewrite Forall_forall in Hp. by apply (Hp _ Hin). }
    rewrite Hq, (search_skip q G Hq1 Hg). apply text_chars. }
  split; [by apply Hall|].
  specialize (Hall "" ltac:(constructor)). exact Hall.
Qed.

(** The three spellings that the module's own test normalises. *)
Lemma normalize_doi_behind_prefix_witness :
  _normalize_doi (PyStr "https://doi.org/10.1234/test") = "10.1234/test"
  ∧ _normalize_doi (PyStr "DOI: 10.1234/test") = "10.1234/test"
  ∧ _normalize_doi (PyStr "10.1234/test") = "10.1234/test".
Proof.
  split; [|split].
  - apply (normalize_doi_behind_prefix "https://doi.org/" "10.1234/test").
    + vm_compute. repeat constructor; discriminate.
    + vm_compute. reflexivity.
  - apply (normalize_doi_behind_prefix "DOI: " "10.1234/test").
    + vm_compute. repeat constructor; discriminate.
    + vm_compute. reflexivity.
  - apply (normalize_doi_behind_prefix "" "10.1234/test").
    + constructor.
    + vm_compute. reflexivity.
Defined.

(** ** [_normalize_title] *)

Lemma split_ws_words (Q : ascii → Prop) l : ∀ cur,
  Forall Q l → Forall (λ c, Q c ∧ Str.isspace c = false) cur →
  Forall (λ w, Str.chars w ≠ [] ∧ Forall (λ c, Q c ∧ Str.isspace c = false) (Str.chars w))
    (Str.split_ws cur l).
Proof.
  assert (∀ cur, cur ≠ [] → Forall (λ c, Q c ∧ Str.isspace c = false) cur →
            Str.chars (Str.text (rev cur)) ≠ []
            ∧ Forall (λ c, Q c ∧ Str.isspace c = false) (Str.chars (Str.text (rev cur))))
    as Hword.
  { intros cur Hne Hcur. rewrite chars_text. split.
    - intros Hnil. apply (f_equal (@rev _)) in Hnil. by rewrite rev_involutive in Hnil.
    - apply Forall_forall. intros c Hc. rewrite Forall_forall in Hcur. apply Hcur.
      by apply list_elem_of_In, in_rev, list_elem_of_In. }
  induction l as [|c l IH]; intros cur Hl Hcur; simpl.
  - destruct cur as [|x cur]; [constructor|]. constructor; [|constructor].
    by apply Hword.
  - apply Forall_cons in Hl as [Hc Hl]. destruct (Str.isspace c) eqn:Hs.
    + destruct cur as [|x cur]; [by apply IH|].
      constructor; [by apply Hword|]. by apply IH.
    + apply IH; [done|]. by constructor.
Qed.

Lemma split_ws_token_app w rest : ∀ cur,
  Forall (λ c, Str.isspace c = false) w →
  Str.split_ws cur (w ++ rest) = Str.split_ws (rev w ++ cur) rest.
Proof.
  induction w as [|c w IH]; intros cur Hw; [done|].
  apply Forall_cons in Hw as [Hc Hw]. simpl. rewrite Hc, IH by done.
  by rewrite <-app_assoc.
Qed.

Lemma chars_join_cons w w' ws :
  Str.chars (Str.join (w :: w' :: ws))
  = Str.chars w ++ " "%char :: Str.chars (Str.join (w' :: ws)).
Proof. change (Str.join (w :: w' :: ws)) with (w +:+ " " +:+ Str.join (w' :: ws)).
  by rewrite !chars_app. Qed.

Lemma split_ws_space cur rest :
  cur ≠ [] → Str.split_ws cur (" "%char :: rest) = Str.text (rev cur) :: Str.split_ws [] rest.
Proof. by destruct cur. Qed.

Lemma split_ws_end cur : cur ≠ [] → Str.split_ws cur [] = [Str.text (rev cur)].
Proof. by destruct cur. Qed.

Lemma rev_nonempty (l : list ascii) : l ≠ [] → rev l ≠ [].
Proof.
  intros Hne Hr. apply (f_equal (@rev _)) in Hr. by rewrite rev_involutive in Hr.
Qed.

(** Splitting the join of words gives the words back. *)
Lemma split_join ws : Forall is_token ws → Str.split (Str.join ws) = ws.
Proof.
  unfold Str.split. induction 1 as [|w ws [Hne Hw] Hws IH]; [done|].
  destruct ws as [|w' ws].
  - change (Str.join [w]) with w.
    rewrite <-(app_nil_r (Str.chars w)), split_ws_token_app by done.
    rewrite app_nil_r, split_ws_end by (by apply rev_nonempty).
    by rewrite rev_involutive, text_chars.
  - rewrite chars_join_cons, split_ws_token_app by done.
    rewrite app_nil_r, split_ws_space by (by apply rev_nonempty).
    by rewrite rev_involutive, text_chars, IH.
Qed.

Lemma chars_join_nonempty w ws : Str.chars w ≠ [] → Str.chars (Str.join (w :: ws)) ≠ [].
Proof.
  intros Hne. destruct ws as [|w' ws]; [done|].
  rewrite chars_join_cons. by destruct (Str.chars w).
Qed.

Lemma join_ends ws :
  Forall is_token ws →
  (∀ c r, Str.chars (Str.join ws) = c :: r → Str.isspace c = false)
  ∧ (∀ c r, rev (Str.chars (Str.join ws)) = c :: r → Str.isspace c = false).
Proof.
  induction 1 as [|w ws [Hne Hw] Hws [IH1 IH2]]; [done|].
  destruct ws as [|w' ws].
  - change (Str.join [w]) with w. split; intros c r Hcr.
    + rewrite Hcr in Hw. by apply Forall_cons in Hw as [? _].
    + assert (c ∈ Str.chars w) as Hin.
      { apply list_elem_of_In, in_rev, list_elem_of_In. rewrite Hcr. by left. }
      rewrite Forall_forall in Hw. by apply Hw.
  - rewrite chars_join_cons. split; intros c r Hcr.
    + destruct (Str.chars w) as [|x l]; [done|]. injection Hcr as <- _.
      by apply Forall_cons in Hw as [? _].
    + rewrite rev_app_distr in Hcr.
      change (rev (" "%char :: Str.chars (Str.join (w' :: ws))))
        with (rev (Str.chars (Str.join (w' :: ws))) ++ [" "%char]) in Hcr.
      apply Forall_cons in Hws as [[Hne' _] _].
      pose proof (rev_nonempty _ (chars_join_nonempty w' ws Hne')) as Hr.
      destruct (rev (Str.chars (Str.join (w' :: ws)))) as [|x l] eqn:Hrev; [done|].
      injection Hcr as <- _. by eapply IH2.
Qed.

Lemma strip_join ws : Forall is_token ws → Str.strip (Str.join ws) = Str.join ws.
Proof.
  intros Hws. destruct (join_ends ws Hws) as [Hh Hl].
  unfold Str.strip. rewrite strip_by_trimmed by done. apply text_chars.
Qed.

Lemma sub_spaces_token_app w rest in_run :
  w ≠ [] → Forall (λ c, Str.isspace c = false) w →
  Re.sub_spaces in_run (w ++ rest) = w ++ Re.sub_spaces false rest.
Proof.
  intros Hne Hw. revert in_run. induction Hw as [|c w Hc Hw IH]; intros in_run; [done|].
  simpl. rewrite Hc. f_equal. destruct w as [|c' w]; [done|]. by apply IH.
Qed.

Lemma sub_spaces_join ws :
  Forall is_token ws →
  Re.sub_spaces false (Str.chars (Str.join ws)) = Str.chars (Str.join ws).
Proof.
  induction 1 as [|w ws [Hne Hw] Hws IH]; [done|].
  destruct ws as [|w' ws].
  - simpl Str.join. rewrite <-(app_nil_r (Str.chars w)) at 1.
    rewrite sub_spaces_token_app by done. simpl. apply app_nil_r.
  - rewrite chars_join_cons, sub_spaces_token_app by done. f_equal.
    change (Re.sub_spaces false (" "%char :: Str.chars (Str.join (w' :: ws))))
      with (" "%char :: Re.sub_spaces true (Str.chars (Str.join (w' :: ws)))).
    f_equal. apply Forall_cons in Hws as [[Hne' Hw'] Hws].
    destruct ws as [|w'' ws].
    + simpl Str.join. rewrite <-(app_nil_r (Str.chars w')) at 1.
      rewrite sub_spaces_token_app by done. simpl. apply app_nil_r.
    + rewrite chars_join_cons in IH |- *.
      rewrite sub_spaces_token_app in IH |- * by done. done.
Qed.

Lemma Forall_chars_join (Q : ascii → Prop) ws :
  Q " "%char → Forall (λ w, Forall Q (Str.chars w)) ws → Forall Q (Str.chars (Str.join ws)).
Proof.
  intros Hsp. induction 1 as [|w ws Hw Hws IH]; [constructor|].
  destruct ws as [|w' ws]; [done|].
  rewrite chars_join_cons. apply Forall_app. split; [done|]. by constructor.
Qed.

Lemma sub_spaces_Forall (Q : ascii → Prop) l : ∀ b,
  Q " "%char → Forall Q l → Forall Q (Re.sub_spaces b l).
Proof.
  intros b Hsp Hl. revert b. induction Hl as [|c l Hc Hl IH]; intros b; simpl; [constructor|].
  destruct (Str.isspace c); [destruct b|]; try constructor; auto.
Qed.

Lemma title_words_good t :
  Forall (λ w, (w ∉ stop_words) ∧ Str.chars w ≠ []
               ∧ Forall (λ c, Str.isword c = true ∧ Str.lower_char c = c) (Str.chars w))
    (title_words t).
Proof.
  unfold title_words.
  set (Q := λ c, (Str.isword c = true ∨ Str.isspace c = true) ∧ Str.lower_char c = c).
  assert (Forall Q (Re.sub_spaces false
            (Str.chars (Str.text (Re.sub_punct (Str.chars (Str.lower (py_str t))))))))
    as HQ.
  { apply sub_spaces_Forall; [split; [by right|done]|].
    rewrite chars_text, chars_lower. unfold Re.sub_punct.
    apply Forall_forall. intros c Hc.
    apply list_elem_of_fmap in Hc as (c1 & -> & Hc1).
    apply list_elem_of_fmap in Hc1 as (c0 & -> & _).
    destruct (Str.isword (Str.lower_char c0)) eqn:Hw; simpl.
    - split; [by left|apply lower_char_idemp].
    - destruct (Str.isspace (Str.lower_char c0)) eqn:Hs.
      + split; [by right|apply lower_char_idemp].
      + split; [by right|done]. }
  apply Forall_forall. intros w Hw.
  apply list_elem_of_filter in Hw as [Hstop Hw]. split; [done|].
  unfold Str.split in Hw. rewrite chars_text in Hw.
  pose proof (split_ws_words Q _ [] HQ ltac:(constructor)) as Hall.
  rewrite Forall_forall in Hall. destruct (Hall w Hw) as [Hne Hcs]. split; [done|].
  eapply Forall_impl; [exact Hcs|]. intros c [[[?|?] ?] ?]; [done|congruence].
Qed.

Lemma title_words_tokens t : Forall is_token (title_words t).
Proof.
  eapply Forall_impl; [apply title_words_good|]. intros w (_ & Hne & Hcs). split; [done|].
  eapply Forall_impl; [exact Hcs|]. intros c [Hw _]. by apply isword_not_space.
Qed.

Lemma normalize_title_join t :
  _normalize_title t = if isna t then "" else Str.join (title_words t).
Proof.
  unfold _normalize_title. destruct (isna t); [done|].
  apply strip_join, title_words_tokens.
Qed.

(** X4.  A normalised title is the single-space join of its own words, and
    each of these words is non-empty, is no stop word, and holds only
    lower-case word characters (letters, digits, [_]): no punctuation, no
    doubled or outer blank is left. *)
Theorem normalize_title_canonical (t : pyval) :
  _normalize_title t = Str.join (Str.split (_normalize_title t))
  ∧ Forall (λ w, (w ∉ stop_words) ∧ w ≠ ""
                 ∧ Forall (λ c, Str.isword c = true ∧ Str.lower_char c = c) (Str.chars w))
      (Str.split (_normalize_title t)).
Proof.
  rewrite normalize_title_join. destruct (isna t); [by split; [|constructor]|].
  rewrite (split_join _ (title_words_tokens t)). split; [done|].
  eapply Forall_impl; [apply title_words_good|]. intros w (? & Hne & ?).
  split_and!; [done| |done]. intros ->. done.
Qed.

(** X5.  [_normalize_title] is idempotent. *)
Theorem normalize_title_idempotent (t : pyval) :
  _normalize_title (PyStr (_normalize_title t)) = _normalize_title t.
Proof.
  rewrite (normalize_title_join t). destruct (isna t); [done|].
  pose proof (title_words_good t) as Hgood. pose proof (title_words_tokens t) as Htok.
  set (ws := title_words t) in *.
  rewrite normalize_title_join. simpl isna. cbv iota. f_equal.
  unfold title_words. simpl py_str.
  assert (Str.lower (Str.join ws) = Str.join ws) as ->.
  { unfold Str.lower. rewrite map_fixed; [apply text_chars|].
    apply Forall_chars_join; [done|].
    eapply Forall_impl; [exact Hgood|]. intros w (_ & _ & Hcs).
    eapply Forall_impl; [exact Hcs|]. by intros c [_ ?]. }
  assert (Re.sub_punct (Str.chars (Str.join ws)) = Str.chars (Str.join ws)) as ->.
  { unfold Re.sub_punct. apply map_fixed.
    apply (Forall_chars_join (λ c, (if Str.isword c || Str.isspace c then c else " "%char) = c));
      [done|].
    eapply Forall_impl; [exact Hgood|]. intros w (_ & _ & Hcs).
    eapply Forall_impl; [exact Hcs|]. intros c [-> _]. done. }
  rewrite text_chars, (sub_spaces_join _ Htok), text_chars, (split_join _ Htok).
  clear Htok. induction Hgood as [|w ws' (Hstop & _) _ IH]; [done|].
  rewrite filter_cons, decide_True by done. by rewrite IH.
Qed.
(** ** [_extract_first_author] *)

Lemma split_nil_iff l :
  Str.split_ws [] l = [] ↔ Forall (λ c, Str.isspace c = true) l.
Proof.
  split.
  - intros Hnil. apply Forall_forall. intros c Hin.
    destruct (Str.isspace c) eqn:Hc; [done|]. exfalso.
    apply (split_ws_nonempty l []); [|done]. right. eauto.
  - intros Hall. by rewrite split_ws_spaces.
Qed.

Lemma contains_false sep s :
  Forall (λ c, c ≠ sep) (Str.chars s) → Str.contains sep s = false.
Proof.
  unfold Str.contains. induction 1 as [|c l Hc _ IH]; simpl; [done|].
  rewrite IH, orb_false_r. apply Ascii.eqb_neq. congruence.
Qed.

Lemma last_split_token s :
  Forall (λ c, Str.isspace c = false) (Str.chars (last_or_empty (Str.split s))).
Proof.
  unfold last_or_empty, Str.split.
  assert (Forall (λ w, Forall (λ c, Str.isspace c = false) (Str.chars w))
            (Str.split_ws [] (Str.chars s))) as Hws.
  { eapply Forall_impl.
    - apply (split_ws_words (λ _, True)); [by apply Forall_true|constructor].
    - intros w [_ Hw]. eapply Forall_impl; [exact Hw|]. by intros c [_ ?]. }
  induction Hws as [|w ws Hw _ IH]; [constructor|].
  destruct ws; [exact Hw|exact IH].
Qed.

(** The cells on which [_extract_first_author] raises. *)
Lemma extract_first_author_blank_iff (authors : pyval) :
  match _extract_first_author authors with
  | Ok name => ¬ blank authors
  | Raise e => e = IndexError ∧ blank authors
  end.
Proof.
  pose proof (extract_first_author_refines authors) as Href.
  destruct (_extract_first_author authors) as [name|e] eqn:He.
  - intros [Hne Hblank]. unfold _extract_first_author in He.
    destruct authors as [s| |z]; [|by inversion Hblank|]; simpl in *.
    all: rewrite !contains_false in He
      by (eapply Forall_impl; [exact Hblank|]; by intros c Hc ->).
    all: simpl in He; apply split_nil_iff in Hblank; unfold Str.split in He;
      rewrite Hblank in He.
    + by destruct s.
    + by destruct (Str.of_Z z).
  - destruct Href as (-> & Hsplit & Hne). split; [done|]. split; [done|].
    by apply split_nil_iff.
Qed.

(** X6.  [_extract_first_author] raises nothing but [IndexError], and it
    raises exactly on the cells whose text is not empty and holds only
    whitespace.  On every other cell it returns a surname without
    whitespace in it, possibly the empty one. *)
Theorem extract_first_author_raises (authors : pyval) :
  match _extract_first_author authors with
  | Ok name =>
      ¬ blank authors ∧ Forall (λ c, Str.isspace c = false) (Str.chars name)
  | Raise e =>
      e = IndexError ∧ blank authors
  end.
Proof.
  pose proof (extract_first_author_blank_iff authors) as Hblank.
  pose proof (extract_first_author_refines authors) as Href.
  destruct (_extract_first_author authors) as [name|e]; [|done].
  split; [done|]. subst name. unfold extract_first_author_surname.
  destruct (isna authors); [constructor|]. apply last_split_token.
Qed.

(** ** [__init__] and [_prepare_reference_data] *)

Lemma prepare_rows_spec refs :
  match prepare_rows refs with
  | Ok rows =>
      Forall (λ r, ¬ blank (Authors_Standardized r)) refs
      ∧ Forall2 (λ r row, source row = r
                          ∧ doi_normalized row = _normalize_doi (DOI_URL r)
                          ∧ title_normalized row = _normalize_title (Title r)
                          ∧ _extract_first_author (Authors_Standardized r)
                            = Ok (first_author row))
          refs rows
  | Raise e => e = IndexError ∧ Exists (λ r, blank (Authors_Standardized r)) refs
  end.
Proof.
  induction refs as [|r refs IH]; simpl; [by split; constructor|].
  unfold prepare_row. unbind.
  pose proof (extract_first_author_blank_iff (Authors_Standardized r)) as Hnb.
  destruct (_extract_first_author (Authors_Standardized r)) as [fa|e] eqn:Hr.
  - destruct (prepare_rows refs) as [rows|e].
    + destruct IH as [Hall Hrows].
      split; constructor; done.
    + destruct IH as [-> Hex]. split; [done|]. by apply Exists_cons_tl.
  - destruct Hnb as [-> Hb]. split; [done|]. by apply Exists_cons_hd.
Qed.

(** X7.  The constructor fails exactly when some row of the reference
    table has an author cell that is blank (not empty, only whitespace),
    and then with [IndexError]; otherwise [reference_df] holds the rows of
    the table in their order, each with its three derived columns, and the
    thresholds are those of the configuration. *)
Theorem init_raises_on_blank_authors (reference_csv : list reference) (cfg : thresholds) :
  match __init__ reference_csv cfg with
  | Ok self =>
      Forall (λ r, ¬ blank (Authors_Standardized r)) reference_csv
      ∧ match_thresholds self = cfg
      ∧ Forall2 (λ r row, source row = r
                          ∧ doi_normalized row = _normalize_doi (DOI_URL r)
                          ∧ title_normalized row = _normalize_title (Title r)
                          ∧ _extract_first_author (Authors_Standardized r)
                            = Ok (first_author row))
          reference_csv (reference_df self)
  | Raise e =>
      e = IndexError ∧ Exists (λ r, blank (Authors_Standardized r)) reference_csv
  end.
Proof.
  unfold __init__. unbind. pose proof (prepare_rows_spec reference_csv) as Hrows.
  destruct (prepare_rows reference_csv) as [rows|e]; [|done].
  destruct Hrows as [Hall Hrows]. done.
Qed.

(** What [__init__] returns, as a record of the prepared rows. *)
Lemma init_rows reference_csv cfg self :
  __init__ reference_csv cfg = Ok self →
  Forall2 (λ r row, source row = r
                    ∧ doi_normalized row = _normalize_doi (DOI_URL r)
                    ∧ title_normalized row = _normalize_title (Title r)
                    ∧ _extract_first_author (Authors_Standardized r)
                      = Ok (first_author row))
    reference_csv (reference_df self)
  ∧ match_thresholds self = cfg
  ∧ doi_lookup self = build_doi_lookup 0 (reference_df self) ∅
  ∧ title_year_lookup self = build_title_year_lookup 0 (reference_df self) ∅.
Proof.
  unfold __init__. unbind. pose proof (prepare_rows_spec reference_csv) as Hrows.
  destruct (prepare_rows reference_csv) as [rows|e]; [|done].
  intros [= <-]. simpl. by destruct Hrows.
Qed.

Lemma build_doi_lookup_snoc rows : ∀ idx m r,
  build_doi_lookup idx (rows ++ [r]) m
  = <[doi_normalized r := (idx + length rows)%nat]> (build_doi_lookup idx rows m).
Proof.
  induction rows as [|r' rows IH]; intros idx m r; simpl.
  - by rewrite Nat.add_0_r.
  - rewrite IH. by rewrite Nat.add_succ_r.
Qed.

(** [doi_lookup] maps a key to the last row that has it. *)
Lemma build_doi_lookup_last rows key i :
  build_doi_lookup 0 rows ∅ !! key = Some i ↔
  (∃ row, rows !! i = Some row ∧ doi_normalized row = key)
  ∧ ∀ j row, rows !! j = Some row → doi_normalized row = key → (j ≤ i)%nat.
Proof.
  induction rows as [|r rows IH] using rev_ind; simpl.
  - rewrite lookup_empty. split; [done|]. by intros [(row & Hrow & _) _].
  - rewrite build_doi_lookup_snoc. simpl.
    destruct (decide (doi_normalized r = key)) as [Hk|Hk].
    + rewrite Hk, lookup_insert_eq. split.
      * intros [= <-]. split.
        -- exists r. split; [|done]. by rewrite lookup_app_r, Nat.sub_diag.
        -- intros j row Hj _. apply lookup_lt_Some in Hj.
           rewrite length_app in Hj. simpl in Hj. lia.
      * intros [(row & Hrow & _) Hmax]. f_equal.
        apply lookup_lt_Some in Hrow. rewrite length_app in Hrow. simpl in Hrow.
        assert (length rows ≤ i)%nat; [|lia].
        apply (Hmax _ r); [|done]. by rewrite lookup_app_r, Nat.sub_diag.
    + rewrite lookup_insert_ne by done. rewrite IH. split.
      * intros [(row & Hrow & Hrk) Hmax]. split.
        -- exists row. split; [|done]. by apply lookup_app_l_Some.
        -- intros j row' Hj Hjk. apply lookup_app_Some in Hj as [Hj|[_ Hj]].
           ++ by eapply Hmax.
           ++ destruct (j - length rows)%nat; [|done]. simpl in Hj.
              injection Hj as <-. done.
      * intros [(row & Hrow & Hrk) Hmax]. split.
        -- exists row. split; [|done].
           apply lookup_app_Some in Hrow as [Hrow|[_ Hrow]]; [done|].
           destruct (i - length rows)%nat; [|done]. simpl in Hrow.
           injection Hrow as <-. done.
        -- intros j row' Hj Hjk. apply (Hmax j row'); [|done].
           by apply lookup_app_l_Some.
Qed.

(** X8.  [doi_lookup] holds, for every normalised DOI of the reference
    table (the empty one of rows without DOI included), the index of the
    last row with that value: where two rows share a DOI, the later one
    is the one that can be found. *)
Theorem doi_lookup_keeps_last (reference_csv : list reference) (cfg : thresholds)
    (self : deduplicator) (key : string) (i : nat) :
  __init__ reference_csv cfg = Ok self →
  doi_lookup self !! key = Some i ↔
  (∃ r, reference_csv !! i = Some r ∧ _normalize_doi (DOI_URL r) = key)
  ∧ ∀ j r, reference_csv !! j = Some r → _normalize_doi (DOI_URL r) = key → (j ≤ i)%nat.
Proof.
  intros Hinit. pose proof (init_rows _ _ _ Hinit) as (Hrows & _ & -> & _).
  rewrite build_doi_lookup_last. split.
  - intros [(row & Hrow & Hk) Hmax]. split.
    + destruct (Forall2_lookup_r _ _ _ _ _ Hrows Hrow) as (r & Hr & _ & Hd & _).
      exists r. split; [done|congruence].
    + intros j r Hr Hrk.
      destruct (Forall2_lookup_l _ _ _ _ _ Hrows Hr) as (row' & Hrow' & _ & Hd & _).
      apply (Hmax j row'); [done|congruence].
  - intros [(r & Hr & Hk) Hmax]. split.
    + destruct (Forall2_lookup_l _ _ _ _ _ Hrows Hr) as (row & Hrow & _ & Hd & _).
      exists row. split; [done|congruence].
    + intros j row Hrow Hrk.
      destruct (Forall2_lookup_r _ _ _ _ _ Hrows Hrow) as (r' & Hr' & _ & Hd & _).
      apply (Hmax j r'); [done|congruence].
Qed.

Lemma doi_lookup_keeps_last_witness :
  doi_lookup Corpus.matcher !! "10.1377/x" = Some 2%nat.
Proof.
  apply (doi_lookup_keeps_last Corpus.refs Sample.cfg Corpus.matcher "10.1377/x" 2).
  - vm_compute. reflexivity.
  - split.
    + exists Corpus.erratum. split; [reflexivity|vm_compute; reflexivity].
    + intros j r Hj Hk. destruct j as [|[|[|[|j]]]]; [lia|lia|lia| |discriminate].
      injection Hj as <-. vm_compute in Hk. discriminate.
Defined.

Lemma build_title_year_lookup_snoc rows : ∀ idx m r,
  build_title_year_lookup idx (rows ++ [r]) m
  = <[title_year_key r :=
        default [] (build_title_year_lookup idx rows m !! title_year_key r)
        ++ [(idx + length rows)%nat]]> (build_title_year_lookup idx rows m).
Proof.
  induction rows as [|r' rows IH]; intros idx m r; simpl.
  - by rewrite Nat.add_0_r.
  - rewrite IH. by rewrite Nat.add_succ_r.
Qed.

Lemma sorted_snoc (l : list nat) (n : nat) :
  StronglySorted lt l → Forall (λ i, (i < n)%nat) l → StronglySorted lt (l ++ [n]).
Proof.
  induction 1 as [|i l _ IH Hi]; intros Hn; simpl; [repeat constructor|].
  apply Forall_cons in Hn as [Hin Hn]. constructor; [by apply IH|].
  apply Forall_app. split; [done|]. by constructor.
Qed.

(** [title_year_lookup] lists, under each key, the rows that have it, in
    the order of the table; no key holds an empty list. *)
Lemma build_title_year_lookup_spec rows key :
  build_title_year_lookup 0 rows ∅ !! key ≠ Some []
  ∧ StronglySorted lt (default [] (build_title_year_lookup 0 rows ∅ !! key))
  ∧ ∀ i, i ∈ default [] (build_title_year_lookup 0 rows ∅ !! key)
         ↔ ∃ row, rows !! i = Some row ∧ title_year_key row = key.
Proof.
  induction rows as [|r rows (Hne & Hsorted & Hmem)] using rev_ind.
  - simpl. rewrite lookup_empty. simpl. split_and!; [done|constructor|].
    intros i. split; [by intros ?%elem_of_nil|by intros (? & ? & _)].
  - rewrite build_title_year_lookup_snoc. simpl.
    set (m := build_title_year_lookup 0 rows ∅) in *.
    destruct (decide (title_year_key r = key)) as [Hk|Hk].
    + rewrite Hk, lookup_insert_eq. simpl. split_and!.
      * intros [= Hnil]. by apply app_nil in Hnil as [_ ?].
      * apply sorted_snoc; [done|]. apply Forall_forall. intros i Hi.
        apply Hmem in Hi as (row & Hrow & _). by apply lookup_lt_Some in Hrow.
      * intros i. rewrite elem_of_app, list_elem_of_singleton, Hmem. split.
        -- intros [(row & Hrow & Hrk)| ->].
           ++ exists row. split; [by apply lookup_app_l_Some|done].
           ++ exists r. split; [|done]. by rewrite lookup_app_r, Nat.sub_diag.
        -- intros (row & Hrow & Hrk).
           apply lookup_app_Some in Hrow as [Hrow|[Hle Hrow]]; [left; eauto|right].
           destruct (i - length rows)%nat eqn:Hd; [lia|done].
    + rewrite lookup_insert_ne by done. split_and!; [done..|].
      intros i. rewrite Hmem. split.
      * intros (row & Hrow & Hrk). exists row. split; [by apply lookup_app_l_Some|done].
      * intros (row & Hrow & Hrk). exists row. split; [|done].
        apply lookup_app_Some in Hrow as [Hrow|[_ Hrow]]; [done|].
        destruct (i - length rows)%nat; [|done]. simpl in Hrow.
        injection Hrow as <-. done.
Qed.

(** X9.  [title_year_lookup] holds, under each pair of a normalised title
    and the text of a year, the indices of all rows of the reference table
    that have this pair, in increasing order, and holds no empty list: the
    test [if ref_indices] of the exact tier never fails. *)
Theorem title_year_lookup_lists_rows (reference_csv : list reference) (cfg : thresholds)
    (self : deduplicator) (key : string * string) :
  __init__ reference_csv cfg = Ok self →
  match title_year_lookup self !! key with
  | Some ref_indices =>
      ref_indices ≠ [] ∧ StronglySorted lt ref_indices
      ∧ ∀ i, i ∈ ref_indices
             ↔ ∃ r, reference_csv !! i = Some r
                    ∧ (_normalize_title (Title r), py_str (get (Publication_Year r))) = key
  | None =>
      ∀ r, r ∈ reference_csv →
           (_normalize_title (Title r), py_str (get (Publication_Year r))) ≠ key
  end.
Proof.
  intros Hinit. pose proof (init_rows _ _ _ Hinit) as (Hrows & _ & _ & ->).
  set (rows := reference_df self) in *.
  destruct (build_title_year_lookup_spec rows key) as (Hne & Hsorted & Hmem).
  assert (∀ i, (∃ row, rows !! i = Some row ∧ title_year_key row = key)
               ↔ ∃ r, reference_csv !! i = Some r
                      ∧ (_normalize_title (Title r), py_str (get (Publication_Year r)))
                        = key) as Hsame.
  { intros i. unfold title_year_key, ref_year_of. split.
    - intros (row & Hrow & Hk).
      destruct (Forall2_lookup_r _ _ _ _ _ Hrows Hrow) as (r & Hr & Hs & _ & Ht & _).
      exists r. split; [done|]. by rewrite <-Ht, <-Hs.
    - intros (r & Hr & Hk).
      destruct (Forall2_lookup_l _ _ _ _ _ Hrows Hr) as (row & Hrow & Hs & _ & Ht & _).
      exists row. split; [done|]. by rewrite Ht, Hs. }
  destruct (build_title_year_lookup 0 rows ∅ !! key) as [l|]; simpl in *.
  - split_and!; [by intros ->|done|]. intros i. by rewrite Hmem.
  - intros r [i Hr]%list_elem_of_lookup Hk.
    apply (elem_of_nil i), Hmem, Hsame. eauto.
Qed.

Lemma title_year_lookup_lists_rows_witness :
  match title_year_lookup Corpus.matcher !! ("hospital networks", "2019") with
  | Some ref_indices =>
      ref_indices ≠ [] ∧ StronglySorted lt ref_indices
      ∧ ∀ i, i ∈ ref_indices
             ↔ ∃ r, Corpus.refs !! i = Some r
                    ∧ (_normalize_title (Title r), py_str (get (Publication_Year r)))
                      = ("hospital networks", "2019")
  | None =>
      ∀ r, r ∈ Corpus.refs →
           (_normalize_title (Title r), py_str (get (Publication_Year r)))
           ≠ ("hospital networks", "2019")
  end.
Proof.
  apply (title_year_lookup_lists_rows Corpus.refs Sample.cfg Corpus.matcher).
  vm_compute. reflexivity.
Defined.
(** ** The tiers of [find_matches], one by one *)

Lemma nonempty_true s : s ≠ "" → Str.nonempty s = true.
Proof. by destruct s. Qed.

Lemma nonempty_iff s : Str.nonempty s = true ↔ s ≠ "".
Proof. by destruct s. Qed.

Lemma loc_lookup self i r : reference_df self !! i = Some r → loc self (Some i) = Ok (i, r).
Proof. unfold loc. by intros ->. Qed.

(** A turn of the loop, by the tier that decides it. *)
Lemma decides_by_doi self idx row mi :
  doi_tier self row (new_match_info idx row) = Ok (Some mi) → decides self (idx, row) mi.
Proof. unfold decides, match_row. simpl. intros ->. done. Qed.

Lemma decides_by_title self idx row mi :
  doi_tier self row (new_match_info idx row) = Ok None →
  title_tiers self (_normalize_title (get (title row))) (py_str (get (year row)))
    (new_match_info idx row) = Ok (Some mi) →
  decides self (idx, row) mi.
Proof. unfold decides, match_row. simpl. intros -> ->. done. Qed.

(** X10.  Where several rows of the reference table have the normalised
    DOI of the candidate, the DOI tier reports the last of them: the row
    of the result names its index, its title and its DOI cell, with the
    confidence of the configuration. *)
Theorem doi_tier_reports_last_row (reference_csv : list reference) (cfg : thresholds)
    (self : deduplicator) (idx : nat) (row : candidate) (d : pyval)
    (i : nat) (r : reference) :
  __init__ reference_csv cfg = Ok self →
  doi row = Some d → truthy d = true → _normalize_doi d ≠ "" →
  reference_csv !! i = Some r → _normalize_doi (DOI_URL r) = _normalize_doi d →
  (∀ j r', reference_csv !! j = Some r' →
           _normalize_doi (DOI_URL r') = _normalize_doi d → (j ≤ i)%nat) →
  ∃ mi, decides self (idx, row) mi
        ∧ reference_idx mi = Some i
        ∧ reference_title mi = Title r ∧ reference_doi mi = DOI_URL r
        ∧ match_status mi = "definite_match" ∧ match_type mi = "doi"
        ∧ match_confidence mi = thr_doi cfg
        ∧ match_details mi = DoiMatch (_normalize_doi d).
Proof.
  intros Hinit Hdoi Htruthy Hne Hr Hk Hmax.
  pose proof (init_rows _ _ _ Hinit) as (Hrows & Hcfg & Hdl & _).
  destruct (Forall2_lookup_l _ _ _ _ _ Hrows Hr) as (row_i & Hrow & Hs & Hd & _).
  assert (doi_lookup self !! _normalize_doi d = Some i) as Hl.
  { rewrite Hdl. apply build_doi_lookup_last. split.
    - exists row_i. split; [done|congruence].
    - intros j row' Hj Hjk.
      destruct (Forall2_lookup_r _ _ _ _ _ Hrows Hj) as (r' & Hr' & _ & Hd' & _).
      apply (Hmax j r'); [done|congruence]. }
  eexists. split.
  - apply decides_by_doi. unfold doi_tier.
    rewrite Hdoi, Htruthy, (nonempty_true _ Hne), Hl, (loc_lookup _ _ _ Hrow).
    unbind. reflexivity.
  - simpl. by rewrite Hs, Hcfg.
Qed.

Lemma doi_tier_reports_last_row_witness :
  ∃ mi, decides Corpus.matcher (0%nat, Sample.by_doi) mi
        ∧ reference_idx mi = Some 2%nat
        ∧ reference_title mi = Title Corpus.erratum.
Proof.
  destruct (doi_tier_reports_last_row Corpus.refs Sample.cfg Corpus.matcher 0
              Sample.by_doi (PyStr "DOI: 10.1377/X") 2 Corpus.erratum)
    as (mi & Hmi & Hidx & Htitle & _).
  - vm_compute. reflexivity.
  - reflexivity.
  - reflexivity.
  - vm_compute. discriminate.
  - reflexivity.
  - vm_compute. reflexivity.
  - intros j r Hj Hk. destruct j as [|[|[|[|j]]]]; [lia|lia|lia| |discriminate].
    injection Hj as <-. vm_compute in Hk. discriminate.
  - exists mi. split; [exact Hmi|]. split; assumption.
Defined.

(** The head of a sorted list is its least element. *)
Lemma sorted_head (i0 : nat) l i :
  StronglySorted lt (i0 :: l) → i ∈ i0 :: l → (i0 ≤ i)%nat.
Proof.
  intros Hs Hi. apply StronglySorted_inv in Hs as [_ Hall].
  apply elem_of_cons in Hi as [->|Hi]; [done|].
  rewrite Forall_forall in Hall. by apply Nat.lt_le_incl, Hall.
Qed.

(** X11.  When the DOI tier does not decide and the candidate has a
    normalised title, the exact tier reports the first row of the
    reference table that has this normalised title and the same text of
    the year, as [very_likely_match] with confidence 90. *)
Theorem exact_tier_reports_first_row (reference_csv : list reference) (cfg : thresholds)
    (self : deduplicator) (idx : nat) (row : candidate) (i : nat) (r : reference) :
  __init__ reference_csv cfg = Ok self →
  doi_tier self row (new_match_info idx row) = Ok None →
  _normalize_title (get (title row)) ≠ "" →
  reference_csv !! i = Some r →
  _normalize_title (Title r) = _normalize_title (get (title row)) →
  py_str (get (Publication_Year r)) = py_str (get (year row)) →
  (∀ j r', reference_csv !! j = Some r' →
           _normalize_title (Title r') = _normalize_title (get (title row)) →
           py_str (get (Publication_Year r')) = py_str (get (year row)) → (i ≤ j)%nat) →
  ∃ mi, decides self (idx, row) mi
        ∧ reference_idx mi = Some i
        ∧ reference_title mi = Title r ∧ reference_doi mi = DOI_URL r
        ∧ match_status mi = "very_likely_match" ∧ match_type mi = "title_year_exact"
        ∧ match_confidence mi = 90
        ∧ match_details mi = ExactTitleYear.
Proof.
  intros Hinit Hnodoi Hne Hr Ht Hy Hmin.
  pose proof (init_rows _ _ _ Hinit) as (Hrows & _ & _ & Htl).
  destruct (Forall2_lookup_l _ _ _ _ _ Hrows Hr) as (row_i & Hrow & Hs & _ & Htn & _).
  set (t := _normalize_title (get (title row))) in *.
  set (y := py_str (get (year row))) in *.
  destruct (build_title_year_lookup_spec (reference_df self) (t, y))
    as (Hnil & Hsorted & Hmem).
  rewrite <-Htl in Hnil, Hsorted, Hmem.
  assert (i ∈ default [] (title_year_lookup self !! (t, y))) as Hi.
  { apply Hmem. exists row_i. split; [done|].
    unfold title_year_key, ref_year_of. by rewrite Htn, Hs, Ht, Hy. }
  destruct (title_year_lookup self !! (t, y)) as [[|i0 l]|] eqn:Hl; simpl in *;
    [done| |by apply elem_of_nil in Hi].
  assert (i0 = i) as ->.
  { apply Nat.le_antisymm; [by eapply sorted_head|].
    destruct (proj1 (Hmem i0)) as (row0 & Hrow0 & Hk0); [by left|].
    destruct (Forall2_lookup_r _ _ _ _ _ Hrows Hrow0) as (r0 & Hr0 & Hs0 & _ & Htn0 & _).
    unfold title_year_key, ref_year_of in Hk0. rewrite Htn0, Hs0 in Hk0.
    injection Hk0 as Ht0 Hy0. by apply (Hmin i0 r0). }
  eexists. split.
  - apply decides_by_title; [done|]. fold t y. unfold title_tiers.
    rewrite (nonempty_true _ Hne), Hl, (loc_lookup _ _ _ Hrow). unbind. reflexivity.
  - simpl. by rewrite Hs.
Qed.

Lemma exact_tier_reports_first_row_witness :
  ∃ mi, decides Corpus.matcher (1%nat, Corpus.networks) mi
        ∧ reference_idx mi = Some 1%nat
        ∧ reference_title mi = Title Sample.no_doi.
Proof.
  destruct (exact_tier_reports_first_row Corpus.refs Sample.cfg Corpus.matcher 1
              Corpus.networks 1 Sample.no_doi)
    as (mi & Hmi & Hidx & Htitle & _).
  - vm_compute. reflexivity.
  - vm_compute. reflexivity.
  - vm_compute. discriminate.
  - reflexivity.
  - vm_compute. reflexivity.
  - vm_compute. reflexivity.
  - intros j r Hj Ht _. destruct j as [|j]; [|lia].
    injection Hj as <-. vm_compute in Ht. discriminate.
  - exists mi. split; [exact Hmi|]. split; assumption.
Defined.

(** *** The fuzzy tier *)

Lemma Qle_bool_false x y : Qle_bool x y = false → y < x.
Proof.
  intros Hb. apply Qnot_le_lt. intros Hle. apply Qle_bool_iff in Hle. congruence.
Qed.

(** The fuzzy loop returns its start value, or the first row with the
    greatest score among the rows that the year test lets through. *)
Lemma fuzzy_scan_spec t y rows : ∀ i best best',
  fuzzy_scan t y i rows best = Ok best' →
  (best' = best
   ∧ ∀ j r, rows !! j = Some r → year_filter y (ref_year_of r) = Ok false →
            _calculate_title_similarity t (title_normalized r) <= best.2)
  ∨ ∃ j r, best'.1 = Some (i + j)%nat ∧ rows !! j = Some r
           ∧ year_filter y (ref_year_of r) = Ok false
           ∧ best'.2 = _calculate_title_similarity t (title_normalized r)
           ∧ best.2 < best'.2
           ∧ ∀ j' r', rows !! j' = Some r' → year_filter y (ref_year_of r') = Ok false →
                      _calculate_title_similarity t (title_normalized r') <= best'.2
                      ∧ ((j' < j)%nat →
                         _calculate_title_similarity t (title_normalized r') < best'.2).
Proof.
  induction rows as [|r rows IH]; intros i best best'; simpl.
  - intros [= <-]. left. split; [done|]. by intros j r.
  - unbind. destruct (year_filter y (ref_year_of r)) as [[]|] eqn:Hy; [| |done].
    + intros Hscan. apply IH in Hscan as [[-> Hall]|(j & rj & Hbm & Hj & Hyj & Hbs & Hlt & Hmax)].
      * left. split; [done|]. intros [|j] r' Hr' Hy'; simpl in Hr'; [|by eapply Hall].
        injection Hr' as <-. congruence.
      * right. exists (S j), rj. rewrite Nat.add_succ_r. split_and!; [done..|].
        intros [|j'] r' Hr' Hy'; simpl in Hr'.
        -- injection Hr' as <-. congruence.
        -- destruct (Hmax _ _ Hr' Hy') as [Hle Hfirst]. split; [done|].
           intros ?. apply Hfirst. lia.
    + set (s := _calculate_title_similarity t (title_normalized r)).
      destruct (Qle_bool s best.2) eqn:Hcmp.
      * apply Qle_bool_iff in Hcmp. intros Hscan.
        apply IH in Hscan as [[-> Hall]|(j & rj & Hbm & Hj & Hyj & Hbs & Hlt & Hmax)].
        -- left. split; [done|]. intros [|j] r' Hr' Hy'; simpl in Hr'; [|by eapply Hall].
           by injection Hr' as <-.
        -- right. exists (S j), rj. rewrite Nat.add_succ_r. split_and!; [done..|].
           intros [|j'] r' Hr' Hy'; simpl in Hr'.
           ++ injection Hr' as <-. fold s. split; [|intros _]; lra.
           ++ destruct (Hmax _ _ Hr' Hy') as [Hle Hfirst]. split; [done|].
              intros ?. apply Hfirst. lia.
      * apply Qle_bool_false in Hcmp. intros Hscan.
        apply IH in Hscan as [[-> Hall]|(j & rj & Hbm & Hj & Hyj & Hbs & Hlt & Hmax)];
          simpl in *.
        -- right. exists O, r. rewrite Nat.add_0_r. simpl. split_and!; [done..|].
           intros [|j'] r' Hr' Hy'; simpl in Hr'.
           ++ injection Hr' as <-. fold s. split; [lra|lia].
           ++ split; [by eapply Hall|lia].
        -- right. exists (S j), rj. rewrite Nat.add_succ_r. split_and!; [done..|lra|].
           intros [|j'] r' Hr' Hy'; simpl in Hr'.
           ++ injection Hr' as <-. fold s. split; [|intros _]; lra.
           ++ destruct (Hmax _ _ Hr' Hy') as [Hle Hfirst]. split; [done|].
              intros ?. apply Hfirst. lia.
Qed.



(** *** The author + year tier *)

(** The author + year loop stops at the first row with the surname,
    whatever the case of its letters, and the text of the year. *)
Lemma author_year_scan_spec self row a y rows : ∀ i mi mi' rs,
  author_year_scan self row a y i rows mi [] = Ok (mi', rs) →
  (mi' = mi ∧ rs = []
   ∧ ∀ j r, rows !! j = Some r →
            ¬ (Str.lower a = Str.lower (first_author r) ∧ y = ref_year_of r))
  ∨ ∃ j r j1 j2,
      rows !! j = Some r
      ∧ Str.lower a = Str.lower (first_author r) ∧ y = ref_year_of r
      ∧ (∀ j' r', (j' < j)%nat → rows !! j' = Some r' →
                  ¬ (Str.lower a = Str.lower (first_author r') ∧ y = ref_year_of r'))
      ∧ get (journal row) = PyStr j1 ∧ get (Journal_Venue (source r)) = PyStr j2
      ∧ mi' = update mi "possible_match"
                (if String.eqb (Str.lower j1) (Str.lower j2)
                 then thr_author_year (match_thresholds self) + 10
                 else thr_author_year (match_thresholds self))
                "author_year" (i + j) r (AuthorYear a y)
      ∧ rs = [mi'].
Proof.
  induction rows as [|r rows IH]; intros i mi mi' rs; simpl.
  - intros [= <- <-]. left. split_and!; [done..|]. by intros j r.
  - destruct (String.eqb (Str.lower a) (Str.lower (first_author r))
              && String.eqb y (ref_year_of r)) eqn:Hhit.
    + apply andb_true_iff in Hhit as [Ha Hy].
      apply String.eqb_eq in Ha, Hy. unbind.
      destruct (get (journal row)) as [j1| |] eqn:Hj1; simpl; [|done..].
      destruct (get (Journal_Venue (source r))) as [j2| |] eqn:Hj2; simpl; [|done..].
      intros [= <- <-]. right. exists O, r, j1, j2. rewrite Nat.add_0_r.
      split_and!; try done. intros j' r' Hlt. lia.
    + intros Hscan.
      assert (¬ (Str.lower a = Str.lower (first_author r) ∧ y = ref_year_of r)) as Hno.
      { intros [Ha Hy]. apply String.eqb_eq in Ha, Hy. by rewrite Ha, Hy in Hhit. }
      apply IH in Hscan
        as [(-> & -> & Hall)|(j & rj & j1 & j2 & Hj & Ha & Hy & Hfirst & Hj1 & Hj2 & -> & ->)].
      * left. split_and!; [done..|]. intros [|j] r' Hr'; simpl in Hr'; [|by eapply Hall].
        by injection Hr' as <-.
      * right. exists (S j), rj, j1, j2. rewrite Nat.add_succ_r.
        split_and!; try done. intros [|j'] r' Hlt Hr'; simpl in Hr'.
        -- by injection Hr' as <-.
        -- apply (Hfirst j' r'); [lia|done].
Qed.

(** X13.  A row of the result with [match_type = author_year] names the
    first row of the reference table whose first author is the surname of
    the candidate, whatever the case of its letters, and whose year has
    the same text; neither is empty.  The earlier tiers have not decided,
    the status is [possible_match], and the confidence is the threshold
    [author_year], raised by 10 when the two journal cells are equal
    whatever the case of their letters, two absent cells included. *)
Theorem author_year_tier_reports_first_row (self : deduplicator) (idx : nat)
    (row : candidate) (mi : match_info) :
  decides self (idx, row) mi → match_type mi = "author_year" →
  ∃ a i r j1 j2,
    _extract_first_author (get (authors row)) = Ok a
    ∧ a ≠ "" ∧ py_str (get (year row)) ≠ ""
    ∧ doi_tier self row (new_match_info idx row) = Ok None
    ∧ title_tiers self (_normalize_title (get (title row))) (py_str (get (year row)))
        (new_match_info idx row) = Ok None
    ∧ reference_idx mi = Some i ∧ reference_df self !! i = Some r
    ∧ reference_title mi = Title (source r) ∧ reference_doi mi = DOI_URL (source r)
    ∧ Str.lower a = Str.lower (first_author r)
    ∧ py_str (get (year row)) = ref_year_of r
    ∧ (∀ j r', (j < i)%nat → reference_df self !! j = Some r' →
               ¬ (Str.lower a = Str.lower (first_author r')
                  ∧ py_str (get (year row)) = ref_year_of r'))
    ∧ get (journal row) = PyStr j1 ∧ get (Journal_Venue (source r)) = PyStr j2
    ∧ match_confidence mi
      = (if String.eqb (Str.lower j1) (Str.lower j2)
         then thr_author_year (match_thresholds self) + 10
         else thr_author_year (match_thresholds self))
    ∧ match_status mi = "possible_match"
    ∧ match_details mi = AuthorYear a (py_str (get (year row))).
Proof.
  unfold decides, match_row. simpl. intros Hd Hty.
  set (mi0 := new_match_info idx row) in *.
  set (t := _normalize_title (get (title row))) in *.
  set (y := py_str (get (year row))) in *. unbind.
  destruct (doi_tier self row mi0) as [[mi1|]|] eqn:Hdoi; [| |done].
  { injection Hd as <-. apply doi_tier_Some in Hdoi as (_ & Hdoi & _). congruence. }
  destruct (title_tiers self t y mi0) as [[mi1|]|] eqn:Ht; [| |done].
  { injection Hd as <-. apply title_tiers_Some in Ht as (_ & [Ht|Ht] & _); congruence. }
  destruct (_extract_first_author (get (authors row))) as [a|] eqn:Ha; [|done].
  destruct (Str.nonempty a && Str.nonempty y) eqn:Hne; simpl in Hd.
  2:{ injection Hd as <-. done. }
  apply andb_true_iff in Hne as [Hane Hyne]. apply nonempty_iff in Hane, Hyne.
  destruct (author_year_scan self row a y 0 (reference_df self) mi0 []) as [[mi1 rs]|]
    eqn:Hscan; [|done].
  apply author_year_scan_spec in Hscan
    as [(-> & -> & _)|(j & r & j1 & j2 & Hj & Hsame & Hy & Hfirst & Hj1 & Hj2 & -> & ->)].
  { simpl in Hd. injection Hd as <-. done. }
  simpl in Hd. injection Hd as <-. simpl.
  exists a, j, r, j1, j2. split_and!; done.
Qed.

Lemma author_year_tier_reports_first_row_witness :
  ∃ mi i, decides Corpus.matcher (3%nat, Corpus.same_author) mi
          ∧ reference_idx mi = Some i ∧ match_status mi = "possible_match".
Proof.
  destruct (match_row Corpus.matcher [] 3 Corpus.same_author) as [[|mi [|]]|] eqn:Hm;
    try (vm_compute in Hm; discriminate).
  destruct (author_year_tier_reports_first_row Corpus.matcher 3 Corpus.same_author mi)
    as (a & i & r & j1 & j2 & _ & _ & _ & _ & _ & Hidx & _ & _ & _ & _ & _ & _ & _ & _
        & _ & Hstatus & _).
  - exact Hm.
  - vm_compute in Hm. injection Hm as <-. reflexivity.
  - exists mi, i. split; [exact Hm|]. split; assumption.
Defined.
(** ** The rows of the result *)

(** A row that a turn appends is the untouched row of the candidate, or
    that row updated by one tier with a row of the reference table. *)
Lemma decides_shape self idx row mi :
  decides self (idx, row) mi →
  mi = new_match_info idx row
  ∨ ∃ status confidence type i r d,
      mi = update (new_match_info idx row) status confidence type i r d
      ∧ reference_df self !! i = Some r
      ∧ ((type = "doi" ∧ status = "definite_match")
         ∨ (type = "title_year_exact" ∧ status = "very_likely_match")
         ∨ (type = "title_fuzzy"
            ∧ (status = "very_likely_match" ∨ status = "probable_match"
               ∨ status = "possible_match"))
         ∨ (type = "author_year" ∧ status = "possible_match")).
Proof.
  unfold decides, match_row. simpl.
  set (mi0 := new_match_info idx row).
  set (t := _normalize_title (get (title row))).
  set (y := py_str (get (year row))). unbind.
  destruct (doi_tier self row mi0) as [[mi1|]|] eqn:Hdoi; [| |done].
  { intros [= <-]. right. unfold doi_tier in Hdoi.
    destruct (doi row) as [d|]; [|done]. destruct (truthy d); [|done].
    destruct (Str.nonempty _); [|done].
    destruct (doi_lookup self !! _) as [i|]; [|done]. unbind.
    destruct (loc self (Some i)) as [[i' r]|] eqn:Hloc; [|done].
    apply loc_Some in Hloc as [Hi Hr]. injection Hdoi as <-. simpl in *. subst i'.
    eexists _, _, _, _, _, _. split; [reflexivity|]. split; [exact Hr|]. by left. }
  destruct (title_tiers self t y mi0) as [[mi1|]|] eqn:Ht; [| |done].
  { intros [= <-]. right. unfold title_tiers in Ht.
    destruct (Str.nonempty t); [|done]. unbind.
    assert (∀ bm bs, fuzzy_scan t y 0 (reference_df self) (None, 0) = Ok (bm, bs) →
              (if Qle_bool (thr_title_fuzzy (match_thresholds self)) bs
               then match loc self bm with
                    | Ok ref_row =>
                        Ok (Some (update mi0
                                    (if Qle_bool 90 bs then "very_likely_match"
                                     else if Qle_bool 80 bs then "probable_match"
                                     else "possible_match")
                                    bs "title_fuzzy" ref_row.1 ref_row.2
                                    (TitleSimilarity bs)))
                    | Raise e => Raise e
                    end
               else Ok None) = Ok (Some mi1) →
              ∃ status confidence type i r d,
                mi1 = update mi0 status confidence type i r d
                ∧ reference_df self !! i = Some r
                ∧ ((type = "doi" ∧ status = "definite_match")
                   ∨ (type = "title_year_exact" ∧ status = "very_likely_match")
                   ∨ (type = "title_fuzzy"
                      ∧ (status = "very_likely_match" ∨ status = "probable_match"
                         ∨ status = "possible_match"))
                   ∨ (type = "author_year" ∧ status = "possible_match"))) as Hfuzzy.
    { intros bm bs _. destruct (Qle_bool _ bs); [|done].
      destruct (loc self bm) as [[i r]|] eqn:Hloc; [|done].
      destruct bm as [i'|]; [|done]. apply loc_Some in Hloc as [Hi Hr].
      intros [= <-]. simpl in *. subst i'. eexists _, _, _, _, _, _.
      split; [reflexivity|]. split; [exact Hr|].
      right; right; left. split; [done|].
      destruct (Qle_bool 90 bs); [tauto|]. destruct (Qle_bool 80 bs); tauto. }
    destruct (title_year_lookup self !! (t, y)) as [[|i ?]|].
    2:{ destruct (loc self (Some i)) as [[i' r]|] eqn:Hloc; [|done].
        apply loc_Some in Hloc as [Hi Hr]. injection Ht as <-. simpl in *. subst i'.
        eexists _, _, _, _, _, _. split; [reflexivity|]. split; [exact Hr|].
        right. by left. }
    all: destruct (fuzzy_scan t y 0 (reference_df self) (None, 0)) as [[bm bs]|] eqn:Hscan;
      [|done]; by eapply Hfuzzy. }
  destruct (_extract_first_author (get (authors row))) as [a|]; [|done].
  destruct (Str.nonempty a && Str.nonempty y); simpl.
  2:{ intros [= <-]. by left. }
  destruct (author_year_scan self row a y 0 (reference_df self) mi0 []) as [[mi1 rs]|]
    eqn:Hscan; [|done].
  apply author_year_scan_spec in Hscan
    as [(-> & -> & _)|(j & r & j1 & j2 & Hj & _ & _ & _ & _ & _ & -> & ->)]; simpl.
  { intros [= <-]. by left. }
  intros [= <-]. right. eexists _, _, _, _, _, _.
  split; [reflexivity|]. split; [exact Hj|]. by right; right; right.
Qed.

(** X14.  Every row of the result is consistent: it echoes the five cells
    of its candidate; its status is one of the five that the report
    counts; [no_match] goes with an empty [match_type], no reference
    index, confidence 0 and empty reference cells; [definite_match] goes
    with the type [doi], and back; the exact tier gives
    [very_likely_match], the author + year tier [possible_match], and
    [probable_match] comes from the fuzzy tier only; and a reference index
    is an index of the reference table, whose title and DOI cells the row
    repeats. *)
Theorem result_row_consistent (self : deduplicator) (ir : nat * candidate)
    (mi : match_info) :
  decides self ir mi →
  (search_idx mi = ir.1 ∧ search_eid mi = get (eid ir.2) ∧ search_doi mi = get (doi ir.2)
   ∧ search_title mi = get (title ir.2) ∧ search_authors mi = get (authors ir.2)
   ∧ search_year mi = get (year ir.2))
  ∧ match_status mi ∈ ["no_match"; "definite_match"; "very_likely_match";
                        "probable_match"; "possible_match"]
  ∧ (match_status mi = "no_match" ↔ match_type mi = "")
  ∧ (match_status mi = "no_match" ↔ reference_idx mi = None)
  ∧ (match_status mi = "definite_match" ↔ match_type mi = "doi")
  ∧ (match_type mi = "title_year_exact" → match_status mi = "very_likely_match")
  ∧ (match_type mi = "author_year" → match_status mi = "possible_match")
  ∧ (match_status mi = "probable_match" → match_type mi = "title_fuzzy")
  ∧ match reference_idx mi with
    | Some i =>
        ∃ r, reference_df self !! i = Some r
             ∧ reference_title mi = Title (source r) ∧ reference_doi mi = DOI_URL (source r)
    | None =>
        match_confidence mi = 0 ∧ reference_title mi = PyStr ""
        ∧ reference_doi mi = PyStr "" ∧ match_details mi = NoDetails
    end.
Proof.
  destruct ir as [idx row]. intros Hd.
  apply decides_shape in Hd as [->|(status & conf & type & i & r & d & -> & Hr & Hcase)].
  - simpl. split_and!; try done; set_solver.
  - simpl. split; [done|].
    destruct Hcase as [[-> ->]|[[-> ->]|[[-> [->|[->| ->]]]|[-> ->]]]];
      (split; [set_solver|]); split_and!; try done; eauto.
Qed.

Lemma result_row_consistent_witness :
  ∃ mi, decides Corpus.matcher (2%nat, Corpus.near_title) mi
        ∧ match_status mi ∈ ["no_match"; "definite_match"; "very_likely_match";
                              "probable_match"; "possible_match"].
Proof.
  destruct (match_row Corpus.matcher [] 2 Corpus.near_title) as [[|mi [|]]|] eqn:Hm;
    try (vm_compute in Hm; discriminate).
  destruct (result_row_consistent Corpus.matcher (2%nat, Corpus.near_title) mi)
    as (_ & Hstatus & _).
  - exact Hm.
  - exists mi. split; [exact Hm|exact Hstatus].
Defined.

(** X15.  A candidate with nothing to match on is reported as [no_match],
    whatever the reference table holds: no DOI (absent, empty or zero), a
    title without a word that is no stop word, and an author cell that
    yields no surname or, with any author cell that is not blank, no text
    of the year. *)
Theorem nothing_to_match_on (self : deduplicator) (idx : nat) (row : candidate) :
  truthy (get (doi row)) = false →
  _normalize_title (get (title row)) = "" →
  (_extract_first_author (get (authors row)) = Ok ""
   ∨ (py_str (get (year row)) = "" ∧ ¬ blank (get (authors row)))) →
  decides self (idx, row) (new_match_info idx row).
Proof.
  intros Hdoi Ht Hay. unfold decides, match_row. simpl.
  assert (doi_tier self row (new_match_info idx row) = Ok None) as ->.
  { unfold doi_tier. destruct (doi row) as [d|]; [|done]. simpl in Hdoi. by rewrite Hdoi. }
  unbind. rewrite Ht. simpl.
  destruct Hay as [->|[Hy Hnb]]; [done|].
  pose proof (extract_first_author_blank_iff (get (authors row))) as Ha.
  destruct (_extract_first_author (get (authors row))) as [a|e]; [|by destruct Ha].
  rewrite Hy, andb_false_r. done.
Qed.

Lemma nothing_to_match_on_witness :
  decides Corpus.matcher (4%nat, Corpus.bare) (new_match_info 4 Corpus.bare).
Proof.
  apply (nothing_to_match_on Corpus.matcher 4 Corpus.bare).
  - reflexivity.
  - reflexivity.
  - left. reflexivity.
Defined.

(** ** Runs that complete *)

Lemma int_float_raises s e :
  Float.int_float s = Raise e → e = ValueError ∨ e = OverflowError.
Proof.
  unfold Float.int_float. destruct (Float.parse s) as [[neg m e10| |]|]; simpl;
    [|intros [= <-]; tauto..].
  destruct (m =? 0)%Z; [done|].
  destruct (0 <=? e10)%Z; destruct (Float.trunc_b64 _ _); try done; intros [= <-]; tauto.
Qed.

Lemma year_filter_Ok y ry :
  Float.int_float y ≠ Raise OverflowError → Float.int_float ry ≠ Raise OverflowError →
  is_Ok (year_filter y ry).
Proof.
  intros Hy Hry. unfold year_filter. destruct (_ && _); [|done].
  destruct (Float.int_float y) as [z|e] eqn:Hz.
  - destruct (Float.int_float ry) as [z'|e] eqn:Hz'; [done|].
    apply int_float_raises in Hz' as [-> | ->]; done.
  - apply int_float_raises in Hz as [-> | ->]; done.
Qed.

Lemma fuzzy_scan_Ok t y rows :
  Float.int_float y ≠ Raise OverflowError →
  Forall (λ r, Float.int_float (ref_year_of r) ≠ Raise OverflowError) rows →
  ∀ i best, is_Ok (fuzzy_scan t y i rows best).
Proof.
  intros Hy. induction 1 as [|r rows Hr _ IH]; intros i best; simpl; [done|].
  pose proof (year_filter_Ok y (ref_year_of r) Hy Hr) as Hf. unbind.
  destruct (year_filter y (ref_year_of r)) as [[]|]; [apply IH..|done].
Qed.

Lemma author_year_scan_Ok self row a y rows :
  textual (journal row) →
  Forall (λ r, textual (Journal_Venue (source r))) rows →
  ∀ i mi results, is_Ok (author_year_scan self row a y i rows mi results).
Proof.
  intros [j1 Hj1]. induction 1 as [|r rows [j2 Hj2] _ IH]; intros i mi results; simpl;
    [done|].
  destruct (_ && _); [|apply IH]. by rewrite Hj1, Hj2.
Qed.

Lemma find_matches_is_Ok self batch :
  Forall (λ ir, is_Ok (match_row self [] ir.1 ir.2)) batch →
  is_Ok (find_matches self batch).
Proof.
  intros Hall. assert (∃ rs, Forall2 (decides self) batch rs) as [rs Hrs].
  { induction Hall as [|ir batch Hok _ [rs IH]]; [by exists []|].
    destruct (match_row self [] ir.1 ir.2) as [rs1|] eqn:Hm; [|done].
    destruct (match_row_single _ _ _ _ Hm) as (mi & -> & _).
    exists (mi :: rs). by constructor. }
  apply find_matches_Ok in Hrs. by rewrite Hrs.
Qed.

(** X16.  [find_matches] completes on well-formed tables.  With a matcher
    that the constructor has built and a positive threshold
    [title_fuzzy], no candidate raises when: no year cell, of a candidate
    or of the reference table, reads as an infinity or beyond the range of
    [float]; every journal cell holds text or is absent; and no author
    cell of a candidate is blank. *)
Theorem find_matches_completes (reference_csv : list reference) (cfg : thresholds)
    (self : deduplicator) (batch : list (nat * candidate)) :
  __init__ reference_csv cfg = Ok self →
  0 < thr_title_fuzzy cfg →
  Forall (λ r, year_reads (Publication_Year r) ∧ textual (Journal_Venue r)) reference_csv →
  Forall (λ ir : nat * candidate,
            year_reads (year ir.2) ∧ textual (journal ir.2)
            ∧ ¬ blank (get (authors ir.2))) batch →
  is_Ok (find_matches self batch).
Proof.
  intros Hinit Hthr Hrefs Hbatch.
  pose proof (init_rows _ _ _ Hinit) as (Hrows & Hcfg & Hdl & Htl).
  assert (Forall (λ r, Float.int_float (ref_year_of r) ≠ Raise OverflowError
                       ∧ textual (Journal_Venue (source r))) (reference_df self)) as Hdf.
  { apply Forall_forall. intros row [i Hrow]%list_elem_of_lookup.
    destruct (Forall2_lookup_r _ _ _ _ _ Hrows Hrow) as (r & Hr & Hs & _).
    rewrite Forall_forall in Hrefs. unfold ref_year_of. rewrite Hs.
    apply Hrefs. by eapply list_elem_of_lookup_2. }
  apply Forall_and in Hdf as [Hyears Hjournals].
  apply find_matches_is_Ok. eapply Forall_impl; [exact Hbatch|].
  intros [idx row] (Hy & Hj & Ha). simpl in *. clear Hbatch.
  unfold match_row. set (mi0 := new_match_info idx row).
  set (t := _normalize_title (get (title row))).
  set (y := py_str (get (year row))). unbind.
  assert (is_Ok (doi_tier self row mi0)) as Hdoi.
  { unfold doi_tier. destruct (doi row) as [d|]; [|done].
    destruct (truthy d); [|done]. destruct (Str.nonempty _); [|done].
    destruct (doi_lookup self !! _) as [i|] eqn:Hl; [|done].
    rewrite Hdl in Hl. apply build_doi_lookup_last in Hl as [(r & Hr & _) _].
    by rewrite (loc_lookup _ _ _ Hr). }
  destruct (doi_tier self row mi0) as [[mi1|]|]; [done| |done]. clear Hdoi.
  assert (is_Ok (title_tiers self t y mi0)) as Htitle.
  { unfold title_tiers. destruct (Str.nonempty t); [|done]. unbind.
    assert (is_Ok (best ← fuzzy_scan t y 0 (reference_df self) (None, 0);
                   let '(best_match, best_score) := best in
                   if Qle_bool (thr_title_fuzzy (match_thresholds self)) best_score then
                     ref_row ← loc self best_match;
                     Ok (Some (update mi0
                                 (if Qle_bool 90 best_score then "very_likely_match"
                                  else if Qle_bool 80 best_score then "probable_match"
                                  else "possible_match")
                                 best_score "title_fuzzy" ref_row.1 ref_row.2
                                 (TitleSimilarity best_score)))
                   else Ok None)) as Hfuzzy.
    { pose proof (fuzzy_scan_Ok t y _ Hy Hyears 0%nat (None, 0)) as Hscan. unbind.
      destruct (fuzzy_scan t y 0 (reference_df self) (None, 0)) as [[bm bs]|] eqn:Hs;
        [|done].
      destruct (Qle_bool _ bs) eqn:Hle; [|done]. apply Qle_bool_iff in Hle.
      apply fuzzy_scan_spec in Hs as [[[= -> ->] _]|(j & r & Hbm & Hj' & _)].
      - rewrite Hcfg in Hle. lra.
      - simpl in Hbm. subst bm. by rewrite (loc_lookup _ _ _ Hj'). }
    destruct (title_year_lookup self !! (t, y)) as [[|i l]|] eqn:Hl; [exact Hfuzzy| |exact Hfuzzy].
    destruct (build_title_year_lookup_spec (reference_df self) (t, y)) as (_ & _ & Hmem).
    rewrite <-Htl, Hl in Hmem. destruct (proj1 (Hmem i)) as (r & Hr & _); [by left|].
    by rewrite (loc_lookup _ _ _ Hr). }
  destruct (title_tiers self t y mi0) as [[mi1|]|]; [done| |done]. clear Htitle.
  pose proof (extract_first_author_blank_iff (get (authors row))) as Hfa.
  destruct (_extract_first_author (get (authors row))) as [a|e]; [|by destruct Hfa].
  destruct (Str.nonempty a && Str.nonempty y); simpl.
  - pose proof (author_year_scan_Ok self row a y _ Hj Hjournals 0%nat mi0 []) as Hscan.
    destruct (author_year_scan self row a y 0 (reference_df self) mi0 []) as [[mi1 rs]|];
      [|done].
    by destruct (String.eqb _ _).
  - done.
Qed.

Lemma find_matches_completes_witness :
  is_Ok (find_matches Corpus.matcher
           [(0%nat, Sample.by_doi); (1%nat, Corpus.networks); (2%nat, Corpus.near_title);
            (3%nat, Corpus.same_author); (4%nat, Corpus.bare); (5%nat, Sample.unrelated)]).
Proof.
  apply (find_matches_completes Corpus.refs Sample.cfg).
  - vm_compute. reflexivity.
  - reflexivity.
  - repeat (constructor;
            [split; [vm_compute; discriminate|eexists; reflexivity]|]).
    constructor.
  - repeat (constructor;
            [split; [vm_compute; discriminate|];
             split; [eexists; reflexivity|];
             intros [Hne Hb];
             first [by apply Hne
                   |apply Forall_cons in Hb as [Hc _]; vm_compute in Hc; discriminate]|]).
    constructor.
Defined.

(** ** Batches in parts *)

Lemma find_matches_from_results self batch : ∀ results,
  foldl (λ acc ir, results ← acc; match_row self results ir.1 ir.2) (Ok results) batch
  = match find_matches self batch with
    | Ok rs => Ok (results ++ rs)
    | Raise e => Raise e
    end.
Proof.
  unfold find_matches.
  set (f := λ (acc : res (list match_info)) (ir : nat * candidate),
              results ← acc; match_row self results ir.1 ir.2).
  induction batch as [|[idx row] batch IH]; intros results; simpl.
  - by rewrite app_nil_r.
  - change (f (Ok results) (idx, row)) with (match_row self results idx row).
    change (f (Ok []) (idx, row)) with (match_row self [] idx row).
    rewrite (match_row_results self results).
    destruct (match_row self [] idx row) as [rs1|e].
    + rewrite (IH (results ++ rs1)), (IH rs1).
      destruct (foldl f (Ok []) batch); [|done]. by rewrite app_assoc.
    + subst f. by rewrite !find_matches_from_raise.
Qed.

(** X17.  Matching a batch is matching its parts one after the other: the
    result for [A ++ B] is the result for [A] followed by the result for
    [B], no row of which depends on [A]; and when a part raises, the batch
    raises the exception of the first part that does. *)
Theorem find_matches_app (self : deduplicator) (A B : list (nat * candidate)) :
  find_matches self (A ++ B)
  = match find_matches self A with
    | Ok ra =>
        match find_matches self B with
        | Ok rb => Ok (ra ++ rb)
        | Raise e => Raise e
        end
    | Raise e => Raise e
    end.
Proof.
  unfold find_matches at 1. rewrite foldl_app. fold (find_matches self A).
  destruct (find_matches self A) as [ra|e].
  - apply find_matches_from_results.
  - apply find_matches_from_raise.
Qed.
(** ** [generate_deduplication_report] and [deduplicate_search_results] *)

Lemma filter_none {A} (P : A → Prop) `{∀ x, Decision (P x)} (l : list A) :
  Forall (λ x, ¬ P x) l → filter P l = [].
Proof.
  induction 1 as [|x l Hx _ IH]; [done|]. by rewrite filter_cons_False.
Qed.

Lemma filter_unique_key {A} (key : A → nat) (l : list A) : ∀ n x,
  NoDup (key <$> l) → l !! n = Some x → filter (λ y, key y = key x) l = [x].
Proof.
  induction l as [|a l IH]; intros n x Hnd Hx; [done|].
  rewrite fmap_cons in Hnd. apply NoDup_cons in Hnd as [Ha Hnd].
  destruct n as [|n]; simpl in Hx.
  - injection Hx as ->. rewrite filter_cons_True by done. f_equal.
    apply filter_none, Forall_forall. intros y Hy Hk. apply Ha. rewrite <-Hk.
    by apply list_elem_of_fmap_2.
  - rewrite filter_cons_False; [by eapply IH|].
    intros Hk. apply Ha. rewrite Hk. apply list_elem_of_fmap_2.
    by eapply list_elem_of_lookup_2.
Qed.

(** With unique labels, the merge pairs every candidate with its own row
    of the result. *)
Lemma merge_find_matches self batch rs :
  Forall2 (decides self) batch rs → NoDup (fst <$> batch) →
  merge batch rs = zip_with (λ ir mi, (ir, Some mi)) batch rs.
Proof.
  intros Hd Hnd. unfold merge.
  assert (search_idx <$> rs = fst <$> batch) as Hkeys.
  { clear Hnd. induction Hd as [|ir mi batch rs Hmi _ IH]; [done|].
    rewrite !fmap_cons. by rewrite (decides_search_idx _ _ _ Hmi), IH. }
  rewrite <-Hkeys in Hnd.
  assert (∀ n ir mi, batch !! n = Some ir → rs !! n = Some mi →
            filter (λ mi', search_idx mi' = ir.1) rs = [mi]) as Hone.
  { intros n ir mi Hir Hmi.
    destruct (Forall2_lookup_l _ _ _ _ _ Hd Hir) as (mi' & Hmi' & Hdec).
    rewrite Hmi in Hmi'. injection Hmi' as <-.
    rewrite <-(decides_search_idx _ _ _ Hdec). by eapply (filter_unique_key search_idx). }
  clear Hkeys Hnd. apply Forall2_length in Hd.
  assert (∀ batch' rs',
            length batch' = length rs' →
            (∀ n ir mi, batch' !! n = Some ir → rs' !! n = Some mi →
                        filter (λ mi', search_idx mi' = ir.1) rs = [mi]) →
            concat
              (map (λ ir : nat * candidate,
                      match filter (λ mi, search_idx mi = ir.1) rs with
                      | [] => [(ir, None)]
                      | ms => map (λ mi, (ir, Some mi)) ms
                      end) batch')
            = zip_with (λ ir mi, (ir, Some mi)) batch' rs') as Hzip; [|by apply Hzip].
  clear. induction batch' as [|ir batch' IH]; intros [|mi rs'] Hlen Hone;
    simpl in *; try done.
  rewrite (Hone O ir mi) by done. simpl. f_equal.
  apply IH; [lia|]. intros n. apply (Hone (S n)).
Qed.

Lemma length_filter_cons {A} (P : A → Prop) `{∀ x, Decision (P x)} (x : A) (l : list A) :
  length (filter P (x :: l))
  = ((if bool_decide (P x) then 1 else 0) + length (filter P l))%nat.
Proof.
  destruct (decide (P x)) as [Hx|Hx].
  - by rewrite filter_cons_True, bool_decide_true.
  - by rewrite filter_cons_False, bool_decide_false.
Qed.

Lemma with_status_zip status (batch : list (nat * candidate)) : ∀ rs,
  length batch = length rs →
  length (with_status status (zip_with (λ ir mi, (ir, Some mi)) batch rs))
  = length (filter (λ mi, match_status mi = status) rs).
Proof.
  unfold with_status.
  induction batch as [|ir batch IH]; intros [|mi rs] Hlen; simpl in *; try done.
  rewrite !length_filter_cons, IH by lia. simpl. f_equal.
  destruct (decide (match_status mi = status)) as [Hs|Hs].
  - by rewrite !bool_decide_true by (by rewrite ?Hs).
  - rewrite !bool_decide_false; [done..|]. by intros [= ?].
Qed.

Lemma bool_decide_string (a b : string) : bool_decide (a = b) = String.eqb a b.
Proof.
  destruct (String.eqb_spec a b); [by apply bool_decide_true|by apply bool_decide_false].
Qed.

(** The pairs of a status and a type that a row of the result can have. *)
Lemma decides_status_type self ir mi :
  decides self ir mi →
  (match_status mi, match_type mi)
  ∈ [("no_match", ""); ("definite_match", "doi");
     ("very_likely_match", "title_year_exact"); ("very_likely_match", "title_fuzzy");
     ("probable_match", "title_fuzzy"); ("possible_match", "title_fuzzy");
     ("possible_match", "author_year")].
Proof.
  destruct ir as [idx row]. intros Hd.
  apply decides_shape in Hd as [->|(status & conf & type & i & r & d & -> & _ & Hcase)];
    simpl; [set_solver|].
  destruct Hcase as [[-> ->]|[[-> ->]|[[-> [->|[->| ->]]]|[-> ->]]]]; set_solver.
Qed.

(** The counts of the summary, over the rows of a result. *)
Lemma result_counts self batch rs :
  Forall2 (decides self) batch rs →
  (length (filter (λ mi, match_status mi = "no_match") rs)
   + length (filter (λ mi, match_status mi = "definite_match") rs)
   + length (filter (λ mi, match_status mi = "very_likely_match") rs)
   + length (filter (λ mi, match_status mi = "probable_match") rs)
   + length (filter (λ mi, match_status mi = "possible_match") rs) = length batch)%nat
  ∧ length (filter (λ mi, match_type mi = "") rs)
    = length (filter (λ mi, match_status mi = "no_match") rs)
  ∧ length (filter (λ mi, match_type mi = "doi") rs)
    = length (filter (λ mi, match_status mi = "definite_match") rs)
  ∧ (length (filter (λ mi, match_type mi = "title_year_exact") rs)
     + length (filter (λ mi, match_type mi = "title_fuzzy") rs)
     + length (filter (λ mi, match_type mi = "author_year") rs)
     = length (filter (λ mi, match_status mi = "very_likely_match") rs)
       + length (filter (λ mi, match_status mi = "probable_match") rs)
       + length (filter (λ mi, match_status mi = "possible_match") rs))%nat.
Proof.
  induction 1 as [|ir mi batch rs Hd _ IH]; [done|].
  apply decides_status_type in Hd. rewrite !length_filter_cons. simpl length.
  rewrite !bool_decide_string.
  repeat (apply elem_of_cons in Hd as [[= Hs Ht]|Hd]; [rewrite Hs, Ht; simpl; lia|]).
  by apply elem_of_nil in Hd.
Qed.

(** [value_counts] holds, under each value that occurs, the number of its
    occurrences, and holds no other key. *)
Lemma value_counts_lookup rs t :
  value_counts rs !! t
  = match length (filter (λ mi, match_type mi = t) rs) with
    | O => None
    | n => Some n
    end.
Proof.
  induction rs as [|mi rs IH]; simpl; [done|].
  rewrite length_filter_cons. destruct (decide (match_type mi = t)) as [Ht|Ht].
  - rewrite Ht, lookup_insert_eq, IH, bool_decide_true by done.
    by destruct (length (filter _ rs)).
  - by rewrite lookup_insert_ne, IH, bool_decide_false.
Qed.






Lemma filter_elem {A} (P : A → Prop) `{∀ x, Decision (P x)} (l : list A) :
  length (filter P l) ≠ O → ∃ x, x ∈ l ∧ P x.
Proof.
  destruct (filter P l) as [|x l'] eqn:Hl; [done|]. intros _.
  assert (x ∈ filter P l) as Hx by (rewrite Hl; by left).
  apply list_elem_of_filter in Hx as [HP Hx]. eauto.
Qed.

(** X19.  The distribution of match types in the summary agrees with its
    five counts: the empty type is counted as often as there are new
    unique articles, the type [doi] as often as there are definite
    matches, and the three other types together as often as there are
    very likely, probable and possible matches; the distribution has no
    other key, and no key with the count 0. *)
Theorem match_type_distribution_agrees (self : deduplicator)
    (search_results_df : list (nat * candidate)) (match_results_df : list match_info)
    (rep : report) :
  find_matches self search_results_df = Ok match_results_df →
  NoDup (fst <$> search_results_df) →
  generate_deduplication_report self search_results_df match_results_df = Ok rep →
  default O (match_type_distribution (summary_json rep) !! "")
  = new_unique_articles (summary_json rep)
  ∧ default O (match_type_distribution (summary_json rep) !! "doi")
    = definite_matches (summary_json rep)
  ∧ (default O (match_type_distribution (summary_json rep) !! "title_year_exact")
     + default O (match_type_distribution (summary_json rep) !! "title_fuzzy")
     + default O (match_type_distribution (summary_json rep) !! "author_year")
     = very_likely_matches (summary_json rep) + probable_matches (summary_json rep)
       + possible_matches (summary_json rep))%nat
  ∧ ∀ t n, match_type_distribution (summary_json rep) !! t = Some n →
           (0 < n)%nat
           ∧ t ∈ [""; "doi"; "title_year_exact"; "title_fuzzy"; "author_year"].
Proof.
  intros Hf Hnd Hrep. apply find_matches_Ok in Hf.
  pose proof (Forall2_length _ _ _ Hf) as Hlen.
  pose proof (result_counts _ _ _ Hf) as (_ & Hnew & Hdoi & Hrest).
  unfold generate_deduplication_report in Hrep.
  destruct match_results_df as [|mi0 rs0] eqn:Hrs; [discriminate Hrep|].
  rewrite <-Hrs in *. clear Hrs mi0 rs0. injection Hrep as <-. simpl.
  rewrite (merge_find_matches _ _ _ Hf Hnd), !with_status_zip by done.
  assert (∀ t, default O (value_counts match_results_df !! t)
               = length (filter (λ mi, match_type mi = t) match_results_df)) as Hcount.
  { intros t. rewrite value_counts_lookup.
    generalize (length (filter (λ mi, match_type mi = t) match_results_df)).
    by intros []. }
  rewrite !Hcount. split_and!; [done..|].
  intros t n Ht. rewrite value_counts_lookup in Ht.
  destruct (length (filter (λ mi, match_type mi = t) match_results_df)) as [|k] eqn:Hk;
    [done|].
  injection Ht as <-. split; [lia|].
  destruct (filter_elem (λ mi, match_type mi = t) match_results_df) as (mi & Hin & <-);
    [by rewrite Hk|].
  apply list_elem_of_lookup in Hin as [i Hi].
  destruct (Forall2_lookup_r _ _ _ _ _ Hf Hi) as (ir & _ & Hd).
  apply decides_status_type in Hd.
  repeat (apply elem_of_cons in Hd as [[= _ <-]|Hd]; [set_solver|]).
  by apply elem_of_nil in Hd.
Qed.

Lemma match_type_distribution_agrees_witness :
  match find_matches Corpus.matcher Corpus.search_df with
  | Ok rs =>
      match generate_deduplication_report Corpus.matcher Corpus.search_df rs with
      | Ok rep =>
          default O (match_type_distribution (summary_json rep) !! "")
          = new_unique_articles (summary_json rep)
      | Raise _ => False
      end
  | Raise _ => False
  end.
Proof.
  destruct (find_matches Corpus.matcher Corpus.search_df) as [rs|] eqn:Hf;
    [|vm_compute in Hf; discriminate].
  pose proof Hf as Hrs. vm_compute in Hrs. injection Hrs as Hrs.
  destruct (generate_deduplication_report Corpus.matcher Corpus.search_df rs)
    as [rep|] eqn:Hrep; [|rewrite <-Hrs in Hrep; vm_compute in Hrep; discriminate].
  destruct (match_type_distribution_agrees Corpus.matcher Corpus.search_df rs rep)
    as (Hnew & _).
  - exact Hf.
  - apply (bool_decide_unpack _). vm_compute. exact I.
  - exact Hrep.
  - exact Hnew.
Defined.


(** ** Years: [int(float(str(n)))] *)

Lemma digits_val_acc d : ∀ acc,
  Float.digits_val (Z.pos acc) (Str.chars (NilEmpty.string_of_uint d))
  = Z.pos (Pos.of_uint_acc d acc).
Proof.
  unfold Float.digits_val.
  induction d as [|d IH|d IH|d IH|d IH|d IH|d IH|d IH|d IH|d IH|d IH]; intros acc;
    simpl; [done|rewrite <-IH; f_equal; unfold Float.digit_val; simpl; lia..].
Qed.

Lemma digits_val_uint d :
  Float.digits_val 0 (Str.chars (NilEmpty.string_of_uint d)) = Z.of_N (Pos.of_uint d).
Proof.
  induction d as [|d IH|d IH|d IH|d IH|d IH|d IH|d IH|d IH|d IH|d IH];
    [done|exact IH|exact (digits_val_acc d _)..].
Qed.

Lemma digits_uint d :
  Forall (λ c, Str.isdigit c = true) (Str.chars (NilEmpty.string_of_uint d)).
Proof. induction d; simpl; by constructor. Qed.

Lemma drop_while_all p l : Forall (λ c, p c = true) l → Str.drop_while p l = [].
Proof. induction 1 as [|c l Hc _ IH]; simpl; [done|]. by rewrite Hc. Qed.

Lemma isdigit_facts c :
  Str.isdigit c = true →
  Float.isspace_c c = false ∧ Ascii.eqb "_" c = false ∧ c ≠ "+"%char ∧ c ≠ "-"%char
  ∧ Ascii.eqb (Str.lower_char c) "i" = false ∧ Ascii.eqb (Str.lower_char c) "n" = false.
Proof.
  destruct c as [[] [] [] [] [] [] [] []]; vm_compute; intros [=];
    split_and!; done.
Qed.

(** A string of digits reads as its value. *)
Lemma parse_digits neg (l : list ascii) :
  l ≠ [] → Forall (λ c, Str.isdigit c = true) l →
  Float.parse_unsigned neg l = Some (Float.FNum neg (Float.digits_val 0 l) 0).
Proof.
  intros Hne Hall. unfold Float.parse_unsigned.
  destruct l as [|c l']; [done|].
  pose proof (Forall_inv Hall) as Hc. apply isdigit_facts in Hc as (_ & _ & _ & _ & Hi & Hn).
  assert (String.eqb (Str.text (map Str.lower_char (c :: l'))) "inf" = false) as ->
    by (simpl; by rewrite Hi).
  assert (String.eqb (Str.text (map Str.lower_char (c :: l'))) "infinity" = false) as ->
    by (simpl; by rewrite Hi).
  assert (String.eqb (Str.text (map Str.lower_char (c :: l'))) "nan" = false) as ->
    by (simpl; by rewrite Hn).
  simpl orb. cbv iota. unfold Float.parse_number.
  rewrite (take_while_all _ _ Hall), (drop_while_all _ _ Hall), app_nil_r.
  simpl. done.
Qed.

Lemma strip_digits (l : list ascii) :
  Forall (λ c, Float.isspace_c c = false) l → Str.strip_by Float.isspace_c l = l.
Proof.
  intros Hall. apply strip_by_trimmed.
  - intros c r ->. by apply Forall_inv in Hall.
  - intros c r Hr. rewrite Forall_forall in Hall. apply Hall.
    apply list_elem_of_In, in_rev. rewrite Hr. by left.
Qed.

Lemma existsb_false {A} (p : A → bool) l : Forall (λ c, p c = false) l → existsb p l = false.
Proof. induction 1 as [|c l Hc _ IH]; simpl; [done|]. by rewrite Hc. Qed.

(** A number below [2^53] is a [float], and [int] gives it back. *)
Lemma trunc_b64_exact n : (0 < n < 2 ^ 53)%Z → Float.trunc_b64 n 1 = Some n.
Proof.
  intros [Hpos Hlt]. unfold Float.trunc_b64.
  change (Z.log2 1) with 0%Z. rewrite Z.sub_0_r.
  pose proof (Z.log2_nonneg n) as Hl0.
  pose proof (Z.log2_spec n Hpos) as [Hlo Hhi].
  assert (Z.log2 n < 53)%Z as Hl by (by apply Z.log2_lt_pow2).
  replace (0 <=? Z.log2 n)%Z with true by (symmetry; apply Z.leb_le; lia).
  replace (1 * 2 ^ Z.log2 n <=? n)%Z with true by (symmetry; apply Z.leb_le; lia).
  replace (Z.log2 n <? -1)%Z with false by (symmetry; apply Z.ltb_ge; lia).
  replace (0 <=? 52 - Z.log2 n)%Z with true by (symmetry; apply Z.leb_le; lia).
  unfold Float.div_rne. rewrite Z.mod_1_r, Z.div_1_r. simpl (2 * 0 <? 1)%Z. cbv iota.
  f_equal. apply Z.div_mul. apply Z.pow_nonzero; lia.
Qed.

Lemma int_float_digits neg (p : positive) :
  (Z.pos p < 2 ^ 53)%Z →
  Float.int_of_fval
    (Float.FNum neg (Float.digits_val 0 (Str.chars (NilEmpty.string_of_uint (Pos.to_uint p)))) 0)
  = Ok (if neg then Z.neg p else Z.pos p).
Proof.
  intros Hlt. rewrite digits_val_uint, DecimalPos.Unsigned.of_to. simpl Z.of_N.
  unfold Float.int_of_fval. simpl (Z.pos p =? 0)%Z. rewrite Z.leb_refl. cbv iota beta.
  change (10 ^ 0)%Z with 1%Z. rewrite Z.mul_1_r, trunc_b64_exact by lia.
  by destruct neg.
Qed.

Lemma string_of_uint_pos p :
  NilZero.string_of_uint (Pos.to_uint p) = NilEmpty.string_of_uint (Pos.to_uint p)
  ∧ Str.chars (NilEmpty.string_of_uint (Pos.to_uint p)) ≠ [].
Proof.
  pose proof (DecimalPos.Unsigned.to_uint_nonnil p) as Hnn.
  by destruct (Pos.to_uint p).
Qed.

(** [int(float(str(n)))] is [n] for every integer of absolute value below
    [2^53]. *)
Lemma int_float_of_Z (z : Z) :
  (Z.abs z < 2 ^ 53)%Z → Float.int_float (Str.of_Z z) = Ok z.
Proof.
  intros Hz. destruct z as [|p|p]; [done| |].
  - unfold Str.of_Z. simpl Z.to_int. simpl NilZero.string_of_int.
    destruct (string_of_uint_pos p) as [-> Hne].
    pose proof (digits_uint (Pos.to_uint p)) as Hd.
    set (l := Str.chars (NilEmpty.string_of_uint (Pos.to_uint p))) in *.
    unfold Float.int_float, Float.parse. fold l.
    rewrite strip_digits
      by (eapply Forall_impl; [exact Hd|]; intros c Hc; apply isdigit_facts in Hc; tauto).
    rewrite existsb_false
      by (eapply Forall_impl; [exact Hd|]; intros c Hc; apply isdigit_facts in Hc; tauto).
    simpl mbind. destruct l as [|c l'] eqn:Hl; [done|].
    pose proof (Forall_inv Hd) as Hc. apply isdigit_facts in Hc as (_ & _ & Hplus & Hminus & _).
    assert (Float.parse_unsigned false (c :: l')
            = Some (Float.FNum false (Float.digits_val 0 (c :: l')) 0)) as Hparse
      by (by apply parse_digits).
    assert (match c :: l' with
            | "+"%char :: r => Float.parse_unsigned false r
            | "-"%char :: r => Float.parse_unsigned true r
            | _ => Float.parse_unsigned false (c :: l')
            end = Float.parse_unsigned false (c :: l')) as ->.
    { destruct c as [[] [] [] [] [] [] [] []]; done. }
    rewrite Hparse, <-Hl. unfold l. by apply (int_float_digits false).
  - unfold Str.of_Z. simpl Z.to_int. simpl NilZero.string_of_int.
    destruct (string_of_uint_pos p) as [-> Hne].
    pose proof (digits_uint (Pos.to_uint p)) as Hd.
    set (l := Str.chars (NilEmpty.string_of_uint (Pos.to_uint p))) in *.
    unfold Float.int_float, Float.parse.
    change (Str.chars (String "-" (NilEmpty.string_of_uint (Pos.to_uint p))))
      with ("-"%char :: l).
    rewrite strip_digits.
    2:{ constructor; [done|]. eapply Forall_impl; [exact Hd|].
        intros c Hc. apply isdigit_facts in Hc. tauto. }
    rewrite existsb_false.
    2:{ constructor; [done|]. eapply Forall_impl; [exact Hd|].
        intros c Hc. apply isdigit_facts in Hc. tauto. }
    simpl mbind. rewrite parse_digits by done.
    unfold l. by apply (int_float_digits true).
Qed.

(** X21.  The text of an integer cell is read back exactly:
    [int(float(str(n)))] is [n] for every integer [n] of absolute value
    below [2^53].  So for two integer years the year test of the fuzzy
    tier answers [continue] exactly when they differ by more than 1. *)
Theorem integer_years_window (y r : Z) :
  (Z.abs y < 2 ^ 53)%Z → (Z.abs r < 2 ^ 53)%Z →
  Float.int_float (py_str (PyInt y)) = Ok y
  ∧ year_filter (py_str (PyInt y)) (py_str (PyInt r)) = Ok (1 <? Z.abs (y - r))%Z.
Proof.
  intros Hy Hr. simpl py_str.
  pose proof (int_float_of_Z y Hy) as Hfy. pose proof (int_float_of_Z r Hr) as Hfr.
  split; [done|]. unfold year_filter.
  by rewrite (int_float_nonempty _ _ Hfy), (int_float_nonempty _ _ Hfr), Hfy, Hfr.
Qed.

Lemma integer_years_window_witness :
  Float.int_float (py_str (PyInt 2021)) = Ok 2021%Z
  ∧ year_filter (py_str (PyInt 2021)) (py_str (PyInt 2019)) = Ok true.
Proof.
  apply (integer_years_window 2021 2019); vm_compute; reflexivity.
Defined.

(** The row that the fuzzy tier reports has passed the year test, with a
    positive score. *)
Lemma fuzzy_tier_best_row_passes self idx row mi :
  decides self (idx, row) mi → match_type mi = "title_fuzzy" →
  ∃ i r, reference_idx mi = Some i ∧ reference_df self !! i = Some r
         ∧ year_filter (py_str (get (year row))) (ref_year_of r) = Ok false
         ∧ _normalize_title (get (title row)) ≠ ""
         ∧ 0 < _calculate_title_similarity (_normalize_title (get (title row)))
                 (title_normalized r).
Proof.
  intros Hd Hty. unfold decides in Hd. simpl in Hd.
  destruct (match_row_cases _ _ _ _ Hd) as [Hc|[Hc|[[Hc _]|Hc]]].
  { apply doi_tier_Some in Hc as (_ & Hc & _). congruence. }
  2:{ congruence. }
  2:{ by rewrite Hc in Hty. }
  unfold title_tiers in Hc.
  set (t := _normalize_title (get (title row))) in *.
  set (y := py_str (get (year row))) in *.
  destruct (Str.nonempty t) eqn:Hne; [|done]. apply nonempty_iff in Hne. unbind.
  destruct (title_year_lookup self !! (t, y)) as [[|i0 ?]|].
  2:{ destruct (loc self (Some i0)); [|done]. injection Hc as <-. done. }
  all: destruct (fuzzy_scan t y 0 (reference_df self) (None, 0)) as [[bm bs]|] eqn:Hscan;
    [|done];
    destruct (Qle_bool _ bs); [|done];
    destruct (loc self bm) as [ref_row|] eqn:Hloc; [|done];
    apply fuzzy_scan_spec in Hscan
      as [[[= -> ->] _]|(j & r & Hbm & Hj & Hyj & Hbs & Hpos & _)]; [done|];
    simpl in *; subst bm; apply loc_Some in Hloc as [Hi _];
    injection Hc as <-; simpl;
    exists j, r; rewrite <-Hbs; split_and!; [by f_equal|done..].
Qed.

(** X22.  A year that is not empty and does not read as a number (the text
    [nan] of a missing cell is one) makes the year test answer [continue]
    against every reference year that is not empty, and so does a
    reference year of that kind against a year that reads as a number.
    When no reference year is empty, a candidate with such a year never
    gets a [title_fuzzy] row, however close its title is. *)
Theorem unreadable_year_is_skipped (self : deduplicator) (idx : nat) (row : candidate) :
  py_str (get (year row)) ≠ "" →
  (∀ ref_year, ref_year ≠ "" →
     Float.int_float (py_str (get (year row))) = Raise ValueError
     ∨ (is_Ok (Float.int_float (py_str (get (year row))))
        ∧ Float.int_float ref_year = Raise ValueError) →
     year_filter (py_str (get (year row))) ref_year = Ok true)
  ∧ (Float.int_float (py_str (get (year row))) = Raise ValueError →
     Forall (λ ref, ref_year_of ref ≠ "") (reference_df self) →
     ∀ mi, decides self (idx, row) mi → match_type mi ≠ "title_fuzzy").
Proof.
  set (y := py_str (get (year row))). intros Hy.
  assert (∀ ref_year, ref_year ≠ "" →
            Float.int_float y = Raise ValueError
            ∨ (is_Ok (Float.int_float y) ∧ Float.int_float ref_year = Raise ValueError) →
            year_filter y ref_year = Ok true) as Hskip.
  { intros ref_year Hr Hcase. unfold year_filter.
    rewrite (nonempty_true _ Hy), (nonempty_true _ Hr). simpl.
    destruct Hcase as [-> |[Hok ->]]; [done|].
    by destruct (Float.int_float y). }
  split; [exact Hskip|]. intros Hbad Hall mi Hd Hty.
  destruct (fuzzy_tier_best_row_passes _ _ _ _ Hd Hty) as (i & r & _ & Hr & Hpass & _).
  rewrite Forall_forall in Hall. fold y in Hpass.
  rewrite (Hskip (ref_year_of r)) in Hpass;
    [done|apply Hall; by eapply list_elem_of_lookup_2|by left].
Qed.

Lemma unreadable_year_is_skipped_witness :
  year_filter "nan" "2021" = Ok true
  ∧ ∀ mi, decides Corpus.matcher (6%nat, Corpus.nan_year) mi → match_type mi ≠ "title_fuzzy".
Proof.
  destruct (unreadable_year_is_skipped Corpus.matcher 6 Corpus.nan_year) as [Hskip Hnever].
  - vm_compute. discriminate.
  - split.
    + apply (Hskip "2021"); [discriminate|]. left. vm_compute. reflexivity.
    + apply Hnever; [vm_compute; reflexivity|].
      repeat (constructor; [vm_compute; discriminate|]). constructor.
Defined.
(** ** [_calculate_title_similarity] on an empty title *)

Lemma ratio_nil_r {A} `{Countable A} (a : list A) : a ≠ [] → ratio a [] == 0.
Proof.
  intros Ha. unfold ratio, _calculate_ratio.
  pose proof (matches_le a []) as [_ Hm]. simpl in Hm.
  assert (matches a [] = O) as -> by lia.
  destruct (length a + length [] =? 0)%nat eqn:Hl; [|done].
  apply Nat.eqb_eq in Hl. destruct a; [done|]. simpl in Hl. lia.
Qed.

Lemma ratio_nil_l {A} `{Countable A} (b : list A) : b ≠ [] → ratio [] b == 0.
Proof.
  intros Hb. unfold ratio, _calculate_ratio.
  pose proof (matches_le [] b) as [Hm _]. simpl in Hm.
  assert (matches [] b = O) as -> by lia.
  destruct (length [] + length b =? 0)%nat eqn:Hl; [|done].
  apply Nat.eqb_eq in Hl. destruct b; [done|]. simpl in Hl. lia.
Qed.

Lemma overlap_empty_r s : overlap s ∅ = 0.
Proof. unfold overlap. rewrite (bool_decide_true (∅ = ∅)) by done. by rewrite orb_true_r. Qed.

Lemma overlap_empty_l s : overlap ∅ s = 0.
Proof. unfold overlap. by rewrite (bool_decide_true (∅ = ∅)) by done. Qed.

(** X23.  A title without characters shares nothing with a title that has
    some: the score of the two is 0, in either order, while two empty
    titles score 40, the share of the sequence ratio, which [difflib] puts
    at 1 for two empty sequences.  So the reference that the fuzzy tier
    reports never has an empty normalised title. *)
Theorem empty_title_scores_zero (t : string) :
  _calculate_title_similarity "" "" == 40
  ∧ (t ≠ "" →
     _calculate_title_similarity t "" == 0
     ∧ _calculate_title_similarity "" t == 0)
  ∧ ∀ self idx row mi i r,
      decides self (idx, row) mi → match_type mi = "title_fuzzy" →
      reference_idx mi = Some i → reference_df self !! i = Some r →
      title_normalized r ≠ "".
Proof.
  assert (t ≠ "" →
          _calculate_title_similarity t "" == 0
          ∧ _calculate_title_similarity "" t == 0) as Hzero.
  { intros Hne. assert (Str.chars t ≠ []) as Hc by (by destruct t).
    unfold _calculate_title_similarity.
    change (word_set "") with (∅ : gset string).
    change (get_ngrams "" 3) with (∅ : gset string).
    rewrite !overlap_empty_r, !overlap_empty_l.
    change (Str.chars "") with (@nil ascii).
    rewrite (ratio_nil_r _ Hc), (ratio_nil_l _ Hc). split; reflexivity. }
  split; [by vm_compute|]. split; [exact Hzero|].
  intros self idx row mi i r Hd Hty Hi Hr Hempty.
  destruct (fuzzy_tier_best_row_passes _ _ _ _ Hd Hty)
    as (i' & r' & Hi' & Hr' & _ & Hne & Hpos).
  rewrite Hi in Hi'. injection Hi' as <-. rewrite Hr in Hr'. injection Hr' as <-.
  rewrite Hempty in Hpos. clear Hzero.
  assert (_calculate_title_similarity (_normalize_title (get (title row))) "" == 0) as Hz.
  { set (t' := _normalize_title (get (title row))) in *.
    assert (Str.chars t' ≠ []) as Hc by (by destruct t').
    unfold _calculate_title_similarity.
    change (word_set "") with (∅ : gset string).
    change (get_ngrams "" 3) with (∅ : gset string).
    rewrite !overlap_empty_r. change (Str.chars "") with (@nil ascii).
    rewrite (ratio_nil_r _ Hc). reflexivity. }
  rewrite Hz in Hpos. by apply Qlt_irrefl in Hpos.
Qed.

Lemma empty_title_scores_zero_witness :
  _calculate_title_similarity "hospital networks" "" == 0
  ∧ _calculate_title_similarity "" "hospital networks" == 0.
Proof.
  apply (empty_title_scores_zero "hospital networks"). discriminate.
Defined.
(** ** What [find_matches] raises *)

Lemma year_filter_raises y ry e :
  year_filter y ry = Raise e →
  e = OverflowError
  ∧ (Float.int_float y = Raise OverflowError ∨ Float.int_float ry = Raise OverflowError).
Proof.
  unfold year_filter. destruct (_ && _); [|done].
  destruct (Float.int_float y) as [z|e1] eqn:Hy.
  - destruct (Float.int_float ry) as [z'|e2] eqn:Hr; [done|].
    destruct (int_float_raises _ _ Hr) as [-> | ->]; [done|]. intros [= <-]. tauto.
  - destruct (int_float_raises _ _ Hy) as [-> | ->]; [done|]. intros [= <-]. tauto.
Qed.

Lemma fuzzy_scan_raises t y rows : ∀ i best e,
  fuzzy_scan t y i rows best = Raise e →
  e = OverflowError
  ∧ (Float.int_float y = Raise OverflowError
     ∨ Exists (λ r, Float.int_float (ref_year_of r) = Raise OverflowError) rows).
Proof.
  induction rows as [|r rows IH]; intros i best e; simpl; [done|]. unbind.
  destruct (year_filter y (ref_year_of r)) as [skip|e1] eqn:Hf.
  - intros Hscan.
    assert (e = OverflowError
            ∧ (Float.int_float y = Raise OverflowError
               ∨ Exists (λ r, Float.int_float (ref_year_of r) = Raise OverflowError) rows))
      as [-> Hc] by (destruct skip; by eapply IH).
    split; [done|]. destruct Hc; [by left|right; by apply Exists_cons_tl].
  - intros [= <-]. apply year_filter_raises in Hf as [-> [Hy|Hr]].
    + tauto.
    + split; [done|]. right. by apply Exists_cons_hd.
Qed.

Lemma py_lower_raises cell e :
  py_lower (get cell) = Raise e → e = AttributeError ∧ ¬ textual cell.
Proof.
  unfold textual. destruct (get cell) as [s| |z] eqn:Hc; simpl; [done|..];
    intros [= <-]; split; [done| |done|]; by intros [s [=]].
Qed.

Lemma author_year_scan_raises self row a y rows : ∀ i mi results e,
  author_year_scan self row a y i rows mi results = Raise e →
  e = AttributeError
  ∧ (¬ textual (journal row) ∨ Exists (λ r, ¬ textual (Journal_Venue (source r))) rows).
Proof.
  induction rows as [|r rows IH]; intros i mi results e; simpl; [done|].
  destruct (_ && _).
  - unbind. destruct (py_lower (get (journal row))) as [j1|e1] eqn:Hj1.
    + destruct (py_lower (get (Journal_Venue (source r)))) as [j2|e2] eqn:Hj2; [done|].
      intros [= <-]. apply py_lower_raises in Hj2 as [-> Hj2].
      split; [done|]. right. by apply Exists_cons_hd.
    + intros [= <-]. apply py_lower_raises in Hj1 as [-> Hj1]. tauto.
  - intros Hscan. apply IH in Hscan as [-> Hc]. split; [done|].
    destruct Hc; [by left|right; by apply Exists_cons_tl].
Qed.

Lemma Exists_rows (P : reference → Prop) refs rows :
  Forall2 (λ r row, source row = r
                    ∧ doi_normalized row = _normalize_doi (DOI_URL r)
                    ∧ title_normalized row = _normalize_title (Title r)
                    ∧ _extract_first_author (Authors_Standardized r)
                      = Ok (first_author row)) refs rows →
  Exists (λ row, P (source row)) rows → Exists P refs.
Proof.
  induction 1 as [|r row refs rows (Hs & _) _ IH]; intros Hex;
    [by apply Exists_nil in Hex|].
  apply Exists_cons in Hex as [Hex|Hex].
  - apply Exists_cons_hd. by rewrite <-Hs.
  - apply Exists_cons_tl. by apply IH.
Qed.

Lemma find_matches_first_raise self batch e :
  find_matches self batch = Raise e →
  ∃ ir, ir ∈ batch ∧ match_row self [] ir.1 ir.2 = Raise e.
Proof.
  induction batch as [|ir batch IH]; [done|].
  unfold find_matches. simpl.
  change (Ok [] ≫= λ results, match_row self results ir.1 ir.2)
    with (match_row self [] ir.1 ir.2).
  destruct (match_row self [] ir.1 ir.2) as [rs1|e'] eqn:Hm.
  - rewrite find_matches_from_results.
    destruct (find_matches self batch) as [rs|e'] eqn:Hf; [done|].
    intros [= <-]. destruct (IH eq_refl) as (ir' & Hin & Hr).
    exists ir'. split; [by right|done].
  - rewrite find_matches_from_raise. intros [= <-]. exists ir. split; [by left|done].
Qed.

(** X24.  [find_matches] raises nothing but four exceptions, each with its
    cause in one candidate: [IndexError] for a blank author cell;
    [AttributeError] for a journal cell, of the candidate or of the
    reference table, that is no text; [OverflowError] for a year cell, of
    the candidate or of the reference table, that reads as an infinity or
    beyond the range of [float]; and [KeyError] only under a threshold
    [title_fuzzy] that is not positive. *)
Theorem find_matches_raises_with_cause (reference_csv : list reference) (cfg : thresholds)
    (self : deduplicator) (batch : list (nat * candidate)) (e : exn) :
  __init__ reference_csv cfg = Ok self →
  find_matches self batch = Raise e →
  ∃ ir, ir ∈ batch
    ∧ ((e = IndexError ∧ blank (get (authors ir.2)))
       ∨ (e = AttributeError
          ∧ (¬ textual (journal ir.2)
             ∨ Exists (λ r, ¬ textual (Journal_Venue r)) reference_csv))
       ∨ (e = OverflowError
          ∧ (¬ year_reads (year ir.2)
             ∨ Exists (λ r, ¬ year_reads (Publication_Year r)) reference_csv))
       ∨ (e = KeyError ∧ thr_title_fuzzy cfg <= 0)).
Proof.
  intros Hinit Hf.
  pose proof (init_rows _ _ _ Hinit) as (Hrows & Hcfg & Hdl & Htl).
  apply find_matches_first_raise in Hf as ([idx row] & Hin & Hm).
  exists (idx, row). split; [done|]. simpl in *. clear Hin.
  assert (is_Ok (doi_tier self row (new_match_info idx row))) as Hdoi.
  { unfold doi_tier. destruct (doi row) as [d|]; [|done].
    destruct (truthy d); [|done]. destruct (Str.nonempty (_normalize_doi d)); [|done].
    destruct (doi_lookup self !! _) as [i|] eqn:Hl; [|done].
    rewrite Hdl in Hl. apply build_doi_lookup_last in Hl as [(r & Hr & _) _].
    by rewrite (loc_lookup _ _ _ Hr). }
  unfold match_row in Hm. set (mi0 := new_match_info idx row) in *.
  set (t := _normalize_title (get (title row))) in *.
  set (y := py_str (get (year row))) in *. unbind.
  destruct (doi_tier self row mi0) as [[mi1|]|]; [done| |done]. clear Hdoi.
  destruct (title_tiers self t y mi0) as [[mi1|]|e1] eqn:Ht; [done| |].
  - destruct (_extract_first_author (get (authors row))) as [a|e1] eqn:Ha.
    + destruct (Str.nonempty a && Str.nonempty y); simpl in Hm.
      * destruct (author_year_scan self row a y 0 (reference_df self) mi0 [])
          as [[mi1 rs]|e1] eqn:Hscan; [by destruct (String.eqb _ _)|].
        injection Hm as <-. apply author_year_scan_raises in Hscan as [-> Hc].
        right; left. split; [done|]. destruct Hc as [Hc|Hc]; [by left|right].
        by apply (Exists_rows (λ r, ¬ textual (Journal_Venue r)) _ _ Hrows).
      * done.
    + injection Hm as <-. left.
      pose proof (extract_first_author_blank_iff (get (authors row))) as Hfa.
      by rewrite Ha in Hfa.
  - injection Hm as <-. unfold title_tiers in Ht.
    destruct (Str.nonempty t); [|done]. unbind.
    assert (∀ m : res (option match_info), is_Ok m →
              match m with
              | Ok (Some mi') => Ok (Some mi')
              | Ok None =>
                  match fuzzy_scan t y 0 (reference_df self) (None, 0) with
                  | Ok best =>
                      let '(best_match, best_score) := best in
                      if Qle_bool (thr_title_fuzzy (match_thresholds self)) best_score
                      then match loc self best_match with
                           | Ok ref_row =>
                               Ok (Some (update mi0
                                           (if Qle_bool 90 best_score
                                            then "very_likely_match"
                                            else if Qle_bool 80 best_score
                                                 then "probable_match"
                                                 else "possible_match")
                                           best_score "title_fuzzy" ref_row.1 ref_row.2
                                           (TitleSimilarity best_score)))
                           | Raise e => Raise e
                           end
                      else Ok None
                  | Raise e => Raise e
                  end
              | Raise e => Raise e
              end = Raise e1 →
              (e1 = OverflowError
               ∧ (Float.int_float y = Raise OverflowError
                  ∨ Exists (λ r, Float.int_float (ref_year_of r) = Raise OverflowError)
                      (reference_df self)))
              ∨ (e1 = KeyError ∧ thr_title_fuzzy cfg <= 0)) as Hfuzzy.
    { intros m Hok. destruct m as [[mi'|]|]; [done| |done].
      destruct (fuzzy_scan t y 0 (reference_df self) (None, 0)) as [[bm bs]|e2] eqn:Hscan.
      - destruct (Qle_bool _ bs) eqn:Hle; [|done]. apply Qle_bool_iff in Hle.
        apply fuzzy_scan_spec in Hscan as [[[= -> ->] _]|(j & r & Hbm & Hj & _)].
        + simpl. intros [= <-]. right. split; [done|]. by rewrite <-Hcfg.
        + simpl in Hbm. subst bm. by rewrite (loc_lookup _ _ _ Hj).
      - intros [= <-]. left. by eapply fuzzy_scan_raises. }
    assert ((e1 = OverflowError
             ∧ (Float.int_float y = Raise OverflowError
                ∨ Exists (λ r, Float.int_float (ref_year_of r) = Raise OverflowError)
                    (reference_df self)))
            ∨ (e1 = KeyError ∧ thr_title_fuzzy cfg <= 0)) as [[-> Hc]|[-> Hc]].
    { destruct (title_year_lookup self !! (t, y)) as [[|i l]|] eqn:Hl.
      - by apply (Hfuzzy (Ok None)).
      - destruct (build_title_year_lookup_spec (reference_df self) (t, y)) as (_ & _ & Hmem).
        rewrite <-Htl, Hl in Hmem. destruct (proj1 (Hmem i)) as (r & Hr & _); [by left|].
        rewrite (loc_lookup _ _ _ Hr) in Ht. done.
      - by apply (Hfuzzy (Ok None)). }
    + right; right; left. split; [done|]. destruct Hc as [Hc|Hc].
      * left. unfold year_reads. fold y. by intros ?.
      * right. apply (Exists_rows (λ r, ¬ year_reads (Publication_Year r)) _ _ Hrows).
        eapply Exists_impl; [exact Hc|]. intros r Hr. unfold year_reads.
        unfold ref_year_of in Hr. by intros ?.
    + by right; right; right.
Qed.

Lemma find_matches_raises_with_cause_witness :
  ∃ ir, ir ∈ [(1%nat, Sample.missing_journal)]
    ∧ ((AttributeError = IndexError ∧ blank (get (authors ir.2)))
       ∨ (AttributeError = AttributeError
          ∧ (¬ textual (journal ir.2)
             ∨ Exists (λ r, ¬ textual (Journal_Venue r)) [Sample.furukawa]))
       ∨ (AttributeError = OverflowError
          ∧ (¬ year_reads (year ir.2)
             ∨ Exists (λ r, ¬ year_reads (Publication_Year r)) [Sample.furukawa]))
       ∨ (AttributeError = KeyError ∧ thr_title_fuzzy Sample.cfg <= 0)).
Proof.
  apply (find_matches_raises_with_cause [Sample.furukawa] Sample.cfg Sample.matcher).
  - vm_compute. reflexivity.
  - vm_compute. reflexivity.
Defined.
(** ** A title that is in the reference table *)

(** Rewriting under the comparison of two scores. *)
Lemma Qle_bool_100 (s : Q) : s <= 100 → 100 <= s → Qle_bool 90 s = true ∧ s == 100.
Proof.
  intros Hle Hge. split; [apply Qle_bool_iff; lra|]. by apply Qle_antisym.
Qed.

(** X25.  A candidate whose normalised title, of three characters or
    more, is that of a reference row which passes the year test gets a
    [title_fuzzy] row with confidence 100 and the status
    [very_likely_match], when the DOI tier does not decide, no reference
    row has both this title and the text of the year, the years of the
    tables read as numbers, and the threshold [title_fuzzy] is at most
    100.  The row names the first reference row that scores 100, which is
    that row or an earlier one. *)
Theorem known_title_is_very_likely (reference_csv : list reference) (cfg : thresholds)
    (self : deduplicator) (idx : nat) (row : candidate) (i : nat) (r : reference) :
  __init__ reference_csv cfg = Ok self →
  doi_tier self row (new_match_info idx row) = Ok None →
  (3 ≤ String.length (_normalize_title (get (title row))))%nat →
  reference_csv !! i = Some r →
  _normalize_title (Title r) = _normalize_title (get (title row)) →
  year_filter (py_str (get (year row))) (py_str (get (Publication_Year r))) = Ok false →
  (∀ r', r' ∈ reference_csv →
         ¬ (_normalize_title (Title r') = _normalize_title (get (title row))
            ∧ py_str (get (Publication_Year r')) = py_str (get (year row)))) →
  year_reads (year row) →
  Forall (λ r', year_reads (Publication_Year r')) reference_csv →
  thr_title_fuzzy cfg <= 100 →
  ∃ mi j r',
    decides self (idx, row) mi
    ∧ match_type mi = "title_fuzzy" ∧ match_status mi = "very_likely_match"
    ∧ match_confidence mi == 100
    ∧ reference_idx mi = Some j ∧ (j ≤ i)%nat ∧ reference_csv !! j = Some r'
    ∧ reference_title mi = Title r'.
Proof.
  intros Hinit Hnodoi Hlen Hr Ht Hpass Hnokey Hy Hyears Hthr.
  pose proof (init_rows _ _ _ Hinit) as (Hrows & Hcfg & _ & Htl).
  destruct (Forall2_lookup_l _ _ _ _ _ Hrows Hr) as (row_i & Hrow & Hs & _ & Htn & _).
  set (t := _normalize_title (get (title row))) in *.
  set (y := py_str (get (year row))) in *.
  assert (t ≠ "") as Hne by (intros Ha; rewrite Ha in Hlen; simpl in Hlen; lia).
  assert (_calculate_title_similarity t t == 100) as Hself.
  { unfold _calculate_title_similarity. rewrite ratio_self.
    rewrite (overlap_self (word_set t))
      by (apply word_set_nonempty, normalize_title_split; done).
    rewrite (overlap_self (get_ngrams t 3)) by (by apply get_ngrams_nonempty).
    reflexivity. }
  assert (title_year_lookup self !! (t, y) = None) as Hl.
  { destruct (build_title_year_lookup_spec (reference_df self) (t, y)) as (Hnil & _ & Hmem).
    rewrite <-Htl in Hnil, Hmem.
    destruct (title_year_lookup self !! (t, y)) as [[|i0 l]|]; [done| |done].
    destruct (proj1 (Hmem i0)) as (row0 & Hrow0 & Hk0); [by left|].
    destruct (Forall2_lookup_r _ _ _ _ _ Hrows Hrow0) as (r0 & Hr0 & Hs0 & _ & Htn0 & _).
    unfold title_year_key, ref_year_of in Hk0. rewrite Htn0, Hs0 in Hk0.
    injection Hk0 as Ht0 Hy0. destruct (Hnokey r0); [by eapply list_elem_of_lookup_2|done]. }
  assert (Forall (λ row', Float.int_float (ref_year_of row') ≠ Raise OverflowError)
            (reference_df self)) as Hdf.
  { apply Forall_forall. intros row' [k Hk]%list_elem_of_lookup.
    destruct (Forall2_lookup_r _ _ _ _ _ Hrows Hk) as (r' & Hr' & Hs' & _).
    rewrite Forall_forall in Hyears. unfold ref_year_of. rewrite Hs'.
    apply Hyears. by eapply list_elem_of_lookup_2. }
  pose proof (fuzzy_scan_Ok t y _ Hy Hdf 0%nat (None, 0)) as Hok.
  destruct (fuzzy_scan t y 0 (reference_df self) (None, 0)) as [[bm bs]|] eqn:Hscan;
    [|done]. clear Hok.
  assert (year_filter y (ref_year_of row_i) = Ok false) as Hpass'
    by (unfold ref_year_of; by rewrite Hs).
  assert (_calculate_title_similarity t (title_normalized row_i) == 100) as Hsim
    by (by rewrite Htn, Ht).
  pose proof Hscan as Hspec.
  apply fuzzy_scan_spec in Hspec as [[[= -> ->] Hall]|(j & rj & Hbm & Hj & _ & Hbs & _ & Hmax)].
  { specialize (Hall _ _ Hrow Hpass'). simpl in Hall. rewrite Hsim in Hall. lra. }
  simpl in Hbm, Hbs. subst bm.
  destruct (Hmax _ _ Hrow Hpass') as [Hle Hfirst]. simpl in Hle, Hfirst.
  pose proof (similarity_bounds t (title_normalized rj)) as [_ Hb]. rewrite <-Hbs in Hb.
  rewrite Hsim in Hle.
  destruct (Qle_bool_100 bs Hb Hle) as [H90 H100].
  assert (j ≤ i)%nat as Hji.
  { destruct (decide (i < j)%nat) as [Hlt|]; [|lia].
    specialize (Hfirst Hlt). rewrite Hsim in Hfirst. lra. }
  destruct (Forall2_lookup_r _ _ _ _ _ Hrows Hj) as (r' & Hr' & Hs' & _).
  eexists _, j, r'. split.
  - apply decides_by_title; [done|]. fold t y. unfold title_tiers.
    rewrite (nonempty_true _ Hne), Hl. unbind. rewrite Hscan.
    replace (Qle_bool (thr_title_fuzzy (match_thresholds self)) bs) with true
      by (symmetry; apply Qle_bool_iff; rewrite Hcfg; lra).
    rewrite (loc_lookup _ _ _ Hj), H90. reflexivity.
  - simpl. by rewrite Hs'.
Qed.

Lemma known_title_is_very_likely_witness :
  ∃ mi, decides Corpus.matcher (7%nat, Corpus.next_year) mi
        ∧ match_type mi = "title_fuzzy" ∧ match_confidence mi == 100.
Proof.
  destruct (known_title_is_very_likely Corpus.refs Sample.cfg Corpus.matcher 7
              Corpus.next_year 0 Sample.furukawa)
    as (mi & j & r' & Hmi & Hty & _ & Hconf & _).
  - vm_compute. reflexivity.
  - vm_compute. reflexivity.
  - vm_compute. lia.
  - reflexivity.
  - vm_compute. reflexivity.
  - vm_compute. reflexivity.
  - intros r' Hin [Ht Hy]. unfold Corpus.refs in Hin.
    repeat (apply elem_of_cons in Hin as [->|Hin]; [vm_compute in Ht, Hy; discriminate|]).
    by apply elem_of_nil in Hin.
  - vm_compute. discriminate.
  - repeat (constructor; [vm_compute; discriminate|]). constructor.
  - vm_compute. discriminate.
  - exists mi. split; [exact Hmi|]. split; assumption.
Defined.
(** ** The patterns of [_normalize_doi], and the case of letters *)

(** X26.  The second and the third pattern of [_normalize_doi], for
    [doi.org/] and [dx.doi.org/], never decide: where the bare pattern
    finds nothing, neither of them finds anything, whatever the text.  The
    value is the first match of the bare pattern in the lower-cased,
    stripped text of the cell, or that text itself. *)
Theorem resolver_patterns_never_decide (d : pyval) :
  (Re.search Re.match_doi (Str.chars (doi_str d)) = None →
   Re.search (Re.match_prefixed (Str.chars "doi.org/")) (Str.chars (doi_str d)) = None
   ∧ Re.search (Re.match_prefixed (Str.chars "dx.doi.org/")) (Str.chars (doi_str d)) = None)
  ∧ _normalize_doi d
    = (if isna d then ""
       else match Re.search Re.match_doi (Str.chars (doi_str d)) with
            | Some g => Str.text g
            | None => doi_str d
            end).
Proof.
  split; [|apply normalize_doi_first_pattern].
  intros Hnone. split; by apply search_prefixed_None.
Qed.

Lemma resolver_patterns_never_decide_witness :
  Re.search (Re.match_prefixed (Str.chars "doi.org/"))
    (Str.chars (doi_str (PyStr "https://doi.org/10.12/abc"))) = None
  ∧ Re.search (Re.match_prefixed (Str.chars "dx.doi.org/"))
      (Str.chars (doi_str (PyStr "https://doi.org/10.12/abc"))) = None.
Proof.
  apply (resolver_patterns_never_decide (PyStr "https://doi.org/10.12/abc")).
  vm_compute. reflexivity.
Defined.

(** X27.  The normalisers do not see the case of letters, and
    [_normalize_doi] does not see whitespace around the text: a title or a
    DOI gets the value of its lower-cased text, and a DOI the value of its
    stripped text. *)
Theorem normalisers_ignore_case (s : string) :
  _normalize_title (PyStr (Str.lower s)) = _normalize_title (PyStr s)
  ∧ _normalize_doi (PyStr (Str.lower s)) = _normalize_doi (PyStr s)
  ∧ _normalize_doi (PyStr (Str.strip s)) = _normalize_doi (PyStr s).
Proof.
  split_and!.
  - unfold _normalize_title. simpl. by rewrite lower_idemp.
  - rewrite !normalize_doi_first_pattern. simpl isna. cbv iota.
    unfold doi_str. simpl py_str. by rewrite lower_idemp.
  - rewrite !normalize_doi_first_pattern. simpl isna. cbv iota.
    unfold doi_str. simpl py_str. by rewrite lower_strip, strip_idemp.
Qed.
